(** * Transformers/model.py: a shallow embedding and its verification

    The file follows [src/Transformers/model.py] class by class.

    - Python exceptions are values of [PyError]; code that can raise runs
      in the [result] monad.
    - A torch tensor is a shape together with its entries, read by index
      ([tensor]).  The entries of float tensors are real numbers:
      rounding, infinities and NaN are not modelled.  Shapes,
      broadcasting, shape errors, views and in-place updates are.
    - [a @ b] is modelled for operands of rank at least two, the only
      ones that the forward methods pass.
    - Object construction ([__init__], [build_transformer]) runs in the
      [build] monad, which logs every tensor that a factory or a
      parameter constructor creates and draws the random initial weights
      from an explicit source.
    - What [torch.nn.Module] does with attributes, buffers and submodules
      is in [nn_Module].
    - [attention] is written twice: as a function on tensors
      ([MultiAttentionBlock.attention]) and on tensor objects in a store
      ([Store.attention]), where views share storage and [masked_fill_]
      writes in place.  [store_attention_refines] relates the two.
    - The forward wiring of the blocks is written once, over an interface
      of tensor operations ([Backend]), and instantiated twice: with torch
      tensors and with symbolic terms that record the data flow.
    - [Transformer.encode] and [Transformer.decode] run the embedding,
      the positional encoding and the blocks on torch tensors; token ids
      are tensors of integers.

    The last part, "Further properties of the code", is about the
    methods and the edge cases that the earlier parts leave out. *)

From Stdlib Require Import Reals Lra Lia ZArith QArith List Ascii String.
From stdpp Require Import base option list gmap strings.
Import ListNotations.

Local Open Scope R_scope.

(** ** Python exceptions and the error monad *)

Inductive PyError : Type :=
| RuntimeError        (* torch shape and size errors *)
| IndexError          (* dimension out of range *)
| AssertionError
| KeyError
| ValueError
| TypeError
| AttributeError
| ZeroDivisionError.

Definition result (A : Type) : Type := (PyError + A)%type.

Definition ok {A} (a : A) : result A := inr a.
Definition raise {A} (e : PyError) : result A := inl e.

Definition rbind {A B} (m : result A) (f : A -> result B) : result B :=
  match m with
  | inl e => inl e
  | inr a => f a
  end.

Declare Scope result_scope.
Delimit Scope result_scope with result.
Notation "'do' x <- m ; k" := (rbind m (fun x => k))
  (at level 10, x name, m at level 100, k at level 200) : result_scope.
Notation "'do' ' p <- m ; k" := (rbind m (fun x => match x with p => k end))
  (at level 10, p pattern, m at level 100, k at level 200) : result_scope.
Local Open Scope result_scope.

(** ** Tensors *)

(** [shape] is [tensor.shape]; [data t idx] is the entry [t[idx]].
    Entries outside the shape are never read by the operations below
    when their arguments are in range. *)
Record tensor (A : Type) : Type := Tensor {
  shape : list nat;
  data : list nat -> A
}.
Arguments Tensor {A} shape data.
Arguments shape {A} t.
Arguments data {A} t idx.

Definition rank {A} (t : tensor A) : nat := length (shape t).

(** [idx] is a valid index of a tensor of shape [s]. *)
Definition in_range (s idx : list nat) : Prop := Forall2 lt idx s.

(** Two tensors are the same tensor: same shape, same entries. *)
Definition tensor_eq {A} (a b : tensor A) : Prop :=
  shape a = shape b /\ forall idx, in_range (shape a) idx -> data a idx = data b idx.

(** [sum_n n f] is [f 0 + ... + f (n-1)]. *)
Fixpoint sum_n (n : nat) (f : nat -> R) : R :=
  match n with
  | O => 0
  | S m => sum_n m f + f m
  end.

Definition numel (s : list nat) : nat := fold_right Nat.mul 1%nat s.

(** *** Index helpers: the last one or two dimensions *)

Definition last_dim (s : list nat) : nat := List.last s 0%nat.
Definition but_last (s : list nat) : list nat := removelast s.
Definition with_last (idx : list nat) (j : nat) : list nat := but_last idx ++ [j].

(** [dim] counted from the end when negative, as torch does. *)
Definition resolve_dim (n : nat) (dim : Z) : result nat :=
  let d := if (dim <? 0)%Z then (dim + Z.of_nat n)%Z else dim in
  if ((0 <=? d) && (d <? Z.of_nat n))%Z then ok (Z.to_nat d) else raise IndexError.

Definition swap_at {X} (i j : nat) (l : list X) : list X :=
  match l !! i, l !! j with
  | Some a, Some b => <[i := b]> (<[j := a]> l)
  | _, _ => l
  end.

(** *** Broadcasting (aligned on the last dimension) *)

Fixpoint broadcast_rev (r1 r2 : list nat) : option (list nat) :=
  match r1, r2 with
  | [], r => Some r
  | r, [] => Some r
  | a :: r1', b :: r2' =>
      if (a =? b)%nat then cons a <$> broadcast_rev r1' r2'
      else if (a =? 1)%nat then cons b <$> broadcast_rev r1' r2'
      else if (b =? 1)%nat then cons a <$> broadcast_rev r1' r2'
      else None
  end.

Definition broadcast_shapes (s1 s2 : list nat) : option (list nat) :=
  @rev nat <$> broadcast_rev (rev s1) (rev s2).

Fixpoint bindex_rev (rs ri : list nat) : list nat :=
  match rs, ri with
  | d :: rs', i :: ri' => (if (d =? 1)%nat then 0%nat else i) :: bindex_rev rs' ri'
  | _, _ => []
  end.

(** The index of the source entry (shape [s]) read at index [idx] of the
    broadcast tensor. *)
Definition bindex (s idx : list nat) : list nat :=
  rev (bindex_rev (rev s) (rev idx)).

(** *** torch operations *)

Definition tmap {A B} (f : A -> B) (t : tensor A) : tensor B :=
  Tensor (shape t) (fun idx => f (data t idx)).

Definition swap_dims {A} (d0 d1 : nat) (t : tensor A) : tensor A :=
  Tensor (swap_at d0 d1 (shape t)) (fun idx => data t (swap_at d0 d1 idx)).

(** [t.transpose(dim0, dim1)]: a view with two dimensions exchanged. *)
Definition transpose {A} (dim0 dim1 : Z) (t : tensor A) : result (tensor A) :=
  do d0 <- resolve_dim (rank t) dim0;
  do d1 <- resolve_dim (rank t) dim1;
  ok (swap_dims d0 d1 t).

(** [a @ b] for operands of rank at least 2: matrix product over the last
    two dimensions, the leading dimensions broadcast. *)
Definition matmul (a b : tensor R) : result (tensor R) :=
  if ((rank a <? 2) || (rank b <? 2))%nat then raise RuntimeError else
  let ba := but_last (but_last (shape a)) in
  let bb := but_last (but_last (shape b)) in
  let n := last_dim (but_last (shape a)) in
  let m := last_dim (shape a) in
  let m' := last_dim (but_last (shape b)) in
  let p := last_dim (shape b) in
  if negb (m =? m')%nat then raise RuntimeError else
  match broadcast_shapes ba bb with
  | None => raise RuntimeError
  | Some bs =>
      ok (Tensor (bs ++ [n; p])
            (fun idx =>
               let pre := but_last (but_last idx) in
               let i := last_dim (but_last idx) in
               let j := last_dim idx in
               sum_n m (fun k => data a (bindex ba pre ++ [i; k])
                                 * data b (bindex bb pre ++ [k; j]))))
  end.

(** [mask == 0] *)
Definition eq_zero (mask : tensor Z) : tensor bool :=
  tmap (fun m => (m =? 0)%Z) mask.

(** The tensor that [t.masked_fill_(mask, value)] leaves in [t]: the mask
    is broadcast to the shape of [t], which does not change. *)
Definition masked_fill (t : tensor R) (mask : tensor bool) (value : R) : result (tensor R) :=
  match broadcast_shapes (shape mask) (shape t) with
  | Some s =>
      if decide (s = shape t) then
        ok (Tensor (shape t)
              (fun idx => if data mask (bindex (shape mask) idx) then value else data t idx))
      else raise RuntimeError
  | None => raise RuntimeError
  end.

(** [t.softmax(-1)] *)
Definition softmax (t : tensor R) : tensor R :=
  Tensor (shape t)
    (fun idx => exp (data t idx)
                / sum_n (last_dim (shape t)) (fun j => exp (data t (with_last idx j)))).

(** [t.mean(dim=-1, keepdim=True)] *)
Definition mean_last (t : tensor R) : tensor R :=
  let n := last_dim (shape t) in
  Tensor (but_last (shape t) ++ [1%nat])
    (fun idx => sum_n n (fun j => data t (with_last idx j)) / INR n).

(** [t.std(dim=-1, keepdim=True)]; torch's default is the unbiased
    estimator (Bessel's correction: the sum of squares is divided by
    [n - 1]). *)
Definition std_last (t : tensor R) : tensor R :=
  let n := last_dim (shape t) in
  Tensor (but_last (shape t) ++ [1%nat])
    (fun idx =>
       let mu := data (mean_last t) idx in
       sqrt (sum_n n (fun j => (data t (with_last idx j) - mu) ^ 2) / (INR n - 1))).

(** Row-major position of an index, and back: [t.view(...)] keeps the
    entries in this order. *)
Fixpoint ravel (s idx : list nat) : nat :=
  match s, idx with
  | _ :: s', i :: idx' => (i * numel s' + ravel s' idx')%nat
  | _, _ => 0%nat
  end.

Fixpoint unravel (s : list nat) (k : nat) : list nat :=
  match s with
  | [] => []
  | _ :: s' => (k / numel s')%nat :: unravel s' (k mod numel s')%nat
  end.

Definition view (new_shape : list nat) (t : tensor R) : result (tensor R) :=
  if (numel new_shape =? numel (shape t))%nat then
    ok (Tensor new_shape (fun idx => data t (unravel (shape t) (ravel new_shape idx))))
  else raise RuntimeError.

(** [t.shape[i]] *)
Definition shape_at {A} (t : tensor A) (i : nat) : result nat :=
  match shape t !! i with
  | Some d => ok d
  | None => raise IndexError
  end.

(** Element-wise binary operation with broadcasting ([a * b], [a + b]). *)
Definition binop (f : R -> R -> R) (a b : tensor R) : result (tensor R) :=
  match broadcast_shapes (shape a) (shape b) with
  | Some s =>
      ok (Tensor s (fun idx => f (data a (bindex (shape a) idx))
                                 (data b (bindex (shape b) idx))))
  | None => raise RuntimeError
  end.

(** [torch.arange(0, stop, step)] for a positive [step], as floats. *)
Definition arange (stop step : nat) : tensor R :=
  Tensor [((stop + step - 1) / step)%nat]
    (fun idx => INR (List.hd 0%nat idx * step)).

(** [t.unsqueeze(1)] on a vector, [t.unsqueeze(0)] in general. *)
Definition unsqueeze_1 {A} (t : tensor A) : tensor A :=
  Tensor (firstn 1 (shape t) ++ 1%nat :: skipn 1 (shape t))
    (fun idx => data t (firstn 1 idx ++ skipn 2 idx)).

Definition unsqueeze_0 {A} (t : tensor A) : tensor A :=
  Tensor (1%nat :: shape t) (fun idx => data t (List.tl idx)).

(** The tensor that [t[:, start::2] = value] leaves in the matrix [t]:
    [value] is broadcast to the shape of the slice. *)
Definition setitem_cols (start : nat) (t value : tensor R) : result (tensor R) :=
  match shape t with
  | [rows; cols] =>
      let slice := [rows; ((cols + 1 - start) / 2)%nat] in
      match broadcast_shapes (shape value) slice with
      | Some s =>
          if decide (s = slice) then
            ok (Tensor (shape t)
                  (fun idx =>
                     match idx with
                     | [i; c] =>
                         if ((start <=? c) && Nat.even (c - start))%nat
                         then data value (bindex (shape value) [i; ((c - start) / 2)%nat])
                         else data t idx
                     | _ => data t idx
                     end))
          else raise RuntimeError
      | None => raise RuntimeError
      end
  | _ => raise IndexError
  end.

(** Every index of a tensor of shape [s], in row-major order. *)
Fixpoint all_indices (s : list nat) : list (list nat) :=
  match s with
  | [] => [[]]
  | d :: s' => flat_map (fun i => map (cons i) (all_indices s')) (seq 0 d)
  end.

(** [torch.nn.functional.embedding(input, weight)]: row [input[idx]] of
    [weight] for every index of [input]; an entry of [input] that is not
    a row of [weight] is an [IndexError]. *)
Definition F_embedding (input : tensor Z) (weight : tensor R) : result (tensor R) :=
  match shape weight with
  | [num_embeddings; embedding_dim] =>
      if forallb (fun idx => (0 <=? data input idx)%Z
                             && (data input idx <? Z.of_nat num_embeddings)%Z)
           (all_indices (shape input))
      then ok (Tensor (shape input ++ [embedding_dim])
                 (fun idx => data weight [Z.to_nat (data input (but_last idx)); last_dim idx]))
      else raise IndexError
  | _ => raise RuntimeError
  end.

(** [torch.log_softmax(t, dim=-1)] *)
Definition log_softmax (t : tensor R) : tensor R :=
  Tensor (shape t)
    (fun idx => data t idx
                - ln (sum_n (last_dim (shape t)) (fun j => exp (data t (with_last idx j))))).

(** [t[:, :n, :]]: the first [n] entries along dimension 1, all of them
    when there are fewer. *)
Definition slice_1 {A} (n : nat) (t : tensor A) : result (tensor A) :=
  match shape t with
  | a :: s :: c :: rest => ok (Tensor (a :: Nat.min n s :: c :: rest) (data t))
  | _ => raise IndexError
  end.

(** ** Construction: the [build] monad

    Constructors create tensors.  [log] lists them in order of creation;
    [source] supplies the values of randomly initialised tensors, the
    [seed]-th draw being [source seed]; [coins] supplies the Bernoulli
    draws of the dropout modules. *)

Inductive event : Type :=
| TensorCreated (what : string) (dims : list Z).

Record build_state : Type := BuildState {
  log : list event;
  source : nat -> list nat -> R;
  coins : nat -> list nat -> bool;
  seed : nat
}.

Definition build (A : Type) : Type := build_state -> build_state * result A.

Definition bret {A} (a : A) : build A := fun st => (st, ok a).
Definition bfail {A} (e : PyError) : build A := fun st => (st, raise e).
Definition blift {A} (r : result A) : build A := fun st => (st, r).

Definition bbind {A B} (m : build A) (f : A -> build B) : build B :=
  fun st =>
    match m st with
    | (st', inl e) => (st', inl e)
    | (st', inr a) => f a st'
    end.

Notation "'run' x <- m ; k" := (bbind m (fun x => k))
  (at level 10, x name, m at level 100, k at level 200) : result_scope.

(** A factory call ([torch.zeros], [torch.ones], [torch.arange]): the
    tensor is logged; a negative dimension is a torch error. *)
Definition created (what : string) (dims : list Z) (t : tensor R) : build (tensor R) :=
  fun st =>
    if forallb (fun d => (0 <=? d)%Z) dims
    then (BuildState (log st ++ [TensorCreated what dims]) (source st) (coins st) (seed st), ok t)
    else (st, raise RuntimeError).

(** A randomly initialised tensor ([torch.empty] then an init). *)
Definition random_tensor (what : string) (dims : list Z) : build (tensor R) :=
  fun st =>
    if forallb (fun d => (0 <=? d)%Z) dims
    then (BuildState (log st ++ [TensorCreated what dims]) (source st) (coins st) (S (seed st)),
          ok (Tensor (map Z.to_nat dims) (source st (seed st))))
    else (st, raise RuntimeError).

(** A fresh draw into an existing tensor ([nn.init.xavier_uniform_]). *)
Definition redraw (t : tensor R) : build (tensor R) :=
  fun st =>
    (BuildState (log st) (source st) (coins st) (S (seed st)),
     ok (Tensor (shape t) (source st (seed st)))).

(** [for _ in range(n): l.append(body)] *)
Fixpoint repeatM {A} (n : nat) (body : build A) : build (list A) :=
  match n with
  | O => bret []
  | S m => run a <- body; run l <- repeatM m body; bret (a :: l)
  end.

Fixpoint mapM_build {A B} (f : A -> build B) (l : list A) : build (list B) :=
  match l with
  | [] => bret []
  | a :: l' => run b <- f a; run bs <- mapM_build f l'; bret (b :: bs)
  end.

(** ** nn.Dropout *)
Module Dropout.
(** [bernoulli] is the draw of the current call: [true] keeps the entry. *)
Record t : Type := Make {
  p : Q;
  training : bool;
  bernoulli : list nat -> bool
}.

Definition init (p : Q) : build t :=
  if (Qle_bool 0 p && Qle_bool p 1)%bool
  then fun st =>
         (BuildState (log st) (source st) (coins st) (S (seed st)),
          ok (Make p true (coins st (seed st))))
  else bfail ValueError.

(** In evaluation mode the input is returned as it is; in training
    mode the kept entries are scaled by [1 / (1 - p)]. *)
Definition forward (self : t) (x : tensor R) : tensor R :=
  if training self
  then Tensor (shape x)
         (fun idx => if bernoulli self idx then data x idx / (1 - Q2R (p self)) else 0)
  else x.

Definition eval (self : t) : t := Make (p self) false (bernoulli self).
End Dropout.

(** ** nn.Linear *)
Module Linear.
Record t : Type := Make {
  in_features : nat;
  out_features : nat;
  weight : tensor R;      (* shape (out_features, in_features) *)
  bias : tensor R         (* shape (out_features) *)
}.

Definition init (in_features out_features : Z) : build t :=
  run w <- random_tensor "Linear.weight" [out_features; in_features];
  run b <- random_tensor "Linear.bias" [out_features];
  bret (Make (Z.to_nat in_features) (Z.to_nat out_features) w b).

(** [x @ weight.T + bias] over the last dimension of [x]. *)
Definition forward (self : t) (x : tensor R) : result (tensor R) :=
  match shape x with
  | [] => raise RuntimeError
  | _ =>
      if (last_dim (shape x) =? in_features self)%nat then
        ok (Tensor (but_last (shape x) ++ [out_features self])
              (fun idx =>
                 sum_n (in_features self)
                   (fun i => data x (with_last idx i)
                             * data (weight self) [last_dim idx; i])
                 + data (bias self) [last_dim idx]))
      else raise RuntimeError
  end.

Definition xavier_uniform_ (self : t) : build t :=
  run w <- redraw (weight self);
  bret (Make (in_features self) (out_features self) w (bias self)).
End Linear.

(** ** InputEmbedding *)
Module InputEmbedding.
Record t : Type := Make {
  d_model : Z;
  vocab_size : Z;
  embedding : tensor R    (* nn.Embedding(vocab_size, d_model).weight *)
}.

Definition init (d_model vocab_size : Z) : build t :=
  run w <- random_tensor "Embedding.weight" [vocab_size; d_model];
  bret (Make d_model vocab_size w).

Definition xavier_uniform_ (self : t) : build t :=
  run w <- redraw (embedding self);
  bret (Make (d_model self) (vocab_size self) w).

(** [self.embedding(x) * math.sqrt(self.d_model)]; [math.sqrt] of a
    negative number is a [ValueError]. *)
Definition forward (self : t) (x : tensor Z) : result (tensor R) :=
  do e <- F_embedding x (embedding self);
  do c <- (if (d_model self <? 0)%Z then raise ValueError
           else ok (sqrt (IZR (d_model self))));
  ok (tmap (fun a => a * c) e).
End InputEmbedding.

(** ** LayerNorm *)
Module LayerNorm.
Record t : Type := Make {
  eps : R;
  alpha : tensor R;       (* nn.Parameter(torch.ones(1)) *)
  gamma : tensor R        (* nn.Parameter(torch.zeros(1)) *)
}.

Definition default_eps : R := 1e-6.

Definition init (eps : R) : build t :=
  run a <- created "LayerNorm.alpha" [1%Z] (Tensor [1%nat] (fun _ => 1));
  run g <- created "LayerNorm.gamma" [1%Z] (Tensor [1%nat] (fun _ => 0));
  bret (Make eps a g).

(** [alpha] and [gamma] have one entry and [mean], [std] keep a last
    dimension of size one: all four are broadcast over the features. *)
Definition forward (self : t) (x : tensor R) : tensor R :=
  let mean := mean_last x in
  let std := std_last x in
  Tensor (shape x)
    (fun idx =>
       data (alpha self) [0%nat] * (data x idx - data mean (with_last idx 0))
       / (data std (with_last idx 0) + eps self)
       + data (gamma self) [0%nat]).
End LayerNorm.

(** ** FeedForwardBlock *)
Module FeedForwardBlock.
Record t : Type := Make {
  Linear_1 : Linear.t;
  dropout : Dropout.t;
  Linear_2 : Linear.t
}.

Definition init (d_model d_ff : Z) (dropout : Q) : build t :=
  run l1 <- Linear.init d_model d_ff;
  run d <- Dropout.init dropout;
  run l2 <- Linear.init d_ff d_model;
  bret (Make l1 d l2).

Definition relu (x : tensor R) : tensor R := tmap (fun a => Rmax a 0) x.

Definition forward (self : t) (x : tensor R) : result (tensor R) :=
  do a <- Linear.forward (Linear_1 self) x;
  Linear.forward (Linear_2 self) (Dropout.forward (dropout self) (relu a)).

Definition xavier_uniform_ (self : t) : build t :=
  run l1 <- Linear.xavier_uniform_ (Linear_1 self);
  run l2 <- Linear.xavier_uniform_ (Linear_2 self);
  bret (Make l1 (dropout self) l2).
End FeedForwardBlock.

(** ** torch.nn.Module: attributes, buffers and submodules of an instance

    What [__setattr__], [__getattr__] and [register_buffer] of
    [torch.nn.Module] do with an instance, for the kinds of values that
    [PositionalEncoding] stores. *)
Module nn_Module.
Inductive pyval : Type :=
| VInt (z : Z)
| VTensor (t : tensor R)
| VDropout (d : Dropout.t).

Record t : Type := Make {
  dict : gmap string pyval;        (* the instance __dict__ *)
  parameters : gmap string pyval;  (* _parameters *)
  buffers : gmap string pyval;     (* _buffers *)
  modules : gmap string pyval      (* _modules *)
}.

(** [super().__init__()] *)
Definition empty : t := Make ∅ ∅ ∅ ∅.

Definition is_key (name : string) (m : gmap string pyval) : bool :=
  match m !! name with
  | Some _ => true
  | None => false
  end.

Definition hasattr (self : t) (name : string) : bool :=
  is_key name (dict self) || is_key name (parameters self)
  || is_key name (buffers self) || is_key name (modules self).

Definition getattr (self : t) (name : string) : result pyval :=
  match dict self !! name with
  | Some v => ok v
  | None =>
      match parameters self !! name with
      | Some v => ok v
      | None =>
          match buffers self !! name with
          | Some v => ok v
          | None =>
              match modules self !! name with
              | Some v => ok v
              | None => raise AttributeError
              end
          end
      end
  end.

(** [self.name = value] *)
Definition setattr (self : t) (name : string) (value : pyval) : result t :=
  if is_key name (parameters self) then raise TypeError
  else match value with
       | VDropout _ =>
           ok (Make (delete name (dict self)) (parameters self)
                 (delete name (buffers self)) (<[name := value]> (modules self)))
       | _ =>
           if is_key name (modules self) then raise TypeError
           else if is_key name (buffers self) then
             match value with
             | VTensor _ =>
                 ok (Make (dict self) (parameters self)
                       (<[name := value]> (buffers self)) (modules self))
             | _ => raise TypeError
             end
           else ok (Make (<[name := value]> (dict self)) (parameters self)
                      (buffers self) (modules self))
       end.

Fixpoint has_dot (name : string) : bool :=
  match name with
  | EmptyString => false
  | String c rest => if Ascii.eqb c "."%char then true else has_dot rest
  end.

(** [self.register_buffer(name, tensor)] *)
Definition register_buffer (self : t) (name : string) (value : pyval) : result t :=
  if has_dot name then raise KeyError
  else if String.eqb name "" then raise KeyError
  else if hasattr self name && negb (is_key name (buffers self)) then raise KeyError
  else match value with
       | VTensor _ =>
           ok (Make (dict self) (parameters self)
                 (<[name := value]> (buffers self)) (modules self))
       | _ => raise TypeError
       end.

Definition get_tensor (self : t) (name : string) : result (tensor R) :=
  do v <- getattr self name;
  match v with
  | VTensor x => ok x
  | _ => raise TypeError
  end.

(** An in-place update of the tensor object bound to [name]: the
    attribute or buffer keeps its binding, the object changes. *)
Definition update_tensor (self : t) (name : string)
    (f : tensor R -> result (tensor R)) : result t :=
  match dict self !! name with
  | Some (VTensor x) =>
      do y <- f x;
      ok (Make (<[name := VTensor y]> (dict self)) (parameters self)
            (buffers self) (modules self))
  | Some _ => raise TypeError
  | None =>
      match buffers self !! name with
      | Some (VTensor x) =>
          do y <- f x;
          ok (Make (dict self) (parameters self)
                (<[name := VTensor y]> (buffers self)) (modules self))
      | Some _ => raise TypeError
      | None => raise AttributeError
      end
  end.
End nn_Module.

(** ** PositionalEncoding *)
Module PositionalEncoding.
Import nn_Module.

Definition zeros (s : list nat) : tensor R := Tensor s (fun _ => 0).

(** Lines 17 to 31 of [__init__]: the instance once the table is
    filled in. *)
Definition init_table (d_model seq_length : Z) (dropout : Q) : build nn_Module.t :=
  let self := nn_Module.empty in
  run self <- blift (setattr self "d_model" (VInt d_model));
  run self <- blift (setattr self "seq_length" (VInt seq_length));
  run d <- Dropout.init dropout;
  run self <- blift (setattr self "dropout" (VDropout d));
  run pe <- created "torch.zeros" [seq_length; d_model]
              (zeros [Z.to_nat seq_length; Z.to_nat d_model]);
  run self <- blift (setattr self "pe" (VTensor pe));
  run position <- created "torch.arange" [seq_length] (arange (Z.to_nat seq_length) 1);
  let position := unsqueeze_1 position in
  run evens <- created "torch.arange" [((d_model + 1) / 2)%Z] (arange (Z.to_nat d_model) 2);
  run c <- (if (d_model =? 0)%Z then bfail ZeroDivisionError
            else bret (- ln 10000 / IZR d_model));
  let div_term := tmap exp (tmap (fun a => a * c) evens) in
  run angle <- blift (binop Rmult position div_term);
  run self <- blift (update_tensor self "pe" (fun pe => setitem_cols 0 pe (tmap sin angle)));
  run angle <- blift (binop Rmult position div_term);
  run self <- blift (update_tensor self "pe" (fun pe => setitem_cols 1 pe (tmap cos angle)));
  bret self.

Definition init (d_model seq_length : Z) (dropout : Q) : build nn_Module.t :=
  run self <- init_table d_model seq_length dropout;
  run pe <- blift (get_tensor self "pe");
  run self <- blift (setattr self "pe" (VTensor (unsqueeze_0 pe)));
  run pe <- blift (getattr self "pe");
  run self <- blift (register_buffer self "pe" pe);
  bret self.

(** [x + self.pe[:, :x.shape[1], :]], then [self.dropout]. *)
Definition forward (self : nn_Module.t) (x : tensor R) : result (tensor R) :=
  do pe <- get_tensor self "pe";
  do n <- shape_at x 1;
  do pe <- slice_1 n pe;
  do x <- binop Rplus x pe;
  do dropout <- getattr self "dropout";
  match dropout with
  | VDropout d => ok (Dropout.forward d x)
  | _ => raise TypeError
  end.
End PositionalEncoding.

(** ** MultiAttentionBlock *)
Module MultiAttentionBlock.
Record t : Type := Make {
  d_model : Z;
  h : Z;
  d_k : Z;
  w_q : Linear.t;
  w_k : Linear.t;
  w_v : Linear.t;
  w_o : Linear.t;
  dropout : Dropout.t
}.

Definition init (d_model h : Z) (dropout : Q) : build t :=
  if (h =? 0)%Z then bfail ZeroDivisionError
  else if negb (d_model mod h =? 0)%Z then bfail AssertionError
  else
    let d_k := (d_model / h)%Z in
    run w_q <- Linear.init d_model d_model;
    run w_k <- Linear.init d_model d_model;
    run w_v <- Linear.init d_model d_model;
    run w_o <- Linear.init d_model d_model;
    run d <- Dropout.init dropout;
    bret (Make d_model h d_k w_q w_k w_v w_o d).

(** The fill of masked scores. *)
Definition fill : R := -1e9.

(** Lines 78 and 79: [(query @ key.transpose(-2, -1)) / math.sqrt(d_k)]. *)
Definition scores (query key : tensor R) : result (tensor R) :=
  do d_k <- (match shape query with
             | [] => raise IndexError
             | s => ok (last_dim s)
             end);
  do key_t <- transpose (-2) (-1) key;
  do qk <- matmul query key_t;
  ok (tmap (fun a => a / sqrt (INR d_k)) qk).

Definition attention (query key value : tensor R) (mask : option (tensor Z))
    (dropout : option Dropout.t) : result (tensor R * tensor R) :=
  do attention_score <- scores query key;
  do attention_score <- (match mask with
                         | Some m => masked_fill attention_score (eq_zero m) fill
                         | None => ok attention_score
                         end);
  let attention_score := softmax attention_score in
  let attention_score := match dropout with
                         | Some d => Dropout.forward d attention_score
                         | None => attention_score
                         end in
  do x <- matmul attention_score value;
  ok (x, attention_score).

(** [t.view(t.shape[0], t.shape[1], h, d_k)]; a negative size is not a
    size. *)
Definition split_heads (self : t) (x : tensor R) : result (tensor R) :=
  do b <- shape_at x 0;
  do s <- shape_at x 1;
  do x <- (if ((0 <=? h self) && (0 <=? d_k self))%Z
           then view [b; s; Z.to_nat (h self); Z.to_nat (d_k self)] x
           else raise RuntimeError);
  transpose 1 2 x.

Definition forward (self : t) (q k v : tensor R) (mask : option (tensor Z))
    : result (tensor R) :=
  do query <- Linear.forward (w_q self) q;
  do key <- Linear.forward (w_k self) k;
  do value <- Linear.forward (w_v self) v;
  do query <- split_heads self query;
  do key <- split_heads self key;
  do value <- split_heads self value;
  do '(x, attention_score) <- attention query key value mask (Some (dropout self));
  Linear.forward (w_o self) x.

Definition xavier_uniform_ (self : t) : build t :=
  run q <- Linear.xavier_uniform_ (w_q self);
  run k <- Linear.xavier_uniform_ (w_k self);
  run v <- Linear.xavier_uniform_ (w_v self);
  run o <- Linear.xavier_uniform_ (w_o self);
  bret (Make (d_model self) (h self) (d_k self) q k v o (dropout self)).
End MultiAttentionBlock.

(** ** Tensors as objects: storage, views and in-place updates

    [attention] again, this time on tensor objects in a store.  A tensor
    object is a storage cell seen through a list of transpositions
    ([t.transpose] returns a view of the same storage); every other
    operation allocates a fresh cell, and [masked_fill_] writes into the
    storage of the tensor it is called on. *)
Module Store.
Abbreviation loc := positive.

Inductive cell : Type :=
| CFloat (t : tensor R)
| CInt (t : tensor Z)
| CBool (t : tensor bool).

Abbreviation store := (gmap positive cell).

Record ref : Type := Ref {
  storage : loc;
  swaps : list (nat * nat)     (* the view, innermost transposition first *)
}.

(** An exception leaves the store as it was when it was raised. *)
Definition st (A : Type) : Type := store -> store * result A.

Definition sret {A} (a : A) : st A := fun σ => (σ, ok a).
Definition slift {A} (r : result A) : st A := fun σ => (σ, r).
Definition sbind {A B} (m : st A) (f : A -> st B) : st B :=
  fun σ =>
    match m σ with
    | (σ', inl e) => (σ', inl e)
    | (σ', inr a) => f a σ'
    end.

Notation "'let*' x := m 'in' k" := (sbind m (fun x => k))
  (at level 10, x name, m at level 100, k at level 200).

Definition through {A} (sw : list (nat * nat)) (t : tensor A) : tensor A :=
  fold_left (fun t '(i, j) => swap_dims i j t) sw t.

(** Undoing a view: a transposition is its own inverse. *)
Definition back {A} (sw : list (nat * nat)) (t : tensor A) : tensor A :=
  through (rev sw) t.

Definition alloc (c : cell) : st ref :=
  fun σ => let l := fresh (dom σ) in (<[l := c]> σ, ok (Ref l [])).

Definition read (r : ref) : st (tensor R) :=
  fun σ => match σ !! storage r with
           | Some (CFloat t) => (σ, ok (through (swaps r) t))
           | _ => (σ, raise TypeError)
           end.

Definition read_int (r : ref) : st (tensor Z) :=
  fun σ => match σ !! storage r with
           | Some (CInt t) => (σ, ok (through (swaps r) t))
           | _ => (σ, raise TypeError)
           end.

Definition read_bool (r : ref) : st (tensor bool) :=
  fun σ => match σ !! storage r with
           | Some (CBool t) => (σ, ok (through (swaps r) t))
           | _ => (σ, raise TypeError)
           end.

(** Writing the tensor [t] through the view [r]. *)
Definition write (r : ref) (t : tensor R) : st unit :=
  fun σ => (<[storage r := CFloat (back (swaps r) t)]> σ, ok tt).

Definition transpose_ref (dim0 dim1 : Z) (r : ref) : st ref :=
  let* t := read r in
  let* d0 := slift (resolve_dim (rank t) dim0) in
  let* d1 := slift (resolve_dim (rank t) dim1) in
  sret (Ref (storage r) (swaps r ++ [(d0, d1)])).

Definition matmul_ref (a b : ref) : st ref :=
  let* x := read a in
  let* y := read b in
  let* z := slift (matmul x y) in
  alloc (CFloat z).

Definition div_ref (a : ref) (c : R) : st ref :=
  let* x := read a in
  alloc (CFloat (tmap (fun v => v / c) x)).

Definition eq_zero_ref (m : ref) : st ref :=
  let* x := read_int m in
  alloc (CBool (eq_zero x)).

(** [t.masked_fill_(mask, value)] returns [t] itself. *)
Definition masked_fill_ (t mask : ref) (value : R) : st ref :=
  let* x := read t in
  let* m := read_bool mask in
  let* y := slift (masked_fill x m value) in
  let* _ := write t y in
  sret t.

Definition softmax_ref (a : ref) : st ref :=
  let* x := read a in
  alloc (CFloat (softmax x)).

(** [nn.Dropout.forward]: in evaluation mode the input itself. *)
Definition dropout_ref (d : Dropout.t) (a : ref) : st ref :=
  if Dropout.training d then
    let* x := read a in
    alloc (CFloat (Dropout.forward d x))
  else sret a.

Definition attention (query key value : ref) (mask : option ref)
    (dropout : option Dropout.t) : st (ref * ref) :=
  let* q := read query in
  let* d_k := slift (match shape q with
                     | [] => raise IndexError
                     | s => ok (last_dim s)
                     end) in
  let* key_t := transpose_ref (-2) (-1) key in
  let* qk := matmul_ref query key_t in
  let* attention_score := div_ref qk (sqrt (INR d_k)) in
  let* attention_score := (match mask with
                           | Some m =>
                               let* z := eq_zero_ref m in
                               masked_fill_ attention_score z MultiAttentionBlock.fill
                           | None => sret attention_score
                           end) in
  let* attention_score := softmax_ref attention_score in
  let* attention_score := (match dropout with
                           | Some d => dropout_ref d attention_score
                           | None => sret attention_score
                           end) in
  let* x := matmul_ref attention_score value in
  sret (x, attention_score).
End Store.

(** ** The blocks

    The forward methods of the blocks only combine the forward methods of
    their parts.  They are written over the interface [Backend]: [T] is
    the type of activations, [M] the type of masks, and [Norm], [Drop],
    [Attn], [FF] the types of the submodules. *)
Class Backend (T M Norm Drop Attn FF : Type) : Type := {
  add : T -> T -> result T;                          (* x + y *)
  norm_forward : Norm -> T -> result T;              (* LayerNorm.forward *)
  dropout_forward : Drop -> T -> result T;           (* nn.Dropout.forward *)
  attention_forward : Attn -> T -> T -> T -> M -> result T;
                                                     (* MultiAttentionBlock.forward(q, k, v, mask) *)
  ffn_forward : FF -> T -> result T                  (* FeedForwardBlock.forward *)
}.

(** [l[i]] on a [nn.ModuleList] *)
Definition item {X} (l : list X) (i : nat) : result X :=
  match l !! i with
  | Some x => ok x
  | None => raise IndexError
  end.

Module ResidualConnection.
Record t (Norm Drop : Type) : Type := Make {
  norm : Norm;
  dropout : Drop
}.
Arguments Make {Norm Drop} norm dropout.
Arguments norm {Norm Drop} _.
Arguments dropout {Norm Drop} _.

Definition init (dropout : Q) : build (t LayerNorm.t Dropout.t) :=
  run n <- LayerNorm.init LayerNorm.default_eps;
  run d <- Dropout.init dropout;
  bret (Make n d).

Definition forward `{B : Backend T M Norm Drop Attn FF}
    (self : t Norm Drop) (x : T) (sublayer : T -> result T) : result T :=
  do n <- norm_forward (norm self) x;
  do s <- sublayer n;
  do d <- dropout_forward (dropout self) s;
  add x d.
End ResidualConnection.

Module EncoderBlock.
Record t (Norm Drop Attn FF : Type) : Type := Make {
  multi_head_attention : Attn;
  feedforward : FF;
  residual : list (ResidualConnection.t Norm Drop)
}.
Arguments Make {Norm Drop Attn FF} multi_head_attention feedforward residual.
Arguments multi_head_attention {Norm Drop Attn FF} _.
Arguments feedforward {Norm Drop Attn FF} _.
Arguments residual {Norm Drop Attn FF} _.

Definition init (multi_head_attention : MultiAttentionBlock.t)
    (feed_forward_block : FeedForwardBlock.t) (dropout : Q)
    : build (t LayerNorm.t Dropout.t MultiAttentionBlock.t FeedForwardBlock.t) :=
  run r <- repeatM 2 (ResidualConnection.init dropout);
  bret (Make multi_head_attention feed_forward_block r).

Definition forward `{B : Backend T M Norm Drop Attn FF}
    (self : t Norm Drop Attn FF) (x : T) (src_mask : M) : result T :=
  do r0 <- item (residual self) 0;
  do x <- ResidualConnection.forward r0 x
            (fun x => attention_forward (multi_head_attention self) x x x src_mask);
  do r1 <- item (residual self) 1;
  do x <- ResidualConnection.forward r1 x (ffn_forward (feedforward self));
  ok x.
End EncoderBlock.

Module Encoder.
Record t (Norm Drop Attn FF : Type) : Type := Make {
  layers : list (EncoderBlock.t Norm Drop Attn FF);
  norm : Norm
}.
Arguments Make {Norm Drop Attn FF} layers norm.
Arguments layers {Norm Drop Attn FF} _.
Arguments norm {Norm Drop Attn FF} _.

Definition init (layers : list (EncoderBlock.t LayerNorm.t Dropout.t
                                  MultiAttentionBlock.t FeedForwardBlock.t))
    : build (t LayerNorm.t Dropout.t MultiAttentionBlock.t FeedForwardBlock.t) :=
  run n <- LayerNorm.init LayerNorm.default_eps;
  bret (Make layers n).

Fixpoint loop `{B : Backend T M Norm Drop Attn FF}
    (layers : list (EncoderBlock.t Norm Drop Attn FF)) (x : T) (mask : M) : result T :=
  match layers with
  | [] => ok x
  | layer :: rest =>
      do x <- EncoderBlock.forward layer x mask;
      loop rest x mask
  end.

Definition forward `{B : Backend T M Norm Drop Attn FF}
    (self : t Norm Drop Attn FF) (x : T) (mask : M) : result T :=
  do x <- loop (layers self) x mask;
  norm_forward (norm self) x.
End Encoder.

Module DecoderBlock.
Record t (Norm Drop Attn FF : Type) : Type := Make {
  feed_forward : FF;
  self_attention : Attn;
  cross_attention : Attn;
  residual : list (ResidualConnection.t Norm Drop)
}.
Arguments Make {Norm Drop Attn FF} feed_forward self_attention cross_attention residual.
Arguments feed_forward {Norm Drop Attn FF} _.
Arguments self_attention {Norm Drop Attn FF} _.
Arguments cross_attention {Norm Drop Attn FF} _.
Arguments residual {Norm Drop Attn FF} _.

Definition init (self_attention cross_attention : MultiAttentionBlock.t)
    (feed_forward : FeedForwardBlock.t) (dropout : Q)
    : build (t LayerNorm.t Dropout.t MultiAttentionBlock.t FeedForwardBlock.t) :=
  run r <- repeatM 3 (ResidualConnection.init dropout);
  bret (Make feed_forward self_attention cross_attention r).

(** [def forward(self, encoder_output, x, tgt_mask, src_mask)] *)
Definition forward `{B : Backend T M Norm Drop Attn FF}
    (self : t Norm Drop Attn FF) (encoder_output x : T) (tgt_mask src_mask : M)
    : result T :=
  do r0 <- item (residual self) 0;
  do x <- ResidualConnection.forward r0 x
            (fun x => attention_forward (self_attention self) x x x tgt_mask);
  do r1 <- item (residual self) 1;
  do x <- ResidualConnection.forward r1 x
            (fun x => attention_forward (cross_attention self)
                        encoder_output encoder_output x src_mask);
  do r2 <- item (residual self) 2;
  do x <- ResidualConnection.forward r2 x (ffn_forward (feed_forward self));
  ok x.
End DecoderBlock.

Module Decoder.
Record t (Norm Drop Attn FF : Type) : Type := Make {
  layers : list (DecoderBlock.t Norm Drop Attn FF);
  norm : Norm
}.
Arguments Make {Norm Drop Attn FF} layers norm.
Arguments layers {Norm Drop Attn FF} _.
Arguments norm {Norm Drop Attn FF} _.

Definition init (layers : list (DecoderBlock.t LayerNorm.t Dropout.t
                                  MultiAttentionBlock.t FeedForwardBlock.t))
    : build (t LayerNorm.t Dropout.t MultiAttentionBlock.t FeedForwardBlock.t) :=
  run n <- LayerNorm.init LayerNorm.default_eps;
  bret (Make layers n).

(** [for layer in self.layers: x = layer(x, encoder_output, src_mask, tgt_mask)]:
    the arguments are passed by position. *)
Fixpoint loop `{B : Backend T M Norm Drop Attn FF}
    (layers : list (DecoderBlock.t Norm Drop Attn FF))
    (x encoder_output : T) (src_mask tgt_mask : M) : result T :=
  match layers with
  | [] => ok x
  | layer :: rest =>
      do x <- DecoderBlock.forward layer x encoder_output src_mask tgt_mask;
      loop rest x encoder_output src_mask tgt_mask
  end.

(** [def forward(self, x, encoder_output, src_mask, tgt_mask)] *)
Definition forward `{B : Backend T M Norm Drop Attn FF}
    (self : t Norm Drop Attn FF) (x encoder_output : T) (src_mask tgt_mask : M)
    : result T :=
  do x <- loop (layers self) x encoder_output src_mask tgt_mask;
  norm_forward (norm self) x.
End Decoder.

(** The blocks on torch tensors. *)
#[export] Instance torch_backend
  : Backend (tensor R) (option (tensor Z))
      LayerNorm.t Dropout.t MultiAttentionBlock.t FeedForwardBlock.t := {|
  add := binop Rplus;
  norm_forward := fun n x => ok (LayerNorm.forward n x);
  dropout_forward := fun d x => ok (Dropout.forward d x);
  attention_forward := MultiAttentionBlock.forward;
  ffn_forward := FeedForwardBlock.forward
|}.

(** The blocks on symbolic activations: a term records which operation
    was applied to which arguments.  Submodules and masks are named. *)
Module Trace.
Inductive term : Type :=
| Input (name : string)
| Plus (a b : term)
| LayerNormOf (a : term)
| DropoutOf (a : term)
| Attention (block : string) (q k v : term) (mask : string)
| FeedForwardOf (block : string) (a : term).

#[export] Instance backend : Backend term string unit unit string string := {|
  add := fun a b => ok (Plus a b);
  norm_forward := fun _ a => ok (LayerNormOf a);
  dropout_forward := fun _ a => ok (DropoutOf a);
  attention_forward := fun block q k v mask => ok (Attention block q k v mask);
  ffn_forward := fun block a => ok (FeedForwardOf block a)
|}.

Definition residuals (n : nat) : list (ResidualConnection.t unit unit) :=
  repeat (ResidualConnection.Make tt tt) n.

(** A decoder block whose three sublayers are named. *)
Definition block : DecoderBlock.t unit unit string string :=
  DecoderBlock.Make "feed_forward" "self_attention" "cross_attention" (residuals 3).

Definition decoder (n : nat) : Decoder.t unit unit string string :=
  Decoder.Make (repeat block n) tt.
End Trace.

(** ** ProjectionLayer, Transformer and build_transformer *)
Module ProjectionLayer.
Record t : Type := Make { proj : Linear.t }.

Definition init (d_model vocab_size : Z) : build t :=
  run l <- Linear.init d_model vocab_size;
  bret (Make l).

Definition xavier_uniform_ (self : t) : build t :=
  run l <- Linear.xavier_uniform_ (proj self);
  bret (Make l).

(** [torch.log_softmax(self.proj(x), dim=-1)] *)
Definition forward (self : t) (x : tensor R) : result (tensor R) :=
  do y <- Linear.forward (proj self) x;
  ok (log_softmax y).
End ProjectionLayer.

Abbreviation encoder_block :=
  (EncoderBlock.t LayerNorm.t Dropout.t MultiAttentionBlock.t FeedForwardBlock.t).
Abbreviation decoder_block :=
  (DecoderBlock.t LayerNorm.t Dropout.t MultiAttentionBlock.t FeedForwardBlock.t).
Abbreviation encoder_stack :=
  (Encoder.t LayerNorm.t Dropout.t MultiAttentionBlock.t FeedForwardBlock.t).
Abbreviation decoder_stack :=
  (Decoder.t LayerNorm.t Dropout.t MultiAttentionBlock.t FeedForwardBlock.t).

Module Transformer.
Record t : Type := Make {
  encoder : encoder_stack;
  decoder : decoder_stack;
  src_emb : InputEmbedding.t;
  tgt_emb : InputEmbedding.t;
  src_pos : nn_Module.t;
  tgt_pos : nn_Module.t;
  projection : ProjectionLayer.t
}.

Definition encode (self : t) (src : tensor Z) (src_mask : option (tensor Z))
    : result (tensor R) :=
  do src <- InputEmbedding.forward (src_emb self) src;
  do src <- PositionalEncoding.forward (src_pos self) src;
  Encoder.forward (encoder self) src src_mask.

Definition decode (self : t) (encoder_output : tensor R) (src_mask : option (tensor Z))
    (tgt : tensor Z) (tgt_mask : option (tensor Z)) : result (tensor R) :=
  do tgt <- InputEmbedding.forward (tgt_emb self) tgt;
  do tgt <- PositionalEncoding.forward (tgt_pos self) tgt;
  Decoder.forward (decoder self) tgt encoder_output src_mask tgt_mask.

Definition project (self : t) (x : tensor R) : result (tensor R) :=
  ProjectionLayer.forward (projection self) x.
End Transformer.

(** [nn.init.xavier_uniform_(p)] for the parameters [p] with
    [p.dim() > 1]: the weights of the linear layers and of the
    embeddings, in the order of [transformer.parameters()]. *)
Definition xavier_encoder_block (b : encoder_block) : build encoder_block :=
  run a <- MultiAttentionBlock.xavier_uniform_ (EncoderBlock.multi_head_attention b);
  run f <- FeedForwardBlock.xavier_uniform_ (EncoderBlock.feedforward b);
  bret (EncoderBlock.Make a f (EncoderBlock.residual b)).

Definition xavier_decoder_block (b : decoder_block) : build decoder_block :=
  run f <- FeedForwardBlock.xavier_uniform_ (DecoderBlock.feed_forward b);
  run s <- MultiAttentionBlock.xavier_uniform_ (DecoderBlock.self_attention b);
  run c <- MultiAttentionBlock.xavier_uniform_ (DecoderBlock.cross_attention b);
  bret (DecoderBlock.Make f s c (DecoderBlock.residual b)).

Definition xavier_transformer (m : Transformer.t) : build Transformer.t :=
  run el <- mapM_build xavier_encoder_block (Encoder.layers (Transformer.encoder m));
  run dl <- mapM_build xavier_decoder_block (Decoder.layers (Transformer.decoder m));
  run se <- InputEmbedding.xavier_uniform_ (Transformer.src_emb m);
  run te <- InputEmbedding.xavier_uniform_ (Transformer.tgt_emb m);
  run pr <- ProjectionLayer.xavier_uniform_ (Transformer.projection m);
  bret (Transformer.Make
          (Encoder.Make el (Encoder.norm (Transformer.encoder m)))
          (Decoder.Make dl (Decoder.norm (Transformer.decoder m)))
          se te (Transformer.src_pos m) (Transformer.tgt_pos m) pr).

(** Lines 205 to 210. *)
Definition encoder_blocks (d_model N h : Z) (dropout : Q) (d_ff : Z)
  : build (list encoder_block) :=
  repeatM (Z.to_nat N)
    (run encoder_self_attention_block <- MultiAttentionBlock.init d_model h dropout;
     run feed_forward_block <- FeedForwardBlock.init d_model d_ff dropout;
     EncoderBlock.init encoder_self_attention_block feed_forward_block dropout).

(** Lines 213 to 219. *)
Definition decoder_blocks (d_model N h : Z) (dropout : Q) (d_ff : Z)
  : build (list decoder_block) :=
  repeatM (Z.to_nat N)
    (run decoder_self_attention_block <- MultiAttentionBlock.init d_model h dropout;
     run decoder_cross_attention_block <- MultiAttentionBlock.init d_model h dropout;
     run feed_forward_block <- FeedForwardBlock.init d_model d_ff dropout;
     DecoderBlock.init decoder_self_attention_block decoder_cross_attention_block
       feed_forward_block dropout).

Definition build_transformer
    (src_vocab_size tgt_vocab_size src_seq_len tgt_seq_len d_model N h : Z)
    (dropout : Q) (d_ff : Z) : build Transformer.t :=
  run src_embed <- InputEmbedding.init d_model src_vocab_size;
  run tgt_embed <- InputEmbedding.init d_model tgt_vocab_size;
  run src_pos <- PositionalEncoding.init d_model src_seq_len dropout;
  run tgt_pos <- PositionalEncoding.init d_model tgt_seq_len dropout;
  run encoder_blocks <- encoder_blocks d_model N h dropout d_ff;
  run decoder_blocks <- decoder_blocks d_model N h dropout d_ff;
  run encoder <- Encoder.init encoder_blocks;
  run decoder <- Decoder.init decoder_blocks;
  run projection_layer <- ProjectionLayer.init d_model tgt_vocab_size;
  let transformer :=
    Transformer.Make encoder decoder src_embed tgt_embed src_pos tgt_pos projection_layer in
  xavier_transformer transformer.

(** * What the claims speak about *)

(** ** Construction *)

(** The default arguments of [build_transformer]. *)
Definition default_d_model : Z := 512.
Definition default_N : Z := 6.
Definition default_h : Z := 8.
Definition default_dropout : Q := 1 # 10.
Definition default_d_ff : Z := 2048.

Definition start (source : nat -> list nat -> R) (coins : nat -> list nat -> bool)
  : build_state := BuildState [] source coins 0.

(** A build state to run examples from: every random draw is zero and
    every dropout coin keeps its entry. *)
Definition zero_source : nat -> list nat -> R := fun _ _ => 0.
Definition all_kept : nat -> list nat -> bool := fun _ _ => true.
Definition st0 : build_state := start zero_source all_kept.

(** A computation that never returns a value. *)
Definition raises {A} (m : build A) : Prop :=
  forall st, exists st' e, m st = (st', inl e).

(** Construction only ever adds to the log. *)
Definition extends {A} (m : build A) : Prop :=
  forall st st' r, m st = (st', r) -> exists l, log st' = log st ++ l.

(** [pos / 10000^(2i/d_model)], as the paper writes the angle. *)
Definition angle (d_model : Z) (pos i : nat) : R :=
  INR pos / Rpower 10000 (INR (2 * i) / IZR d_model).

(** ** LayerNorm *)

(** As the specification words it: the standard deviation of the
    population, the sum of squares divided by [n]. *)
Definition population_std_last (t : tensor R) : tensor R :=
  let n := last_dim (shape t) in
  Tensor (but_last (shape t) ++ [1%nat])
    (fun idx =>
       let mu := data (mean_last t) idx in
       sqrt (sum_n n (fun j => (data t (with_last idx j) - mu) ^ 2) / INR n)).

Definition LayerNorm_forward_population (self : LayerNorm.t) (x : tensor R) : tensor R :=
  Tensor (shape x)
    (fun idx =>
       data (LayerNorm.alpha self) [0%nat]
       * (data x idx - data (mean_last x) (with_last idx 0))
       / (data (population_std_last x) (with_last idx 0) + LayerNorm.eps self)
       + data (LayerNorm.gamma self) [0%nat]).

Definition default_LayerNorm : LayerNorm.t :=
  LayerNorm.Make LayerNorm.default_eps (Tensor [1%nat] (fun _ => 1)) (Tensor [1%nat] (fun _ => 0)).

(** The vector [0, 2]. *)
Definition vector_0_2 : tensor R :=
  Tensor [2%nat] (fun idx => match idx with [O] => 0 | _ => 2 end).

(** ** Attention and masks *)

(** Every entry of the mask is one. *)
Definition all_ones (mask : tensor Z) : Prop :=
  forall idx, in_range (shape mask) idx -> data mask idx = 1%Z.

(** The mask can be broadcast to the attention scores of [query] and
    [key]. *)
Definition mask_fits (mask : tensor Z) (query key : tensor R) : Prop :=
  forall s, MultiAttentionBlock.scores query key = inr s ->
    broadcast_shapes (shape mask) (shape s) = Some (shape s).

(** Two calls end the same way: with the same exception, or with
    results related by [P]. *)
Inductive same_outcome {A} (P : A -> A -> Prop) : result A -> result A -> Prop :=
| both_raise e : same_outcome P (inl e) (inl e)
| both_return a b : P a b -> same_outcome P (inr a) (inr b).

Definition same_pair (a b : tensor R * tensor R) : Prop :=
  tensor_eq a.1 b.1 /\ tensor_eq a.2 b.2.

(** The leading (batch) dimensions of a tensor of matrices. *)
Definition batch {A} (t : tensor A) : list nat := but_last (but_last (shape t)).

(** Row [i] of the mask, broadcast to [m] keys, shows position [i] and
    hides every later position. *)
Definition causal_row (mask : tensor Z) (i m : nat) : Prop :=
  (forall pre, data mask (bindex (shape mask) (pre ++ [i; i])) <> 0%Z)
  /\ (forall pre j, (i < j)%nat -> (j < m)%nat ->
        data mask (bindex (shape mask) (pre ++ [i; j])) = 0%Z).

(** Two queries and two keys of width one, for examples. *)
Definition query_ex : tensor R :=
  Tensor [2%nat; 1%nat] (fun idx => match idx with O :: _ => -2e9 | _ => 0 end).
Definition key_ex : tensor R :=
  Tensor [2%nat; 1%nat] (fun idx => match idx with O :: _ => 1 | _ => 0 end).
Definition value_ex : tensor R := Tensor [2%nat; 1%nat] (fun _ => 0).
Definition value_ex' : tensor R :=
  Tensor [2%nat; 1%nat] (fun idx => match idx with O :: _ => 0 | _ => 1 end).
Definition ones_mask : tensor Z := Tensor [2%nat; 2%nat] (fun _ => 1%Z).

(** [torch.tril(torch.ones(2, 2))]: position [i] sees the positions [j <= i]. *)
Definition causal_mask : tensor Z :=
  Tensor [2%nat; 2%nat]
    (fun idx => match idx with [i; j] => if (j <=? i)%nat then 1%Z else 0%Z | _ => 1%Z end).

(** ** Tensor objects in the store *)

(** Every tensor of [σ0] is still there, unchanged, in [σ]. *)
Definition preserves (σ0 σ : Store.store) : Prop :=
  forall l, is_Some (σ0 !! l) -> σ !! l = σ0 !! l.

(** The tensor [r] was allocated after [σ0]. *)
Definition newer (σ0 : Store.store) (r : Store.ref) : Prop :=
  σ0 !! Store.storage r = None.

(** [m] leaves the tensors of [σ0] alone and returns tensors satisfying [P]. *)
Definition framed {A} (σ0 : Store.store) (P : A -> Prop) (m : Store.st A) : Prop :=
  forall σ σ' r, preserves σ0 σ -> m σ = (σ', r) ->
    preserves σ0 σ' /\ forall a, r = inr a -> P a.

(** The tensor object [r] holds the float tensor [t] in [σ]. *)
Definition holds (σ : Store.store) (r : Store.ref) (t : tensor R) : Prop :=
  exists base, σ !! Store.storage r = Some (Store.CFloat base)
               /\ Store.through (Store.swaps r) base = t.

(** The mask argument and the mask tensor it holds, if any. *)
Definition holds_mask (σ : Store.store) (mask : option Store.ref) (tm : option (tensor Z))
  : Prop :=
  match mask, tm with
  | Some m, Some t => σ !! Store.storage m = Some (Store.CInt t) /\ Store.swaps m = []
  | None, None => True
  | _, _ => False
  end.

(** The outcome of the call on the store matches the outcome of the
    function: the same exception, or tensor objects holding the results. *)
Definition matches (σ' : Store.store) (r : result (Store.ref * Store.ref))
    (p : result (tensor R * tensor R)) : Prop :=
  match p, r with
  | inl e, inl e' => e' = e
  | inr (x, w), inr (rx, rw) => holds σ' rx x /\ holds σ' rw w
  | _, _ => False
  end.

(** A store holding the tensors of the examples. *)
Definition store_ex : Store.store :=
  <[4%positive := Store.CInt causal_mask]>
    (<[3%positive := Store.CFloat value_ex']>
       (<[2%positive := Store.CFloat key_ex]>
          (<[1%positive := Store.CFloat query_ex]> ∅))).

(** ** Multi-head attention: examples *)

(** A block with [h] heads whose weights are all zero, in evaluation
    mode. *)
Definition zero_linear (n : Z) : Linear.t :=
  Linear.Make (Z.to_nat n) (Z.to_nat n)
    (Tensor [Z.to_nat n; Z.to_nat n] (fun _ => 0)) (Tensor [Z.to_nat n] (fun _ => 0)).

Definition zero_block (d_model h : Z) : MultiAttentionBlock.t :=
  MultiAttentionBlock.Make d_model h (d_model / h)
    (zero_linear d_model) (zero_linear d_model) (zero_linear d_model) (zero_linear d_model)
    (Dropout.Make (1 # 10) false (fun _ => true)).

(** An input of shape (1, 3, d_model). *)
Definition input_ex (d_model : nat) : tensor R := Tensor [1%nat; 3%nat; d_model] (fun _ => 0).

(** ** The decoder: the wiring of the specification, and terms *)

(** As the specification words it: the decoder hands each block its
    running state as [x], the encoder output as [encoder_output], the
    target mask as [tgt_mask] and the source mask as [src_mask]. *)
Fixpoint Decoder_loop_by_role `{B : Backend T M Norm Drop Attn FF}
    (layers : list (DecoderBlock.t Norm Drop Attn FF))
    (x encoder_output : T) (src_mask tgt_mask : M) : result T :=
  match layers with
  | [] => ok x
  | layer :: rest =>
      do x <- DecoderBlock.forward layer encoder_output x tgt_mask src_mask;
      Decoder_loop_by_role rest x encoder_output src_mask tgt_mask
  end.

Definition Decoder_forward_by_role `{B : Backend T M Norm Drop Attn FF}
    (self : Decoder.t Norm Drop Attn FF) (x encoder_output : T) (src_mask tgt_mask : M)
    : result T :=
  do x <- Decoder_loop_by_role (Decoder.layers self) x encoder_output src_mask tgt_mask;
  norm_forward (Decoder.norm self) x.

(** As the specification words it: in the cross-attention sublayer the
    query is the decoder's representation, key and value are the encoder
    output. *)
Definition DecoderBlock_forward_as_specified `{B : Backend T M Norm Drop Attn FF}
    (self : DecoderBlock.t Norm Drop Attn FF) (encoder_output x : T) (tgt_mask src_mask : M)
    : result T :=
  do r0 <- item (DecoderBlock.residual self) 0;
  do x <- ResidualConnection.forward r0 x
            (fun x => attention_forward (DecoderBlock.self_attention self) x x x tgt_mask);
  do r1 <- item (DecoderBlock.residual self) 1;
  do x <- ResidualConnection.forward r1 x
            (fun x => attention_forward (DecoderBlock.cross_attention self)
                        x encoder_output encoder_output src_mask);
  do r2 <- item (DecoderBlock.residual self) 2;
  do x <- ResidualConnection.forward r2 x (ffn_forward (DecoderBlock.feed_forward self));
  ok x.

(** The residual sublayers of a decoder block, as terms. *)
Definition self_attention_sublayer (x : Trace.term) (mask : string) : Trace.term :=
  Trace.Plus x
    (Trace.DropoutOf
       (Trace.Attention "self_attention"
          (Trace.LayerNormOf x) (Trace.LayerNormOf x) (Trace.LayerNormOf x) mask)).

Definition cross_attention_sublayer (x q k v : Trace.term) (mask : string) : Trace.term :=
  Trace.Plus x (Trace.DropoutOf (Trace.Attention "cross_attention" q k v mask)).

Definition feed_forward_sublayer (x : Trace.term) : Trace.term :=
  Trace.Plus x (Trace.DropoutOf (Trace.FeedForwardOf "feed_forward" (Trace.LayerNormOf x))).

(** ** Predicates and examples for the further properties *)

(** No dropout is applied: there is no dropout module, or it is in
    evaluation mode. *)
Definition inactive (dropout : option Dropout.t) : Prop :=
  match dropout with
  | Some d => Dropout.training d = false
  | None => True
  end.

(** A mask that hides every position from query 0 and shows everything
    to query 1. *)
Definition hidden_row_mask : tensor Z :=
  Tensor [2%nat; 2%nat] (fun idx => match idx with O :: _ => 0%Z | _ => 1%Z end).

(** A key of width 2; the query of the examples has width 1. *)
Definition wide_key_ex : tensor R := Tensor [2%nat; 2%nat] (fun _ => 0).

(** A vector used as key. *)
Definition flat_key_ex : tensor R := Tensor [2%nat] (fun _ => 0).

(** An embedding of three tokens in two dimensions: token [t] is the
    vector [(t, t + 1)]. *)
Definition embedding_ex : InputEmbedding.t :=
  InputEmbedding.Make 2 3
    (Tensor [3%nat; 2%nat] (fun idx => match idx with [t; j] => INR (t + j) | _ => 0 end)).

(** The sentences [[0, 2]] and [[0, 3]]. *)
Definition tokens_ex : tensor Z :=
  Tensor [1%nat; 2%nat] (fun idx => match idx with [_; O] => 0%Z | _ => 2%Z end).
Definition tokens_ex' : tensor Z :=
  Tensor [1%nat; 2%nat] (fun idx => match idx with [_; O] => 0%Z | _ => 3%Z end).

(** A projection from two features to a vocabulary of three tokens. *)
Definition projection_ex : ProjectionLayer.t :=
  ProjectionLayer.Make
    (Linear.Make 2 3
       (Tensor [3%nat; 2%nat] (fun idx => match idx with [t; j] => INR (t + j) | _ => 0 end))
       (Tensor [3%nat] (fun _ => 0))).

(** A tensor of shape (1, 3, 4) whose entry at [(b, s, f)] is [10 s + f]. *)
Definition features_ex : tensor R :=
  Tensor [1%nat; 3%nat; 4%nat]
    (fun idx => match idx with [_; s; f] => INR (10 * s + f) | _ => 0 end).

(** A table of three rows of two entries. *)
Definition table_ex : tensor R :=
  Tensor [1%nat; 3%nat; 2%nat]
    (fun idx => match idx with [_; pos; i] => INR (10 * pos + i) | _ => 0 end).

(** A positional encoding of width 2 with the given table: the instance
    as it is after line 33, in evaluation mode. *)
Definition positional_ex (table : tensor R) : nn_Module.t :=
  nn_Module.Make
    (<["pe" := nn_Module.VTensor table]>
       (<["seq_length" := nn_Module.VInt 3]> (<["d_model" := nn_Module.VInt 2]> ∅)))
    ∅ ∅
    (<["dropout" := nn_Module.VDropout (Dropout.Make (1 # 10) false (fun _ => true))]> ∅).

(** An input of four positions. *)
Definition long_input_ex : tensor R := Tensor [1%nat; 4%nat; 2%nat] (fun _ => 0).

(** A table with a single row. *)
Definition one_row_table_ex : tensor R :=
  Tensor [1%nat; 1%nat; 2%nat] (fun idx => match idx with [_; _; i] => INR (5 + i) | _ => 0 end).

(** A residual connection in evaluation mode. *)
Definition residual_ex : ResidualConnection.t LayerNorm.t Dropout.t :=
  ResidualConnection.Make default_LayerNorm (Dropout.Make (1 # 10) false (fun _ => true)).

(** A model of width 2 with one head, one encoder block and one decoder
    block, all weights zero, in evaluation mode. *)
Definition zero_feed_forward (d : Z) : FeedForwardBlock.t :=
  FeedForwardBlock.Make (zero_linear d) (Dropout.Make (1 # 10) false (fun _ => true))
    (zero_linear d).

Definition encoder_block_ex : encoder_block :=
  EncoderBlock.Make (zero_block 2 1) (zero_feed_forward 2) [residual_ex; residual_ex].

Definition decoder_block_ex : decoder_block :=
  DecoderBlock.Make (zero_feed_forward 2) (zero_block 2 1) (zero_block 2 1)
    [residual_ex; residual_ex; residual_ex].

Definition transformer_ex : Transformer.t :=
  Transformer.Make
    (Encoder.Make [encoder_block_ex] default_LayerNorm)
    (Decoder.Make [decoder_block_ex] default_LayerNorm)
    embedding_ex embedding_ex (positional_ex table_ex) (positional_ex table_ex)
    projection_ex.

(** A sentence of one token and an encoder output of one position. *)
Definition token_ex : tensor Z := Tensor [1%nat; 1%nat] (fun _ => 0%Z).
Definition memory_ex : tensor R := Tensor [1%nat; 1%nat; 2%nat] (fun _ => 0).

(** * Verification *)

Import nn_Module.

(** ** The monads *)

Lemma rbind_ok {A B} (m : result A) (f : A -> result B) b :
  rbind m f = inr b -> exists a, m = inr a /\ f a = inr b.
Proof. destruct m as [e|a]; simpl; [discriminate | eauto]. Qed.

Lemma bbind_ok {A B} (m : build A) (f : A -> build B) st st' b :
  bbind m f st = (st', inr b) ->
  exists st1 a, m st = (st1, inr a) /\ f a st1 = (st', inr b).
Proof.
  unfold bbind. destruct (m st) as [st1 [e|a]]; [discriminate | eauto].
Qed.

Lemma blift_ok {A} (r : result A) st st' a :
  blift r st = (st', inr a) -> st' = st /\ r = inr a.
Proof. unfold blift. intros H. inversion H. auto. Qed.

Lemma raises_bind_left {A B} (m : build A) (f : A -> build B) :
  raises m -> raises (bbind m f).
Proof.
  intros H st. destruct (H st) as (st' & e & E). exists st', e.
  unfold bbind. now rewrite E.
Qed.

Lemma raises_bind_right {A B} (m : build A) (f : A -> build B) :
  (forall a, raises (f a)) -> raises (bbind m f).
Proof.
  intros H st. unfold bbind. destruct (m st) as [st1 [e|a]]; [eauto|].
  apply H.
Qed.

(** ** build_transformer never returns *)

Lemma is_key_empty name : is_key name ∅ = false.
Proof. unfold is_key. now rewrite lookup_empty. Qed.

Lemma setattr_buffers self name v self' :
  buffers self = ∅ -> setattr self name v = inr self' -> buffers self' = ∅.
Proof.
  intros Hb. unfold setattr. rewrite Hb, is_key_empty.
  destruct (is_key name (parameters self)); [discriminate|].
  destruct v; try (destruct (is_key name (modules self)); [discriminate|]);
    intros H; inversion H; subst; simpl; auto.
Qed.

Lemma update_tensor_buffers self name f self' :
  buffers self = ∅ -> update_tensor self name f = inr self' -> buffers self' = ∅.
Proof.
  intros Hb. unfold update_tensor. rewrite Hb, lookup_empty.
  destruct (dict self !! name) as [[]|]; try discriminate.
  intros H. apply rbind_ok in H as (y & _ & H). inversion H; subst. auto.
Qed.

Ltac build_inv :=
  repeat match goal with
  | H : bbind _ _ _ = (_, inr _) |- _ =>
      let a := fresh "a" in let st1 := fresh "st" in
      let H1 := fresh "H" in let H2 := fresh "H" in
      apply bbind_ok in H as (st1 & a & H1 & H2)
  | H : blift _ _ = (_, inr _) |- _ => apply blift_ok in H as [-> H]
  | H : bret _ _ = (_, inr _) |- _ => inversion H; subst; clear H
  end.

Lemma created_ok what dims t st st' a :
  created what dims t st = (st', inr a) ->
  a = t /\ log st' = log st ++ [TensorCreated what dims].
Proof.
  unfold created. destruct (forallb _ dims); intros H; inversion H; subst; auto.
Qed.

Lemma setattr_tensor_dict self name x self' :
  buffers self = ∅ -> setattr self name (VTensor x) = inr self' ->
  dict self' !! name = Some (VTensor x) /\ buffers self' = ∅.
Proof.
  intros Hb H. split; [|eapply setattr_buffers; eauto].
  revert H. unfold setattr. rewrite Hb, is_key_empty.
  destruct (is_key name (parameters self)); [discriminate|].
  destruct (is_key name (modules self)); [discriminate|].
  intros H; inversion H; subst; simpl. apply lookup_insert_eq.
Qed.

Lemma update_tensor_dict self name x f self' :
  dict self !! name = Some (VTensor x) -> update_tensor self name f = inr self' ->
  exists y, f x = inr y /\ dict self' !! name = Some (VTensor y).
Proof.
  intros Hd. unfold update_tensor. rewrite Hd. intros H.
  apply rbind_ok in H as (y & Hy & H). inversion H; subst; simpl.
  exists y. split; auto. apply lookup_insert_eq.
Qed.

(** After lines 17 to 31 the table is an ordinary attribute and no
    buffer is registered. *)
Lemma init_table_state d s p st st' self :
  PositionalEncoding.init_table d s p st = (st', inr self) ->
  buffers self = ∅ /\ exists pe, dict self !! "pe" = Some (VTensor pe).
Proof.
  unfold PositionalEncoding.init_table. intros H. build_inv.
  assert (B0 : buffers a = ∅) by (eapply setattr_buffers; eauto; reflexivity).
  assert (B1 : buffers a0 = ∅) by (eapply setattr_buffers; eauto).
  assert (B2 : buffers a2 = ∅) by (eapply setattr_buffers; eauto).
  destruct (setattr_tensor_dict _ _ _ _ B2 H4) as [D4 B4].
  destruct (update_tensor_dict _ _ _ _ _ D4 H9) as (y1 & _ & D9).
  assert (B9 : buffers a9 = ∅) by (eapply update_tensor_buffers; eauto).
  destruct (update_tensor_dict _ _ _ _ _ D9 H11) as (y2 & _ & D11).
  split; [eapply update_tensor_buffers; eauto | eauto].
Qed.

Lemma register_buffer_pe_raises self v :
  is_Some (dict self !! "pe") -> buffers self = ∅ ->
  register_buffer self "pe" v = inl KeyError.
Proof.
  intros [x Hx] Hb. unfold register_buffer, hasattr, is_key. simpl.
  rewrite Hx, Hb, lookup_empty. reflexivity.
Qed.

Lemma PositionalEncoding_init_raises d s p : raises (PositionalEncoding.init d s p).
Proof.
  intros st. unfold PositionalEncoding.init.
  destruct (PositionalEncoding.init_table d s p st) as [st1 [e|self]] eqn:E.
  - exists st1, e. unfold bbind. now rewrite E.
  - destruct (init_table_state _ _ _ _ _ _ E) as (Hb & pe & Hpe).
    unfold bbind at 1. rewrite E.
    unfold bbind, blift, get_tensor, getattr. rewrite Hpe. simpl.
    destruct (setattr self "pe" (VTensor (unsqueeze_0 pe))) as [e|self2] eqn:E2.
    + eauto.
    + destruct (setattr_tensor_dict _ _ _ _ Hb E2) as [D2 B2].
      rewrite D2. unfold ok. cbv iota beta.
      rewrite register_buffer_pe_raises; eauto.
Qed.

Lemma build_transformer_raises sv tv ssl tsl d N h p dff :
  raises (build_transformer sv tv ssl tsl d N h p dff).
Proof.
  unfold build_transformer.
  apply raises_bind_right; intros src_embed.
  apply raises_bind_right; intros tgt_embed.
  apply raises_bind_left, PositionalEncoding_init_raises.
Qed.

(** Claim C5.  The claim is that [build_transformer] completes and
    returns a model whenever [d_model % h == 0].  On the code it never
    does: for every configuration, divisible or not, the call ends with
    an exception.  At the default configuration, and whenever the
    positional table is built, the exception is the [KeyError] of
    [register_buffer] in [PositionalEncoding.__init__], called for [pe],
    which already is an attribute. *)
Theorem build_transformer_never_returns sv tv ssl tsl d N h p dff st :
  exists st' e, build_transformer sv tv ssl tsl d N h p dff st = (st', inl e).
Proof. apply build_transformer_raises. Qed.

Lemma build_transformer_default_raises_KeyError :
  snd (build_transformer 100 100 10 10 default_d_model default_N default_h
         default_dropout default_d_ff st0)
  = inl KeyError.
Proof. reflexivity. Qed.

Lemma PositionalEncoding_init_example :
  snd (PositionalEncoding.init 512 10 (1 # 10) st0) = inl KeyError.
Proof. reflexivity. Qed.

(** ** build_transformer: the divisibility check comes after the embeddings *)

Lemma extends_ret {A} (a : A) : extends (bret a).
Proof. intros st st' r H. inversion H. exists []. now rewrite app_nil_r. Qed.

Lemma extends_fail {A} e : extends (@bfail A e).
Proof. intros st st' r H. inversion H. exists []. now rewrite app_nil_r. Qed.

Lemma extends_lift {A} (x : result A) : extends (blift x).
Proof. intros st st' r H. inversion H. exists []. now rewrite app_nil_r. Qed.

Lemma extends_bind {A B} (m : build A) (f : A -> build B) :
  extends m -> (forall a, extends (f a)) -> extends (bbind m f).
Proof.
  intros Hm Hf st st' r. unfold bbind.
  destruct (m st) as [st1 [e|a]] eqn:E; intros H.
  - inversion H; subst. eapply Hm; eauto.
  - destruct (Hm _ _ _ E) as [l1 E1]. destruct (Hf a _ _ _ H) as [l2 E2].
    exists (l1 ++ l2). now rewrite E2, E1, app_assoc.
Qed.

Lemma extends_created what dims t : extends (created what dims t).
Proof.
  intros st st' r. unfold created. destruct (forallb _ dims); intros H; inversion H; simpl.
  - eauto.
  - exists []. now rewrite app_nil_r.
Qed.

Lemma extends_random what dims : extends (random_tensor what dims).
Proof.
  intros st st' r. unfold random_tensor. destruct (forallb _ dims); intros H; inversion H; simpl.
  - eauto.
  - exists []. now rewrite app_nil_r.
Qed.

Lemma extends_redraw t : extends (redraw t).
Proof. intros st st' r H. inversion H; simpl. exists []. now rewrite app_nil_r. Qed.

Lemma extends_dropout p : extends (Dropout.init p).
Proof.
  intros st st' r. unfold Dropout.init. destruct (_ && _)%bool; intros H; inversion H; simpl;
    exists []; now rewrite app_nil_r.
Qed.

Lemma extends_if {A} (b : bool) (m1 m2 : build A) :
  extends m1 -> extends m2 -> extends (if b then m1 else m2).
Proof. now destruct b. Qed.

Lemma extends_repeatM {A} n (m : build A) : extends m -> extends (repeatM n m).
Proof.
  intros Hm. induction n as [|n IH]; simpl.
  - apply extends_ret.
  - apply extends_bind; [assumption|intros a].
    apply extends_bind; [assumption|intros l]. apply extends_ret.
Qed.

Lemma extends_mapM {A B} (f : A -> build B) l :
  (forall a, extends (f a)) -> extends (mapM_build f l).
Proof.
  intros Hf. induction l as [|a l IH]; simpl.
  - apply extends_ret.
  - apply extends_bind; [apply Hf|intros b].
    apply extends_bind; [assumption|intros bs]. apply extends_ret.
Qed.

Create HintDb build_log.
#[local] Hint Resolve extends_ret extends_fail extends_lift extends_created
  extends_random extends_redraw extends_dropout extends_repeatM extends_mapM
  : build_log.

Ltac extends_steps :=
  repeat first
    [ progress cbv zeta
    | solve [auto with build_log]
    | apply extends_bind; [|intros ?]
    | apply extends_repeatM
    | apply extends_mapM; intros ?
    | apply extends_if ].

Lemma extends_Linear_init i o : extends (Linear.init i o).
Proof. unfold Linear.init. extends_steps. Qed.

Lemma extends_Linear_xavier l : extends (Linear.xavier_uniform_ l).
Proof. unfold Linear.xavier_uniform_. extends_steps. Qed.
#[local] Hint Resolve extends_Linear_init extends_Linear_xavier : build_log.

Lemma extends_LayerNorm_init e : extends (LayerNorm.init e).
Proof. unfold LayerNorm.init. extends_steps. Qed.
#[local] Hint Resolve extends_LayerNorm_init : build_log.

Lemma extends_PositionalEncoding_init d s p : extends (PositionalEncoding.init d s p).
Proof.
  unfold PositionalEncoding.init, PositionalEncoding.init_table. extends_steps.
Qed.

Lemma extends_MultiAttentionBlock_init d h p : extends (MultiAttentionBlock.init d h p).
Proof. unfold MultiAttentionBlock.init. extends_steps. Qed.

Lemma extends_FeedForwardBlock_init d f p : extends (FeedForwardBlock.init d f p).
Proof. unfold FeedForwardBlock.init. extends_steps. Qed.

Lemma extends_ResidualConnection_init p : extends (ResidualConnection.init p).
Proof. unfold ResidualConnection.init. extends_steps. Qed.
#[local] Hint Resolve extends_PositionalEncoding_init extends_MultiAttentionBlock_init
  extends_FeedForwardBlock_init extends_ResidualConnection_init : build_log.

Lemma extends_MultiAttentionBlock_xavier b : extends (MultiAttentionBlock.xavier_uniform_ b).
Proof. unfold MultiAttentionBlock.xavier_uniform_. extends_steps. Qed.

Lemma extends_FeedForwardBlock_xavier b : extends (FeedForwardBlock.xavier_uniform_ b).
Proof. unfold FeedForwardBlock.xavier_uniform_. extends_steps. Qed.

Lemma extends_InputEmbedding_xavier b : extends (InputEmbedding.xavier_uniform_ b).
Proof. unfold InputEmbedding.xavier_uniform_. extends_steps. Qed.

Lemma extends_ProjectionLayer_xavier b : extends (ProjectionLayer.xavier_uniform_ b).
Proof. unfold ProjectionLayer.xavier_uniform_. extends_steps. Qed.
#[local] Hint Resolve extends_MultiAttentionBlock_xavier extends_FeedForwardBlock_xavier
  extends_InputEmbedding_xavier extends_ProjectionLayer_xavier : build_log.

Lemma extends_xavier_encoder_block b : extends (xavier_encoder_block b).
Proof. unfold xavier_encoder_block. extends_steps. Qed.

Lemma extends_xavier_decoder_block b : extends (xavier_decoder_block b).
Proof. unfold xavier_decoder_block. extends_steps. Qed.
#[local] Hint Resolve extends_xavier_encoder_block extends_xavier_decoder_block : build_log.

Lemma extends_xavier_transformer m : extends (xavier_transformer m).
Proof. unfold xavier_transformer. extends_steps. Qed.
#[local] Hint Resolve extends_xavier_transformer : build_log.

Lemma extends_build_transformer sv tv ssl tsl d N h p dff :
  extends (build_transformer sv tv ssl tsl d N h p dff).
Proof.
  unfold build_transformer, encoder_blocks, decoder_blocks, InputEmbedding.init,
    EncoderBlock.init, DecoderBlock.init, Encoder.init, Decoder.init, ProjectionLayer.init.
  extends_steps.
Qed.


Lemma InputEmbedding_init_ok d v st :
  (0 <= v)%Z -> (0 <= d)%Z ->
  exists st1 emb, InputEmbedding.init d v st = (st1, inr emb)
    /\ log st1 = log st ++ [TensorCreated "Embedding.weight" [v; d]].
Proof.
  intros Hv Hd. unfold InputEmbedding.init, bbind, random_tensor. simpl.
  destruct (Z.leb_spec 0 v); [|lia]. destruct (Z.leb_spec 0 d); [|lia].
  simpl. eauto.
Qed.




(** ** PositionalEncoding: the table *)

Lemma binop_ok f a b c :
  binop f a b = inr c ->
  broadcast_shapes (shape a) (shape b) = Some (shape c)
  /\ forall idx, data c idx = f (data a (bindex (shape a) idx)) (data b (bindex (shape b) idx)).
Proof.
  unfold binop. destruct (broadcast_shapes _ _); [|discriminate].
  intros H. inversion H; subst. simpl. auto.
Qed.

Lemma setitem_cols_ok start t value r :
  setitem_cols start t value = inr r ->
  shape r = shape t
  /\ forall i c, data r [i; c] =
       if ((start <=? c) && Nat.even (c - start))%nat
       then data value (bindex (shape value) [i; ((c - start) / 2)%nat])
       else data t [i; c].
Proof.
  unfold setitem_cols. destruct (shape t) as [|rows [|cols [|]]]; try discriminate.
  destruct (broadcast_shapes _ _); [|discriminate].
  destruct (decide _); [|discriminate].
  intros H. inversion H; subst. simpl. auto.
Qed.

(** A column of [S] entries times a row of [C] entries. *)
Lemma outer_product_entry (P Dv a : tensor R) S C pos i :
  shape P = [S; 1%nat] -> shape Dv = [C] ->
  binop Rmult P Dv = inr a ->
  (pos < S)%nat -> (i < C)%nat ->
  shape a = [S; C]
  /\ data a (bindex (shape a) [pos; i]) = data P [pos; 0%nat] * data Dv [i].
Proof.
  intros HP HD H Hpos Hi. apply binop_ok in H as [Hs Hd].
  rewrite HP, HD in Hs. unfold broadcast_shapes in Hs. cbn in Hs.
  assert (Ha : shape a = [S; C]).
  { destruct C as [|[|C']]; cbn in Hs; now inversion Hs. }
  split; [assumption|].
  rewrite Hd, Ha, HP, HD. unfold bindex. cbn.
  destruct (Nat.eqb_spec C 1) as [->|_]; [assert (i = 0)%nat as -> by lia|];
    (destruct (Nat.eqb_spec S 1) as [->|_]; [assert (pos = 0)%nat as -> by lia|]);
    reflexivity.
Qed.

Lemma arange_shape stop : shape (arange stop 1) = [stop].
Proof. unfold arange. cbn [shape]. now rewrite Nat.add_sub, Nat.div_1_r. Qed.

Lemma half_bound i D : (2 * i < D)%nat -> (i < (D + 2 - 1) / 2)%nat.
Proof. intros H. apply Nat.div_le_lower_bound; lia. Qed.

(** The angle table [position * div_term]. *)
Lemma angle_entry S D c a pos i :
  binop Rmult (unsqueeze_1 (arange S 1)) (tmap exp (tmap (fun x => x * c) (arange D 2))) = inr a ->
  (pos < S)%nat -> (2 * i < D)%nat ->
  shape a = [S; ((D + 2 - 1) / 2)%nat]
  /\ data a (bindex (shape a) [pos; i]) = INR pos * exp (INR (i * 2) * c).
Proof.
  intros H Hpos Hi.
  assert (HP : shape (unsqueeze_1 (arange S 1)) = [S; 1%nat])
    by (unfold unsqueeze_1; cbn [shape]; now rewrite arange_shape).
  assert (HD : shape (tmap exp (tmap (fun x => x * c) (arange D 2)))
               = [((D + 2 - 1) / 2)%nat]) by reflexivity.
  destruct (outer_product_entry _ _ _ _ _ pos i HP HD H Hpos (half_bound _ _ Hi))
    as [Hs Hd].
  split; [assumption|]. rewrite Hd. cbn. now rewrite Nat.mul_1_r.
Qed.

Lemma angle_eq d pos i :
  d <> 0%Z -> INR pos * exp (INR (i * 2) * (- ln 10000 / IZR d)) = angle d pos i.
Proof.
  intros Hd. unfold angle, Rpower, Rdiv. rewrite <- exp_Ropp. f_equal. f_equal.
  rewrite Nat.mul_comm. field. now apply not_0_IZR.
Qed.

Lemma even_column i :
  ((0 <=? 2 * i) && Nat.even (2 * i - 0))%nat = true /\ ((2 * i - 0) / 2)%nat = i.
Proof.
  rewrite Nat.sub_0_r, Nat.even_mul. split; [reflexivity|].
  symmetry. apply Nat.div_unique with 0%nat; lia.
Qed.

Lemma even_column_not_odd i : ((1 <=? 2 * i) && Nat.even (2 * i - 1))%nat = false.
Proof.
  destruct i; [reflexivity|]. replace (2 * S i - 1)%nat with (1 + 2 * i)%nat by lia.
  rewrite Nat.even_add_mul_2. apply Bool.andb_false_r.
Qed.

Lemma odd_column i :
  ((1 <=? 2 * i + 1) && Nat.even (2 * i + 1 - 1))%nat = true
  /\ ((2 * i + 1 - 1) / 2)%nat = i.
Proof.
  rewrite Nat.add_sub, Nat.even_mul. split.
  - rewrite Bool.andb_true_r. apply Nat.leb_le. lia.
  - symmetry. apply Nat.div_unique with 0%nat; lia.
Qed.

Lemma positional_table_entries d s p st st' self :
  PositionalEncoding.init_table d s p st = (st', inr self) ->
  exists pe,
    dict self !! "pe" = Some (VTensor pe)
    /\ shape pe = [Z.to_nat s; Z.to_nat d]
    /\ forall pos i, (pos < Z.to_nat s)%nat ->
         ((2 * i < Z.to_nat d)%nat ->
            data pe [pos; (2 * i)%nat] = sin (angle d pos i))
         /\ ((2 * i + 1 < Z.to_nat d)%nat ->
            data pe [pos; (2 * i + 1)%nat] = cos (angle d pos i)).
Proof.
  unfold PositionalEncoding.init_table. intros H. build_inv.
  assert (B0 : buffers a = ∅) by (eapply setattr_buffers; eauto; reflexivity).
  assert (B1 : buffers a0 = ∅) by (eapply setattr_buffers; eauto).
  assert (B2 : buffers a2 = ∅) by (eapply setattr_buffers; eauto).
  destruct (setattr_tensor_dict _ _ _ _ B2 H4) as [D4 B4].
  destruct (update_tensor_dict _ _ _ _ _ D4 H9) as (y1 & Y1 & D9).
  destruct (update_tensor_dict _ _ _ _ _ D9 H11) as (y2 & Y2 & D11).
  apply created_ok in H3 as [-> _]. apply created_ok in H5 as [-> _].
  apply created_ok in H6 as [-> _].
  assert (Hd : d <> 0%Z /\ a7 = - ln 10000 / IZR d).
  { destruct (Z.eqb_spec d 0); [discriminate|]. inversion H7; auto. }
  destruct Hd as [Hd ->].
  apply setitem_cols_ok in Y1 as [S1 E1]. apply setitem_cols_ok in Y2 as [S2 E2].
  exists y2. split; [assumption|]. split; [now rewrite S2, S1|].
  intros pos i Hpos. split; intros Hi.
  - rewrite E2, even_column_not_odd, E1.
    destruct (even_column i) as [-> ->].
    destruct (angle_entry _ _ _ _ pos i H8 Hpos Hi) as [_ Ha].
    cbn [tmap shape data] in *. rewrite Ha.
    f_equal. now apply angle_eq.
  - rewrite E2. destruct (odd_column i) as [-> ->].
    assert (Hi' : (2 * i < Z.to_nat d)%nat) by lia.
    destruct (angle_entry _ _ _ _ pos i H10 Hpos Hi') as [_ Ha].
    cbn [tmap shape data] in *. rewrite Ha.
    f_equal. now apply angle_eq.
Qed.

(** Position 0 reads 0, 1, 0, 1, ... *)
Lemma positional_table_row_0 d s p st st' self pe i :
  PositionalEncoding.init_table d s p st = (st', inr self) ->
  dict self !! "pe" = Some (VTensor pe) ->
  (0 < Z.to_nat s)%nat ->
  ((2 * i < Z.to_nat d)%nat -> data pe [0%nat; (2 * i)%nat] = 0)
  /\ ((2 * i + 1 < Z.to_nat d)%nat -> data pe [0%nat; (2 * i + 1)%nat] = 1).
Proof.
  intros H Hpe Hs. destruct (positional_table_entries _ _ _ _ _ _ H) as (pe' & Hpe' & _ & He).
  rewrite Hpe in Hpe'. inversion Hpe'; subst pe'.
  destruct (He 0%nat i Hs) as [He0 He1].
  assert (angle d 0 i = 0) as Ha by (unfold angle; simpl; lra).
  split; intros Hi.
  - rewrite He0, Ha by assumption. apply sin_0.
  - rewrite He1, Ha by assumption. apply cos_0.
Qed.

(** Claim C9.  Once lines 17 to 31 of [PositionalEncoding.__init__]
    have run, the attribute [pe] is a table of shape
    (seq_length, d_model) with [sin (pos / 10000^(2i/d_model))] at
    [pos, 2i] and [cos (pos / 10000^(2i/d_model))] at [pos, 2i+1]; its
    row 0 reads 0, 1, 0, 1, ... *)
Theorem positional_encoding_table d s p st st' self :
  PositionalEncoding.init_table d s p st = (st', inr self) ->
  exists pe,
    dict self !! "pe" = Some (VTensor pe)
    /\ shape pe = [Z.to_nat s; Z.to_nat d]
    /\ (forall pos i, (pos < Z.to_nat s)%nat ->
          ((2 * i < Z.to_nat d)%nat ->
             data pe [pos; (2 * i)%nat] = sin (angle d pos i))
          /\ ((2 * i + 1 < Z.to_nat d)%nat ->
             data pe [pos; (2 * i + 1)%nat] = cos (angle d pos i)))
    /\ (forall i, (0 < Z.to_nat s)%nat ->
          ((2 * i < Z.to_nat d)%nat -> data pe [0%nat; (2 * i)%nat] = 0)
          /\ ((2 * i + 1 < Z.to_nat d)%nat -> data pe [0%nat; (2 * i + 1)%nat] = 1)).
Proof.
  intros H. destruct (positional_table_entries _ _ _ _ _ _ H) as (pe & Hpe & Hs & He).
  exists pe. repeat split; try assumption; try (now apply He).
  all: intros; eapply positional_table_row_0; eauto.
Qed.

(** The theorem at [d_model = 4], [seq_length = 3]. *)
Lemma positional_encoding_table_witness :
  exists st' self,
    PositionalEncoding.init_table 4 3 (1 # 10) st0 = (st', inr self)
    /\ exists pe,
         dict self !! "pe" = Some (VTensor pe)
         /\ shape pe = [Z.to_nat 3; Z.to_nat 4]
         /\ (forall pos i, (pos < Z.to_nat 3)%nat ->
               ((2 * i < Z.to_nat 4)%nat ->
                  data pe [pos; (2 * i)%nat] = sin (angle 4 pos i))
               /\ ((2 * i + 1 < Z.to_nat 4)%nat ->
                  data pe [pos; (2 * i + 1)%nat] = cos (angle 4 pos i)))
         /\ (forall i, (0 < Z.to_nat 3)%nat ->
               ((2 * i < Z.to_nat 4)%nat -> data pe [0%nat; (2 * i)%nat] = 0)
               /\ ((2 * i + 1 < Z.to_nat 4)%nat -> data pe [0%nat; (2 * i + 1)%nat] = 1)).
Proof.
  assert (H : exists st' self,
             PositionalEncoding.init_table 4 3 (1 # 10) st0 = (st', inr self)).
  { destruct (PositionalEncoding.init_table 4 3 (1 # 10) st0) as [st' r] eqn:E.
    assert (Hr : exists self, r = inr self).
    { apply (f_equal snd) in E. cbn [snd] in E. subst r. eexists. reflexivity. }
    destruct Hr as [self ->]. eauto. }
  destruct H as (st' & self & H). exists st', self. split; [exact H|].
  exact (positional_encoding_table 4 3 (1 # 10) st0 st' self H).
Defined.

Lemma broadcast_rev_refl r : broadcast_rev r r = Some r.
Proof.
  induction r as [|a r IH]; [reflexivity|]. simpl. now rewrite Nat.eqb_refl, IH.
Qed.

Lemma broadcast_shapes_refl s : broadcast_shapes s s = Some s.
Proof.
  unfold broadcast_shapes. rewrite broadcast_rev_refl. simpl. now rewrite rev_involutive.
Qed.

Lemma setitem_cols_returns start rows cols t value :
  shape t = [rows; cols] -> shape value = [rows; ((cols + 1 - start) / 2)%nat] ->
  exists r, setitem_cols start t value = inr r.
Proof.
  intros Ht Hv. unfold setitem_cols. rewrite Ht, Hv, broadcast_shapes_refl.
  destruct (decide _); [eauto | contradiction].
Qed.

Lemma bbind_blift {A B} (r : result A) (f : A -> build B) st a :
  r = inr a -> bbind (blift r) f st = f a st.
Proof. now intros ->. Qed.

Lemma bbind_created {B} what dims t (f : tensor R -> build B) st :
  forallb (fun d => (0 <=? d)%Z) dims = true ->
  bbind (created what dims t) f st
  = f t (BuildState (log st ++ [TensorCreated what dims]) (source st) (coins st) (seed st)).
Proof. intros H. unfold bbind, created. now rewrite H. Qed.

Ltac lift_step :=
  match goal with
  | |- context [bbind (blift ?r) ?f ?st] => rewrite (bbind_blift r f st _ eq_refl)
  end.

Ltac lift_step_with H :=
  match goal with
  | |- context [bbind (blift ?r) ?f ?st] => rewrite (bbind_blift r f st _ H)
  end.

Ltac created_step H :=
  match goal with
  | |- context [bbind (created ?w ?d ?t) ?f ?st] => rewrite (bbind_created w d t f st H)
  end.

(** For an even [d_model] the table is built. *)
Lemma init_table_returns d s p st :
  (0 < d)%Z -> (d mod 2 = 0)%Z -> (0 <= s)%Z ->
  (Qle_bool 0 p && Qle_bool p 1)%bool = true ->
  exists st' self, PositionalEncoding.init_table d s p st = (st', inr self).
Proof.
  intros Hd Heven Hs Hp. unfold PositionalEncoding.init_table. cbv zeta.
  do 2 lift_step.
  unfold bbind at 1. unfold Dropout.init. rewrite Hp. unfold ok at 1. cbv beta iota.
  lift_step.
  assert (F2 : forallb (fun d => (0 <=? d)%Z) [s; d] = true).
  { cbn. destruct (Z.leb_spec 0 s); [|lia]. destruct (Z.leb_spec 0 d); [|lia]. reflexivity. }
  assert (F1 : forallb (fun d => (0 <=? d)%Z) [s] = true).
  { cbn. destruct (Z.leb_spec 0 s); [|lia]. reflexivity. }
  assert (F3 : forallb (fun d => (0 <=? d)%Z) [((d + 1) / 2)%Z] = true).
  { cbn. destruct (Z.leb_spec 0 ((d + 1) / 2)); [reflexivity|].
    assert (0 <= (d + 1) / 2)%Z by (apply Z.div_pos; lia). lia. }
  created_step F2. lift_step. created_step F1. created_step F3.
  destruct (Z.eqb_spec d 0) as [|_]; [lia|].
  match goal with
  | |- context [bbind (bret ?a) ?f ?st] => change (bbind (bret a) f st) with (f a st)
  end. cbv beta.
  set (S := Z.to_nat s). set (D := Z.to_nat d).
  set (position := unsqueeze_1 (arange S 1)).
  set (div_term := tmap exp (tmap (fun a => a * (- ln 10000 / IZR d)) (arange D 2))).
  assert (HP : shape position = [S; 1%nat])
    by (unfold position, unsqueeze_1; cbn [shape]; now rewrite arange_shape).
  assert (Hhalf : ((D + 2 - 1) / 2 = D / 2)%nat).
  { assert (E : (D = 2 * (D / 2))%nat).
    { unfold D. apply Nat2Z.inj. rewrite Nat2Z.inj_mul, Nat2Z.inj_div, Z2Nat.id by lia.
      change (Z.of_nat 2) with 2%Z. apply Z.div_exact; lia. }
    symmetry. apply Nat.div_unique with 1%nat; lia. }
  assert (HD : shape div_term = [((D + 2 - 1) / 2)%nat]) by reflexivity.
  remember ((D + 2 - 1) / 2)%nat as C eqn:HC.
  assert (Ha : exists angles, binop Rmult position div_term = inr angles
                              /\ shape angles = [S; C]).
  { unfold binop. rewrite HP, HD. unfold broadcast_shapes.
    destruct C as [|[|c]]; cbn; eauto. }
  destruct Ha as (angles & Ea & Hshape). rewrite Ea.
  lift_step.
  destruct (setitem_cols_returns 0 S D (PositionalEncoding.zeros [S; D]) (tmap sin angles)
              eq_refl) as [y1 Hy1].
  { cbn [tmap shape]. rewrite Hshape, HC.
    now replace (D + 1 - 0)%nat with (D + 2 - 1)%nat by lia. }
  match goal with
  | |- context [update_tensor ?self "pe" ?f] =>
      assert (U1 : update_tensor self "pe" f
                   = inr (Make (<["pe" := VTensor y1]> (dict self)) (parameters self)
                            (buffers self) (modules self)))
        by (unfold update_tensor; cbn [dict]; rewrite lookup_insert_eq; fold S D;
            rewrite Hy1; reflexivity)
  end.
  lift_step_with U1. lift_step.
  destruct (setitem_cols_returns 1 S D y1 (tmap cos angles)) as [y2 Hy2].
  { apply setitem_cols_ok in Hy1 as [-> _]. reflexivity. }
  { cbn [tmap shape]. rewrite Hshape, Hhalf.
    now replace (D + 1 - 1)%nat with D by lia. }
  match goal with
  | |- context [update_tensor ?self "pe" ?f] =>
      assert (U2 : update_tensor self "pe" f
                   = inr (Make (<["pe" := VTensor y2]> (dict self)) (parameters self)
                            (buffers self) (modules self)))
        by (unfold update_tensor; cbn [dict]; rewrite lookup_insert_eq;
            rewrite Hy2; reflexivity)
  end.
  lift_step_with U2. unfold bret. eauto.
Qed.

(** ** LayerNorm *)

Lemma sum_n_ext n f g : (forall j, (j < n)%nat -> f j = g j) -> sum_n n f = sum_n n g.
Proof.
  induction n as [|n IH]; intros H; simpl; [reflexivity|].
  rewrite IH, H; auto.
Qed.

Lemma sum_n_nonneg n f : (forall j, (j < n)%nat -> 0 <= f j) -> 0 <= sum_n n f.
Proof.
  induction n as [|n IH]; intros H; simpl; [lra|].
  assert (0 <= sum_n n f) by auto. assert (0 <= f n) by auto. lra.
Qed.

Lemma with_last_with_last idx i j : with_last (with_last idx i) j = with_last idx j.
Proof. unfold with_last, but_last. now rewrite removelast_last. Qed.

(** Claim C4, amended.  For a tensor with at least two features, every
    entry of [LayerNorm.forward] is
    [alpha * (x - mean) / (std + eps) + gamma], where [mean] is the mean
    of the entry's row over the last dimension and [std] is the sample
    standard deviation of that row: the non-negative number whose square
    times [n - 1] is the sum of the squared deviations (Bessel's
    correction, not the population formula, which divides by [n]). *)
Theorem layer_norm_sample_std (self : LayerNorm.t) (x : tensor R) (idx : list nat) :
  (2 <= last_dim (shape x))%nat ->
  let n := last_dim (shape x) in
  let row := fun j => data x (with_last idx j) in
  exists mean std,
    mean * INR n = sum_n n row
    /\ 0 <= std
    /\ std * std * (INR n - 1) = sum_n n (fun j => (row j - mean) ^ 2)
    /\ data (LayerNorm.forward self x) idx
       = data (LayerNorm.alpha self) [0%nat] * (data x idx - mean)
         / (std + LayerNorm.eps self)
         + data (LayerNorm.gamma self) [0%nat].
Proof.
  intros Hn n row.
  assert (Hn1 : 2 <= INR n) by (apply (le_INR 2); exact Hn).
  exists (sum_n n row / INR n).
  exists (sqrt (sum_n n (fun j => (row j - sum_n n row / INR n) ^ 2) / (INR n - 1))).
  split; [field; lra|]. split; [apply sqrt_pos|]. split.
  - rewrite sqrt_sqrt; [field; lra|].
    apply Rmult_le_pos.
    + apply sum_n_nonneg. intros j _. apply pow2_ge_0.
    + left. apply Rinv_0_lt_compat. lra.
  - unfold LayerNorm.forward, std_last, mean_last. cbn [data shape]. fold n.
    assert (E1 : sum_n n (fun j => data x (with_last (with_last idx 0) j)) = sum_n n row)
      by (apply sum_n_ext; intros j _; now rewrite with_last_with_last).
    rewrite E1.
    assert (E2 : sum_n n (fun j => (data x (with_last (with_last idx 0) j)
                                     - sum_n n row / INR n) ^ 2)
                 = sum_n n (fun j => (row j - sum_n n row / INR n) ^ 2))
      by (apply sum_n_ext; intros j _; now rewrite with_last_with_last).
    rewrite E2. reflexivity.
Qed.

(** The theorem on the vector [0, 2]. *)
Lemma layer_norm_sample_std_witness :
  (2 <= last_dim (shape vector_0_2))%nat
  /\ exists mean std,
       mean * INR 2 = sum_n 2 (fun j => data vector_0_2 (with_last [0%nat] j))
       /\ 0 <= std
       /\ std * std * (INR 2 - 1)
          = sum_n 2 (fun j => (data vector_0_2 (with_last [0%nat] j) - mean) ^ 2)
       /\ data (LayerNorm.forward default_LayerNorm vector_0_2) [0%nat]
          = data (LayerNorm.alpha default_LayerNorm) [0%nat]
            * (data vector_0_2 [0%nat] - mean)
            / (std + LayerNorm.eps default_LayerNorm)
            + data (LayerNorm.gamma default_LayerNorm) [0%nat].
Proof.
  split; [cbv; lia|].
  apply (layer_norm_sample_std default_LayerNorm vector_0_2 [0%nat]). cbv; lia.
Defined.

Lemma sqrt_2_not_1 : sqrt 2 <> 1.
Proof.
  intros H. assert (E : sqrt 2 * sqrt 2 = 2) by (apply sqrt_sqrt; lra).
  rewrite H in E. lra.
Qed.

(** Claim C4 as stated fails on the vector [0, 2]: its sample standard
    deviation is [sqrt 2], the population one is 1, and the first entry
    of the output differs from the one computed with the latter. *)
Lemma layer_norm_not_population_std :
  data (LayerNorm.forward default_LayerNorm vector_0_2) [0%nat]
  <> data (LayerNorm_forward_population default_LayerNorm vector_0_2) [0%nat].
Proof.
  unfold LayerNorm.forward, LayerNorm_forward_population, std_last, population_std_last,
    mean_last, default_LayerNorm, LayerNorm.default_eps, vector_0_2, with_last, last_dim,
    but_last.
  cbn [data shape LayerNorm.alpha LayerNorm.gamma LayerNorm.eps removelast app List.last
       sum_n INR].
  replace ((0 + 0 + 2) / (1 + 1)) with 1 by lra.
  replace ((0 + (0 - 1) ^ 2 + (2 - 1) ^ 2) / (1 + 1 - 1)) with 2 by lra.
  replace ((0 + (0 - 1) ^ 2 + (2 - 1) ^ 2) / (1 + 1)) with 1 by lra.
  rewrite sqrt_1. intros H.
  assert (P : 0 <= sqrt 2) by apply sqrt_pos.
  apply sqrt_2_not_1.
  assert (E : / (sqrt 2 + 1e-6) = / (1 + 1e-6)) by lra.
  apply (f_equal Rinv) in E. rewrite !Rinv_inv in E. lra.
Qed.

(** ** MultiAttentionBlock.attention: an all-ones mask *)

Lemma Forall2_rev_lt (l k : list nat) : Forall2 lt l k -> Forall2 lt (rev l) (rev k).
Proof.
  induction 1 as [|x y l k Hxy H IH]; simpl; [constructor|].
  apply Forall2_app; [assumption|]. now constructor.
Qed.

Lemma broadcast_rev_index_l r1 : forall r2 r ri,
  broadcast_rev r1 r2 = Some r -> Forall2 lt ri r -> Forall2 lt (bindex_rev r1 ri) r1.
Proof.
  induction r1 as [|a r1 IH]; intros r2 r ri Hb Hi; [constructor|].
  destruct r2 as [|b r2].
  - simpl in Hb. inversion Hb; subst. inversion Hi; subst. simpl.
    constructor.
    + destruct (Nat.eqb_spec a 1); lia.
    + clear -H3. revert r1 H3. induction l as [|i l IHl]; intros r1 H; inversion H; subst.
      * constructor.
      * simpl. constructor; [destruct (Nat.eqb_spec y 1); lia | auto].
  - simpl in Hb.
    assert (exists r', broadcast_rev r1 r2 = Some r' /\
              exists c, r = c :: r' /\ (a = 1%nat \/ c = a)) as (r' & Hr' & c & -> & Hc).
    { destruct (Nat.eqb_spec a b) as [->|]; [|destruct (Nat.eqb_spec a 1) as [->|];
        [|destruct (Nat.eqb_spec b 1) as [->|]; [|discriminate]]];
      destruct (broadcast_rev r1 r2) as [r'|]; simpl in Hb; try discriminate;
      inversion Hb; subst; eauto 8. }
    inversion Hi; subst. simpl. constructor.
    + destruct (Nat.eqb_spec a 1); lia.
    + eapply IH; eauto.
Qed.

Lemma broadcast_rev_comm r1 : forall r2, broadcast_rev r1 r2 = broadcast_rev r2 r1.
Proof.
  induction r1 as [|a r1 IH]; intros [|b r2]; simpl; try reflexivity.
  rewrite (IH r2). rewrite (Nat.eqb_sym b a).
  destruct (Nat.eqb_spec a b) as [->|]; [reflexivity|].
  destruct (Nat.eqb_spec a 1) as [->|]; destruct (Nat.eqb_spec b 1) as [->|];
    try reflexivity; congruence.
Qed.

(** A valid index of the broadcast shape reads a valid index of each
    operand. *)
Lemma bindex_in_range_l s1 s2 s idx :
  broadcast_shapes s1 s2 = Some s -> in_range s idx -> in_range s1 (bindex s1 idx).
Proof.
  unfold broadcast_shapes, in_range, bindex. intros Hb Hi.
  destruct (broadcast_rev (rev s1) (rev s2)) as [r|] eqn:E; [|discriminate].
  simpl in Hb. inversion Hb; subst.
  rewrite <- (rev_involutive s1) at 2. apply Forall2_rev_lt.
  apply Forall2_rev_lt in Hi. rewrite rev_involutive in Hi.
  eapply broadcast_rev_index_l; eauto.
Qed.

Lemma bindex_in_range_r s1 s2 s idx :
  broadcast_shapes s1 s2 = Some s -> in_range s idx -> in_range s2 (bindex s2 idx).
Proof.
  unfold broadcast_shapes. rewrite broadcast_rev_comm. apply bindex_in_range_l.
Qed.

Lemma tensor_eq_refl {A} (a : tensor A) : tensor_eq a a.
Proof. split; auto. Qed.

Lemma in_range_with_last s idx j :
  in_range s idx -> (j < last_dim s)%nat -> in_range s (with_last idx j).
Proof.
  unfold in_range, with_last, but_last, last_dim. intros H Hj.
  destruct (list_eq_nil_dec s) as [->|Hs]; [simpl in Hj; lia|].
  assert (E := app_removelast_last 0%nat Hs).
  set (r := removelast s) in *. set (d := List.last s 0%nat) in *.
  clearbody r d. subst s.
  apply Forall2_app_inv_r in H as (l1 & l2 & H1 & H2 & ->).
  inversion H2 as [|i d' l2' k' Hi H2']; subst. inversion H2'; subst.
  rewrite removelast_last.
  apply Forall2_app; [assumption|]. now repeat constructor.
Qed.

Lemma masked_fill_all_ones (s : tensor R) (mask : tensor Z) value :
  all_ones mask -> broadcast_shapes (shape mask) (shape s) = Some (shape s) ->
  exists s', masked_fill s (eq_zero mask) value = inr s' /\ tensor_eq s' s.
Proof.
  intros Hones Hb. unfold masked_fill. cbn [eq_zero tmap shape]. rewrite Hb.
  destruct (decide (shape s = shape s)) as [_|]; [|contradiction].
  eexists. split; [reflexivity|]. split; [reflexivity|].
  unfold eq_zero, tmap. cbn [shape data]. intros idx Hi.
  rewrite Hones; [reflexivity|]. eapply bindex_in_range_l; eauto.
Qed.

Lemma softmax_eq a b : tensor_eq a b -> tensor_eq (softmax a) (softmax b).
Proof.
  intros [Hs Hd]. split; [exact Hs|]. cbn [softmax shape data]. intros idx Hi.
  rewrite <- Hs, (Hd idx Hi). f_equal.
  apply sum_n_ext. intros j Hj. rewrite Hd; [reflexivity|].
  now apply in_range_with_last.
Qed.

Lemma dropout_eq d a b :
  tensor_eq a b -> tensor_eq (Dropout.forward d a) (Dropout.forward d b).
Proof.
  intros [Hs Hd]. unfold Dropout.forward. destruct (Dropout.training d); [|now split].
  split; [exact Hs|]. cbn [shape data]. intros idx Hi. now rewrite (Hd idx Hi).
Qed.

Lemma last_two (pre : list nat) i j :
  but_last (but_last (pre ++ [i; j])) = pre
  /\ last_dim (but_last (pre ++ [i; j])) = i
  /\ last_dim (pre ++ [i; j]) = j.
Proof.
  unfold but_last, last_dim.
  replace (pre ++ [i; j]) with ((pre ++ [i]) ++ [j]) by now rewrite <- app_assoc.
  rewrite !removelast_last, !last_last. auto.
Qed.

(** A shape of rank at least two is its leading dimensions followed by
    the last two. *)
Lemma shape_last_two (s : list nat) :
  (2 <= length s)%nat ->
  s = but_last (but_last s) ++ [last_dim (but_last s); last_dim s].
Proof.
  intros H. unfold but_last, last_dim.
  assert (Hs : s <> []) by (destruct s; [simpl in H; lia | discriminate]).
  assert (Hr : removelast s <> []).
  { destruct s as [|a [|b s']]; simpl in H; try lia. simpl. discriminate. }
  rewrite (app_removelast_last 0%nat Hs) at 1.
  rewrite (app_removelast_last 0%nat Hr) at 1.
  now rewrite <- app_assoc.
Qed.

Lemma matmul_eq_l a a' v :
  tensor_eq a a' -> same_outcome tensor_eq (matmul a v) (matmul a' v).
Proof.
  intros [Hs Hd]. unfold matmul, rank. rewrite <- Hs.
  destruct (((length (shape a) <? 2) || (length (shape v) <? 2))%nat) eqn:Hr;
    [constructor|].
  destruct (negb _); [constructor|].
  destruct (broadcast_shapes _ _) as [bs|] eqn:Hb; [|constructor].
  constructor. split; [reflexivity|]. cbn [shape data]. intros idx Hi.
  apply Forall2_app_inv_r in Hi as (pre & l2 & Hpre & H2 & ->).
  inversion H2 as [|i n' l2' k' Hi H2']; subst.
  inversion H2' as [|j p' l2'' k'' Hj H2'']; subst. inversion H2''; subst.
  destruct (last_two pre i j) as (-> & -> & ->).
  apply sum_n_ext. intros k Hk. rewrite Hd; [reflexivity|].
  apply Bool.orb_false_elim in Hr as [Hr _]. apply Nat.ltb_ge in Hr.
  rewrite (shape_last_two (shape a) Hr) at 1.
  apply Forall2_app; [eapply bindex_in_range_l; eauto|].
  repeat constructor; assumption.
Qed.

(** Claim C8.  With a mask whose entries are all one, and whose shape
    can be broadcast to the scores, [attention] ends as it does without
    a mask: with the same exception, or with the same output and the same
    attention weights.  The dropout draw is the same in both calls. *)
Theorem attention_all_ones_mask q k v mask dropout :
  all_ones mask -> mask_fits mask q k ->
  same_outcome same_pair
    (MultiAttentionBlock.attention q k v (Some mask) dropout)
    (MultiAttentionBlock.attention q k v None dropout).
Proof.
  intros Hones Hfits. unfold MultiAttentionBlock.attention.
  destruct (MultiAttentionBlock.scores q k) as [e|s] eqn:Hs; [constructor|].
  cbn [rbind].
  destruct (masked_fill_all_ones s mask MultiAttentionBlock.fill Hones (Hfits s Hs))
    as (s' & -> & Heq).
  cbn [rbind ok].
  set (w' := match dropout with Some d => Dropout.forward d (softmax s') | None => softmax s' end).
  set (w := match dropout with Some d => Dropout.forward d (softmax s) | None => softmax s end).
  assert (Hw : tensor_eq w' w).
  { unfold w, w'. destruct dropout; [apply dropout_eq|]; now apply softmax_eq. }
  destruct (matmul_eq_l w' w v Hw) as [e|x' x Hx]; cbn [rbind]; constructor.
  split; assumption.
Qed.

Lemma scores_ex_shape s :
  MultiAttentionBlock.scores query_ex key_ex = inr s -> shape s = [2%nat; 2%nat].
Proof.
  intros H.
  apply (f_equal (fun r => match r with inr t => shape t | inl _ => [] end)) in H.
  lazy in H. symmetry. exact H.
Qed.

(** The theorem on the example tensors. *)
Lemma attention_all_ones_mask_witness :
  all_ones ones_mask /\ mask_fits ones_mask query_ex key_ex
  /\ same_outcome same_pair
       (MultiAttentionBlock.attention query_ex key_ex value_ex (Some ones_mask) None)
       (MultiAttentionBlock.attention query_ex key_ex value_ex None None).
Proof.
  assert (H1 : all_ones ones_mask) by (intros idx _; reflexivity).
  assert (H2 : mask_fits ones_mask query_ex key_ex).
  { intros s Hs. rewrite (scores_ex_shape s Hs). reflexivity. }
  split; [exact H1|]. split; [exact H2|].
  apply (attention_all_ones_mask query_ex key_ex value_ex ones_mask None H1 H2).
Defined.

Lemma attention_ex_returns :
  exists x s, MultiAttentionBlock.attention query_ex key_ex value_ex None None = inr (x, s).
Proof. eexists. eexists. reflexivity. Qed.

(** ** MultiAttentionBlock.attention: a causal mask *)

Lemma sum_n_minus n f g : sum_n n f - sum_n n g = sum_n n (fun j => f j - g j).
Proof. induction n as [|n IH]; simpl; [lra|]. rewrite <- IH. lra. Qed.

Lemma sum_n_scal n c f : c * sum_n n f = sum_n n (fun j => c * f j).
Proof. induction n as [|n IH]; simpl; [lra|]. rewrite <- IH. lra. Qed.

Lemma sum_n_le n f g : (forall j, (j < n)%nat -> f j <= g j) -> sum_n n f <= sum_n n g.
Proof.
  induction n as [|n IH]; intros H; simpl; [lra|].
  assert (sum_n n f <= sum_n n g) by auto. assert (f n <= g n) by auto. lra.
Qed.

Lemma sum_n_Rabs n f : Rabs (sum_n n f) <= sum_n n (fun j => Rabs (f j)).
Proof.
  induction n as [|n IH]; simpl; [rewrite Rabs_R0; lra|].
  eapply Rle_trans; [apply Rabs_triang|]. lra.
Qed.

Lemma sum_n_ge_term n f i :
  (forall j, (j < n)%nat -> 0 <= f j) -> (i < n)%nat -> f i <= sum_n n f.
Proof.
  induction n as [|n IH]; intros H Hi; [lia|]. simpl.
  assert (0 <= sum_n n f) by (apply sum_n_nonneg; auto).
  destruct (Nat.eq_dec i n) as [->|Hne].
  - lra.
  - assert (f i <= sum_n n f) by (apply IH; [auto | lia]).
    assert (0 <= f n) by auto. lra.
Qed.

Lemma bindex_rev_id rs : forall ri, Forall2 lt ri rs -> bindex_rev rs ri = ri.
Proof.
  induction rs as [|d rs IH]; intros ri H; inversion H; subst; [reflexivity|].
  simpl. rewrite IH by assumption.
  destruct (Nat.eqb_spec d 1); [f_equal; lia | reflexivity].
Qed.

(** Nothing is broadcast when the index is one of the operand itself. *)
Lemma bindex_id s idx : in_range s idx -> bindex s idx = idx.
Proof.
  intros H. unfold bindex. rewrite bindex_rev_id by now apply Forall2_rev_lt.
  apply rev_involutive.
Qed.

Lemma matmul_ok a b c :
  matmul a b = inr c ->
  last_dim (shape a) = last_dim (but_last (shape b))
  /\ forall pre i j,
       data c (pre ++ [i; j])
       = sum_n (last_dim (shape a))
           (fun k => data a (bindex (batch a) pre ++ [i; k])
                     * data b (bindex (batch b) pre ++ [k; j])).
Proof.
  unfold matmul. destruct (_ || _)%bool; [discriminate|].
  destruct (Nat.eqb_spec (last_dim (shape a)) (last_dim (but_last (shape b))));
    [|discriminate].
  cbn [negb]. destruct (broadcast_shapes _ _); [|discriminate].
  intros H. inversion H; subst. split; [assumption|]. intros pre i j. cbn [data].
  destruct (last_two pre i j) as (-> & -> & ->). reflexivity.
Qed.

Lemma masked_fill_ok s m value s' :
  masked_fill s m value = inr s' ->
  shape s' = shape s
  /\ forall idx, data s' idx = if data m (bindex (shape m) idx) then value else data s idx.
Proof.
  unfold masked_fill. destruct (broadcast_shapes _ _); [|discriminate].
  destruct (decide _); [|discriminate]. intros H. inversion H; subst. auto.
Qed.

Lemma attention_masked_ok q k v mask x w :
  MultiAttentionBlock.attention q k v (Some mask) None = inr (x, w) ->
  exists s s',
    MultiAttentionBlock.scores q k = inr s
    /\ masked_fill s (eq_zero mask) MultiAttentionBlock.fill = inr s'
    /\ w = softmax s'
    /\ matmul w v = inr x.
Proof.
  unfold MultiAttentionBlock.attention. intros H.
  apply rbind_ok in H as (s & Hs & H). apply rbind_ok in H as (s' & Hs' & H).
  apply rbind_ok in H as (x0 & Hx & H). inversion H; subst. eauto 6.
Qed.

(** The weight that row [i] of the masked softmax gives to a hidden
    position is at most [exp (fill - s_ii)], where [s_ii] is the score
    of the position for itself. *)
Lemma hidden_weight_bound s s' mask pre i j :
  masked_fill s (eq_zero mask) MultiAttentionBlock.fill = inr s' ->
  causal_row mask i (last_dim (shape s)) ->
  (i < last_dim (shape s))%nat -> (i < j)%nat -> (j < last_dim (shape s))%nat ->
  0 <= data (softmax s') (pre ++ [i; j])
       <= exp (MultiAttentionBlock.fill - data s (pre ++ [i; i])).
Proof.
  intros Hm [Hdiag Hhide] Hi Hij Hj. apply masked_fill_ok in Hm as [Hs Hd].
  cbn [softmax data shape]. rewrite Hs.
  set (m := last_dim (shape s)) in *.
  set (Z := sum_n m (fun j0 => exp (data s' (with_last (pre ++ [i; j]) j0)))).
  assert (Hrow : forall j0, with_last (pre ++ [i; j]) j0 = pre ++ [i; j0]).
  { intros j0. unfold with_last, but_last.
    replace (pre ++ [i; j]) with ((pre ++ [i]) ++ [j]) by now rewrite <- app_assoc.
    now rewrite removelast_last, <- app_assoc. }
  assert (Hnum : data s' (pre ++ [i; j]) = MultiAttentionBlock.fill).
  { rewrite Hd. unfold eq_zero, tmap. cbn [data shape].
    rewrite (Hhide pre j Hij Hj). reflexivity. }
  assert (Hii : data s' (pre ++ [i; i]) = data s (pre ++ [i; i])).
  { rewrite Hd. unfold eq_zero, tmap. cbn [data shape].
    destruct (Z.eqb_spec (data mask (bindex (shape mask) (pre ++ [i; i]))) 0) as [E|_];
      [now apply Hdiag in E | reflexivity]. }
  assert (HZ : exp (data s (pre ++ [i; i])) <= Z).
  { unfold Z. rewrite <- Hii, <- (Hrow i).
    apply (sum_n_ge_term m (fun j0 => exp (data s' (with_last (pre ++ [i; j]) j0))) i);
      [|assumption].
    intros j0 _. left. apply exp_pos. }
  assert (Hpos : 0 < exp (data s (pre ++ [i; i]))) by apply exp_pos.
  assert (HZpos : 0 < Z) by lra.
  rewrite Hnum. split.
  - apply Rmult_le_pos; [left; apply exp_pos | left; now apply Rinv_0_lt_compat].
  - unfold Rminus. rewrite exp_plus, exp_Ropp. unfold Rdiv.
    apply Rmult_le_compat_l; [left; apply exp_pos|].
    now apply Rinv_le_contravar.
Qed.

(** Claim C7, amended.  Under a mask that shows position [i] to itself
    and hides the later positions, the output at position [i] depends on
    the values of the later positions only through the weight that the
    finite fill [-1e9] leaves to them: for two value tensors that agree
    on the positions up to [i], the outputs at [i] differ by at most
    [exp (fill - s_ii)] times the sum of the differences of the values,
    [s_ii] being the scaled score of position [i] for itself. *)
Theorem causal_mask_bounds_future_values q k v v' mask x w x' w' s pre i c :
  MultiAttentionBlock.scores q k = inr s ->
  MultiAttentionBlock.attention q k v (Some mask) None = inr (x, w) ->
  MultiAttentionBlock.attention q k v' (Some mask) None = inr (x', w') ->
  in_range (batch s) pre -> in_range (batch v) pre -> in_range (batch v') pre ->
  (i < last_dim (shape s))%nat ->
  causal_row mask i (last_dim (shape s)) ->
  (forall j, (j <= i)%nat -> data v (pre ++ [j; c]) = data v' (pre ++ [j; c])) ->
  Rabs (data x (pre ++ [i; c]) - data x' (pre ++ [i; c]))
  <= exp (MultiAttentionBlock.fill - data s (pre ++ [i; i]))
     * sum_n (last_dim (shape s))
         (fun j => Rabs (data v (pre ++ [j; c]) - data v' (pre ++ [j; c]))).
Proof.
  intros Hs Hx Hx' Hps Hpv Hpv' Hi Hcausal Hagree.
  apply attention_masked_ok in Hx as (s1 & s1' & Hs1 & Hm1 & -> & Hx).
  apply attention_masked_ok in Hx' as (s2 & s2' & Hs2 & Hm2 & -> & Hx').
  rewrite Hs in Hs1, Hs2. inversion Hs1; subst s1. inversion Hs2; subst s2.
  rewrite Hm1 in Hm2. inversion Hm2; subst s2'. clear Hs1 Hs2 Hm2.
  destruct (masked_fill_ok _ _ _ _ Hm1) as [Hshape _].
  apply matmul_ok in Hx as [_ Hx]. apply matmul_ok in Hx' as [_ Hx'].
  rewrite Hx, Hx'. unfold batch in *. cbn [softmax shape] in *. rewrite Hshape in *.
  rewrite !(bindex_id _ pre) by assumption.
  set (m := last_dim (shape s)) in *.
  rewrite sum_n_minus.
  eapply Rle_trans; [apply sum_n_Rabs|].
  rewrite sum_n_scal. apply sum_n_le. intros j Hj. cbn beta.
  rewrite <- Rmult_minus_distr_l, Rabs_mult.
  destruct (Nat.le_gt_cases j i) as [Hle|Hgt].
  - rewrite (Hagree j Hle). rewrite Rminus_diag, Rabs_R0. lra.
  - assert (Hb := hidden_weight_bound s s1' mask pre i j Hm1 Hcausal Hi Hgt Hj).
    fold m in Hb. destruct Hb as [Hb0 Hb1].
    rewrite Rabs_pos_eq by exact Hb0.
    apply Rmult_le_compat_r; [apply Rabs_pos | exact Hb1].
Qed.

Lemma sum_n_pos n f : (0 < n)%nat -> (forall j, 0 < f j) -> 0 < sum_n n f.
Proof.
  intros Hn Hf. destruct n as [|n]; [lia|]. simpl.
  assert (0 <= sum_n n f) by (apply sum_n_nonneg; intros; left; apply Hf).
  specialize (Hf n). lra.
Qed.

Lemma softmax_pos t idx : (0 < last_dim (shape t))%nat -> 0 < data (softmax t) idx.
Proof.
  intros H. cbn [softmax data]. apply Rdiv_lt_0_compat; [apply exp_pos|].
  apply sum_n_pos; [assumption|]. intros j. apply exp_pos.
Qed.

Lemma bindex_nil s : bindex s [] = [].
Proof. unfold bindex. simpl. now destruct (rev s). Qed.

Lemma bindex_2_2 pre i j : bindex [2%nat; 2%nat] (pre ++ [i; j]) = [i; j].
Proof. unfold bindex. rewrite rev_app_distr. reflexivity. Qed.

Lemma causal_mask_row i m : causal_row causal_mask i m.
Proof.
  split.
  - intros pre. cbn [causal_mask shape data]. rewrite bindex_2_2.
    now rewrite Nat.leb_refl.
  - intros pre j Hij _. cbn [causal_mask shape data]. rewrite bindex_2_2.
    destruct (Nat.leb_spec j i); [lia | reflexivity].
Qed.

Lemma attention_ex_returns_masked v :
  shape v = [2%nat; 1%nat] ->
  exists x w s s',
    MultiAttentionBlock.attention query_ex key_ex v (Some causal_mask) None = inr (x, w)
    /\ MultiAttentionBlock.scores query_ex key_ex = inr s
    /\ masked_fill s (eq_zero causal_mask) MultiAttentionBlock.fill = inr s'
    /\ shape s = [2%nat; 2%nat] /\ shape s' = [2%nat; 2%nat]
    /\ w = softmax s'
    /\ forall i j, data x [i; j]
                   = 0 + data w [i; 0%nat] * data v [0%nat; j]
                     + data w [i; 1%nat] * data v [1%nat; j].
Proof.
  intros Hv.
  destruct (MultiAttentionBlock.scores query_ex key_ex) as [e|s] eqn:Hs;
    [discriminate Hs|].
  assert (Hshape := scores_ex_shape s Hs).
  destruct (masked_fill s (eq_zero causal_mask) MultiAttentionBlock.fill) as [e|s'] eqn:Hm.
  { revert Hm. unfold masked_fill. rewrite Hshape. cbn. discriminate. }
  destruct (masked_fill_ok _ _ _ _ Hm) as [Hs' _]. rewrite Hshape in Hs'.
  destruct (matmul (softmax s') v) as [e|x] eqn:Hx.
  { revert Hx. unfold matmul, rank. cbn [softmax shape]. rewrite Hs', Hv. cbn. discriminate. }
  exists x, (softmax s'), s, s'.
  split. { unfold MultiAttentionBlock.attention. rewrite Hs. cbn [rbind]. rewrite Hm.
           cbn [rbind]. rewrite Hx. reflexivity. }
  repeat (split; [first [reflexivity | assumption]|]).
  intros i j. apply matmul_ok in Hx as [_ Hx].
  pose proof (Hx [] i j) as E. cbn [app] in E. rewrite E.
  cbn [softmax shape]. rewrite Hs'. rewrite !bindex_nil. reflexivity.
Qed.

(** Claim C7 as stated fails on the example tensors: the two value
    tensors agree on position 0 and differ on position 1, the mask is
    causal, and the outputs at position 0 differ. *)
Lemma causal_mask_future_value_leaks :
  causal_row causal_mask 0 2
  /\ (forall c, data value_ex [0%nat; c] = data value_ex' [0%nat; c])
  /\ exists x w x' w',
       MultiAttentionBlock.attention query_ex key_ex value_ex (Some causal_mask) None
       = inr (x, w)
       /\ MultiAttentionBlock.attention query_ex key_ex value_ex' (Some causal_mask) None
          = inr (x', w')
       /\ data x [0%nat; 0%nat] <> data x' [0%nat; 0%nat].
Proof.
  split; [apply causal_mask_row|]. split; [reflexivity|].
  destruct (attention_ex_returns_masked value_ex eq_refl)
    as (x & w & s & s1 & Hx & Hs & Hm & _ & Hs1 & Hw & Ex).
  destruct (attention_ex_returns_masked value_ex' eq_refl)
    as (x' & w' & s0 & s2 & Hx' & Hs0 & Hm' & _ & _ & Hw' & Ex').
  rewrite Hs in Hs0. inversion Hs0; subst s0. rewrite Hm in Hm'. inversion Hm'; subst s2.
  exists x, w, x', w'. split; [assumption|]. split; [assumption|].
  rewrite Ex, Ex'. subst w w'. cbn [value_ex value_ex' data].
  assert (0 < data (softmax s1) [0%nat; 1%nat])
    by (apply softmax_pos; rewrite Hs1; cbn; lia).
  lra.
Qed.

(** The theorem on the example tensors, at position 0. *)
Lemma causal_mask_bounds_future_values_witness :
  exists s x w x' w',
    MultiAttentionBlock.scores query_ex key_ex = inr s
    /\ MultiAttentionBlock.attention query_ex key_ex value_ex (Some causal_mask) None
       = inr (x, w)
    /\ MultiAttentionBlock.attention query_ex key_ex value_ex' (Some causal_mask) None
       = inr (x', w')
    /\ in_range (batch s) [] /\ in_range (batch value_ex) []
    /\ in_range (batch value_ex') []
    /\ (0 < last_dim (shape s))%nat
    /\ causal_row causal_mask 0 (last_dim (shape s))
    /\ (forall j, (j <= 0)%nat ->
          data value_ex ([] ++ [j; 0%nat]) = data value_ex' ([] ++ [j; 0%nat]))
    /\ Rabs (data x ([] ++ [0%nat; 0%nat]) - data x' ([] ++ [0%nat; 0%nat]))
       <= exp (MultiAttentionBlock.fill - data s ([] ++ [0%nat; 0%nat]))
          * sum_n (last_dim (shape s))
              (fun j => Rabs (data value_ex ([] ++ [j; 0%nat])
                              - data value_ex' ([] ++ [j; 0%nat]))).
Proof.
  destruct (attention_ex_returns_masked value_ex eq_refl)
    as (x & w & s & s1 & Hx & Hs & Hm & Hshape & _ & _ & _).
  destruct (attention_ex_returns_masked value_ex' eq_refl)
    as (x' & w' & s0 & s2 & Hx' & _).
  exists s, x, w, x', w'.
  assert (H1 : in_range (batch s) []) by (unfold batch; rewrite Hshape; constructor).
  assert (H2 : in_range (batch value_ex) []) by constructor.
  assert (H3 : in_range (batch value_ex') []) by constructor.
  assert (H4 : (0 < last_dim (shape s))%nat) by (rewrite Hshape; cbn; lia).
  assert (H5 : causal_row causal_mask 0 (last_dim (shape s))) by apply causal_mask_row.
  assert (H6 : forall j, (j <= 0)%nat ->
            data value_ex ([] ++ [j; 0%nat]) = data value_ex' ([] ++ [j; 0%nat])).
  { intros j Hj. assert (j = 0)%nat as -> by lia. reflexivity. }
  repeat (split; [assumption|]).
  exact (causal_mask_bounds_future_values query_ex key_ex value_ex value_ex' causal_mask
           x w x' w' s [] 0%nat 0%nat Hs Hx Hx' H1 H2 H3 H4 H5 H6).
Defined.

Lemma scores_ok q k s :
  MultiAttentionBlock.scores q k = inr s ->
  exists kt qk,
    transpose (-2) (-1) k = inr kt /\ matmul q kt = inr qk
    /\ s = tmap (fun a => a / sqrt (INR (last_dim (shape q)))) qk.
Proof.
  unfold MultiAttentionBlock.scores. intros H.
  apply rbind_ok in H as (d & Hd & H). apply rbind_ok in H as (kt & Hk & H).
  apply rbind_ok in H as (qk & Hqk & H).
  destruct (shape q) eqn:E; [discriminate|]. inversion Hd; subst d.
  inversion H; subst. eauto.
Qed.

(** In the example the score of position 0 for itself is [-2e9], below
    the fill. *)
Lemma scores_ex_entry s :
  MultiAttentionBlock.scores query_ex key_ex = inr s ->
  data s [0%nat; 0%nat] = -2e9.
Proof.
  intros H. apply scores_ok in H as (kt & qk & Hk & Hqk & ->).
  assert (kt = swap_dims 0 1 key_ex) as -> by (inversion Hk; reflexivity).
  apply matmul_ok in Hqk as [_ Hqk]. cbn [tmap data]. 
  pose proof (Hqk [] 0%nat 0%nat) as E. cbn [app] in E. rewrite E.
  rewrite !bindex_nil.
  change (last_dim (shape query_ex)) with 1%nat.
  cbn [sum_n app query_ex data INR].
  change (data (swap_dims 0 1 key_ex) [0%nat; 0%nat]) with 1.
  rewrite sqrt_1. lra.
Qed.

(** There position 0 gives more than half of its attention to position
    1, which the mask hides. *)
Lemma causal_mask_overridden_example x w :
  MultiAttentionBlock.attention query_ex key_ex value_ex' (Some causal_mask) None
  = inr (x, w) ->
  1 / 2 < data w [0%nat; 1%nat].
Proof.
  intros H. apply attention_masked_ok in H as (s & s' & Hs & Hm & -> & _).
  pose proof (scores_ex_entry s Hs) as E00. pose proof (scores_ex_shape s Hs) as Hshape.
  apply masked_fill_ok in Hm as [Hs' Hd].
  cbn [softmax data]. rewrite Hs', Hshape.
  change (last_dim [2%nat; 2%nat]) with 2%nat. cbn [sum_n].
  change (with_last [0%nat; 1%nat] 0) with [0%nat; 0%nat].
  change (with_last [0%nat; 1%nat] 1) with [0%nat; 1%nat].
  rewrite !Hd. unfold eq_zero, tmap. cbn [shape data causal_mask].
  change (bindex [2%nat; 2%nat] [0%nat; 0%nat]) with [0%nat; 0%nat].
  change (bindex [2%nat; 2%nat] [0%nat; 1%nat]) with [0%nat; 1%nat].
  cbn [Nat.leb Z.eqb]. rewrite E00. unfold MultiAttentionBlock.fill.
  assert (Hlt : exp (-2e9) < exp (-1e9)) by (apply exp_increasing; lra).
  assert (Hp : 0 < exp (-2e9)) by apply exp_pos.
  set (e2 := exp (-2e9)) in *. set (e1 := exp (-1e9)) in *.
  assert (HZ : 0 < / (0 + e2 + e1)) by (apply Rinv_0_lt_compat; lra).
  assert (E : (0 + e2 + e1) * / (0 + e2 + e1) = 1) by (apply Rinv_r; lra).
  unfold Rdiv. nra.
Qed.

(** ** MultiAttentionBlock.attention: the arguments are not written to *)

Lemma preserves_refl σ : preserves σ σ.
Proof. now intros l _. Qed.

Lemma preserves_dom σ0 σ l : preserves σ0 σ -> σ !! l = None -> σ0 !! l = None.
Proof.
  intros H Hl. destruct (σ0 !! l) eqn:E; [|reflexivity].
  rewrite <- (H l) in E by (rewrite E; eauto). congruence.
Qed.

Lemma fresh_none (σ : Store.store) : σ !! fresh (dom σ) = None.
Proof. apply not_elem_of_dom. apply is_fresh. Qed.

Lemma alloc_frame σ0 σ c σ' r :
  preserves σ0 σ -> Store.alloc c σ = (σ', r) ->
  preserves σ0 σ' /\ forall a, r = inr a -> newer σ0 a.
Proof.
  unfold Store.alloc. cbv zeta. intros H E. inversion E; subst; clear E.
  assert (Hf : σ0 !! fresh (dom σ) = None) by (eapply preserves_dom; eauto using fresh_none).
  split.
  - intros l Hl. rewrite lookup_insert_ne; [now apply H|].
    intros <-. rewrite Hf in Hl. now destruct Hl.
  - intros a Ha. inversion Ha; subst. exact Hf.
Qed.

Lemma read_frame r σ σ' x : Store.read r σ = (σ', x) -> σ' = σ.
Proof. unfold Store.read. destruct (σ !! _) as [[]|]; now inversion 1. Qed.

Lemma read_int_frame r σ σ' x : Store.read_int r σ = (σ', x) -> σ' = σ.
Proof. unfold Store.read_int. destruct (σ !! _) as [[]|]; now inversion 1. Qed.

Lemma read_bool_frame r σ σ' x : Store.read_bool r σ = (σ', x) -> σ' = σ.
Proof. unfold Store.read_bool. destruct (σ !! _) as [[]|]; now inversion 1. Qed.

Lemma write_frame σ0 σ r t σ' u :
  preserves σ0 σ -> newer σ0 r -> Store.write r t σ = (σ', u) -> preserves σ0 σ'.
Proof.
  unfold Store.write, newer. intros H Hr E. inversion E; subst; clear E.
  intros l Hl. rewrite lookup_insert_ne; [now apply H|].
  intros <-. rewrite Hr in Hl. now destruct Hl.
Qed.

(** Inversion of a bind of the store monad. *)
Lemma sbind_inv {A B} (m : Store.st A) (f : A -> Store.st B) σ σ' r :
  Store.sbind m f σ = (σ', r) ->
  (exists e, m σ = (σ', inl e) /\ r = inl e)
  \/ (exists σ1 a, m σ = (σ1, inr a) /\ f a σ1 = (σ', r)).
Proof.
  unfold Store.sbind. destruct (m σ) as [σ1 [e|a]]; intros H.
  - inversion H; subst. left. eauto.
  - right. eauto.
Qed.

Lemma framed_bind {A B} σ0 (P : A -> Prop) (Q : B -> Prop) m f :
  framed σ0 P m -> (forall a, P a -> framed σ0 Q (f a)) ->
  framed σ0 Q (Store.sbind m f).
Proof.
  intros Hm Hf σ σ' r Hp E. apply sbind_inv in E as [(e & E & ->)|(σ1 & a & E & E')].
  - destruct (Hm _ _ _ Hp E) as [H _]. split; [assumption | discriminate].
  - destruct (Hm _ _ _ Hp E) as [H HP]. eapply Hf; eauto.
Qed.

Lemma framed_weaken {A} σ0 (P Q : A -> Prop) m :
  (forall a, P a -> Q a) -> framed σ0 P m -> framed σ0 Q m.
Proof. intros HPQ Hm σ σ' r Hp E. destruct (Hm _ _ _ Hp E). split; auto. Qed.

Lemma framed_ret {A} σ0 (P : A -> Prop) a : P a -> framed σ0 P (Store.sret a).
Proof.
  intros Ha σ σ' r Hp E. inversion E; subst. split; [assumption|].
  intros b Hb. inversion Hb; now subst.
Qed.

Lemma framed_lift {A} σ0 (x : result A) : framed σ0 (fun _ => True) (Store.slift x).
Proof. intros σ σ' r Hp E. inversion E; subst. auto. Qed.

Lemma framed_alloc σ0 c : framed σ0 (newer σ0) (Store.alloc c).
Proof. intros σ σ' r Hp E. eapply alloc_frame; eauto. Qed.

Lemma framed_read σ0 r : framed σ0 (fun _ => True) (Store.read r).
Proof. intros σ σ' x Hp E. apply read_frame in E as ->. auto. Qed.

Lemma framed_read_int σ0 r : framed σ0 (fun _ => True) (Store.read_int r).
Proof. intros σ σ' x Hp E. apply read_int_frame in E as ->. auto. Qed.

Lemma framed_read_bool σ0 r : framed σ0 (fun _ => True) (Store.read_bool r).
Proof. intros σ σ' x Hp E. apply read_bool_frame in E as ->. auto. Qed.

Lemma framed_write σ0 r t : newer σ0 r -> framed σ0 (fun _ => True) (Store.write r t).
Proof. intros Hr σ σ' x Hp E. split; [eapply write_frame; eauto | auto]. Qed.

Ltac framed_step :=
  first
    [ eapply framed_bind; [solve [ apply framed_read | apply framed_read_int
                                  | apply framed_read_bool | apply framed_lift ]
                          | intros ? _ ]
    | eapply framed_bind; [apply framed_alloc | intros ? ? ] ].

Lemma framed_transpose_ref σ0 d0 d1 r :
  framed σ0 (fun r' => Store.storage r' = Store.storage r) (Store.transpose_ref d0 d1 r).
Proof.
  unfold Store.transpose_ref. repeat framed_step. now apply framed_ret.
Qed.

Lemma framed_matmul_ref σ0 a b : framed σ0 (newer σ0) (Store.matmul_ref a b).
Proof. unfold Store.matmul_ref. repeat framed_step. apply framed_alloc. Qed.

Lemma framed_div_ref σ0 a c : framed σ0 (newer σ0) (Store.div_ref a c).
Proof. unfold Store.div_ref. repeat framed_step. apply framed_alloc. Qed.

Lemma framed_eq_zero_ref σ0 m : framed σ0 (newer σ0) (Store.eq_zero_ref m).
Proof. unfold Store.eq_zero_ref. repeat framed_step. apply framed_alloc. Qed.

Lemma framed_softmax_ref σ0 a : framed σ0 (newer σ0) (Store.softmax_ref a).
Proof. unfold Store.softmax_ref. repeat framed_step. apply framed_alloc. Qed.

(** The in-place fill is harmless when it is applied to a tensor that
    the call itself allocated. *)
Lemma framed_masked_fill_ σ0 t mask value :
  newer σ0 t -> framed σ0 (newer σ0) (Store.masked_fill_ t mask value).
Proof.
  intros Ht. unfold Store.masked_fill_. repeat framed_step.
  eapply framed_bind; [now apply framed_write | intros _ _].
  now apply framed_ret.
Qed.

Lemma framed_dropout_ref σ0 d a :
  newer σ0 a -> framed σ0 (newer σ0) (Store.dropout_ref d a).
Proof.
  intros Ha. unfold Store.dropout_ref. destruct (Dropout.training d).
  - repeat framed_step. apply framed_alloc.
  - now apply framed_ret.
Qed.

Lemma framed_attention σ0 q k v mask dropout :
  framed σ0 (fun out => newer σ0 out.1 /\ newer σ0 out.2)
    (Store.attention q k v mask dropout).
Proof.
  unfold Store.attention.
  repeat framed_step.
  eapply framed_bind; [apply framed_transpose_ref | intros key_t _].
  eapply framed_bind; [apply framed_matmul_ref | intros qk Hqk].
  eapply framed_bind; [apply framed_div_ref | intros s Hs].
  eapply framed_bind with (P := newer σ0).
  { destruct mask as [m|]; [|now apply framed_ret].
    eapply framed_bind; [apply framed_eq_zero_ref | intros z _].
    now apply framed_masked_fill_. }
  intros s' Hs'.
  eapply framed_bind; [apply framed_softmax_ref | intros w Hw].
  eapply framed_bind with (P := newer σ0).
  { destruct dropout as [d|]; [now apply framed_dropout_ref | now apply framed_ret]. }
  intros w' Hw'.
  eapply framed_bind; [apply framed_matmul_ref | intros x Hx].
  now apply framed_ret.
Qed.

(** Claim C10.  Whatever the store and the arguments, and whether the
    call returns or raises, every tensor that was in the store before the
    call of [attention] is in it afterwards, unchanged: the in-place fill
    writes into the score tensor, which the call allocated itself.  In
    particular the query, key, value and mask are unchanged. *)
Theorem attention_leaves_arguments q k v mask dropout σ :
  preserves σ (Store.attention q k v mask dropout σ).1.
Proof.
  destruct (Store.attention q k v mask dropout σ) as [σ' r] eqn:E.
  exact (proj1 (framed_attention σ q k v mask dropout σ σ' r (preserves_refl σ) E)).
Qed.

Lemma attention_store_example :
  exists σ' x w,
    Store.attention (Store.Ref 1 []) (Store.Ref 2 []) (Store.Ref 3 [])
      (Some (Store.Ref 4 [])) None store_ex = (σ', inr (x, w))
    /\ σ' !! 1%positive = Some (Store.CFloat query_ex)
    /\ σ' !! 2%positive = Some (Store.CFloat key_ex)
    /\ σ' !! 3%positive = Some (Store.CFloat value_ex')
    /\ σ' !! 4%positive = Some (Store.CInt causal_mask).
Proof.
  destruct (Store.attention (Store.Ref 1 []) (Store.Ref 2 []) (Store.Ref 3 [])
              (Some (Store.Ref 4 [])) None store_ex) as [σ' r] eqn:E.
  assert (Hr : exists x w, r = inr (x, w)).
  { apply (f_equal snd) in E. cbn [snd] in E. subst r. eexists. eexists. reflexivity. }
  destruct Hr as (x & w & ->). exists σ', x, w. split; [reflexivity|].
  pose proof (proj1 (framed_attention store_ex (Store.Ref 1 []) (Store.Ref 2 [])
                       (Store.Ref 3 []) (Some (Store.Ref 4 [])) None store_ex σ' _
                       (preserves_refl store_ex) E)) as H.
  repeat split; (rewrite H; [reflexivity | eexists; reflexivity]).
Qed.

(** ** The store model computes the same attention *)

Lemma fresh_ne (σ : Store.store) l c : σ !! l = Some c -> fresh (dom σ) <> l.
Proof. intros H E. rewrite <- E, fresh_none in H. discriminate. Qed.

Lemma holds_alloc σ r t c : holds σ r t -> holds (<[fresh (dom σ) := c]> σ) r t.
Proof.
  intros (base & Hb & Ht). exists base. split; [|assumption].
  rewrite lookup_insert_ne; [assumption|]. eapply fresh_ne; eauto.
Qed.

Lemma holds_new σ t : holds (<[fresh (dom σ) := Store.CFloat t]> σ) (Store.Ref (fresh (dom σ)) []) t.
Proof. exists t. split; [apply lookup_insert_eq | reflexivity]. Qed.

Lemma read_holds σ r t : holds σ r t -> Store.read r σ = (σ, inr t).
Proof. intros (base & Hb & <-). unfold Store.read. now rewrite Hb. Qed.

Lemma sbind_ok {A B} (m : Store.st A) (f : A -> Store.st B) σ σ1 a :
  m σ = (σ1, inr a) -> Store.sbind m f σ = f a σ1.
Proof. intros H. unfold Store.sbind. now rewrite H. Qed.

Lemma sbind_raise {A B} (m : Store.st A) (f : A -> Store.st B) σ σ1 e :
  m σ = (σ1, inl e) -> Store.sbind m f σ = (σ1, inl e).
Proof. intros H. unfold Store.sbind. now rewrite H. Qed.

Lemma sbind_slift {A B} (r : result A) (f : A -> Store.st B) σ :
  Store.sbind (Store.slift r) f σ
  = match r with
    | inl e => (σ, inl e)
    | inr a => f a σ
    end.
Proof. unfold Store.sbind, Store.slift. now destruct r. Qed.

(** An operation that reads its operands and allocates its result. *)
Lemma matmul_ref_spec σ a b x y :
  holds σ a x -> holds σ b y ->
  Store.matmul_ref a b σ
  = match matmul x y with
    | inl e => (σ, inl e)
    | inr z => (<[fresh (dom σ) := Store.CFloat z]> σ, inr (Store.Ref (fresh (dom σ)) []))
    end.
Proof.
  intros Ha Hb. unfold Store.matmul_ref.
  rewrite (sbind_ok _ _ _ _ _ (read_holds _ _ _ Ha)).
  rewrite (sbind_ok _ _ _ _ _ (read_holds _ _ _ Hb)).
  unfold Store.sbind, Store.slift. now destruct (matmul x y).
Qed.

Lemma transpose_ref_spec σ r t d0 d1 :
  holds σ r t ->
  match transpose d0 d1 t with
  | inl e => Store.transpose_ref d0 d1 r σ = (σ, inl e)
  | inr t' => exists r', Store.transpose_ref d0 d1 r σ = (σ, inr r') /\ holds σ r' t'
  end.
Proof.
  intros Hr. unfold Store.transpose_ref, transpose.
  rewrite (sbind_ok _ _ _ _ _ (read_holds _ _ _ Hr)).
  unfold Store.sbind at 1, Store.slift at 1.
  destruct (resolve_dim (rank t) d0) as [e|i]; [reflexivity|]. cbn [rbind].
  unfold Store.sbind at 1, Store.slift at 1.
  destruct (resolve_dim (rank t) d1) as [e|j]; [reflexivity|]. cbn [rbind].
  eexists. split; [reflexivity|].
  destruct Hr as (base & Hb & <-). exists base. split; [exact Hb|].
  cbn [Store.swaps]. unfold Store.through. now rewrite fold_left_app.
Qed.

Lemma holds_insert_ne σ r t l c :
  Store.storage r <> l -> holds σ r t -> holds (<[l := c]> σ) r t.
Proof.
  intros Hne (base & Hb & Ht). exists base. split; [|assumption].
  now rewrite lookup_insert_ne by congruence.
Qed.

Lemma holds_fresh_ne σ r t : holds σ r t -> Store.storage r <> fresh (dom σ).
Proof. intros (base & Hb & _) E. rewrite E, fresh_none in Hb. discriminate. Qed.

Lemma unary_ref_spec σ a x (f : tensor R -> tensor R) :
  holds σ a x ->
  Store.sbind (Store.read a) (fun x => Store.alloc (Store.CFloat (f x))) σ
  = (<[fresh (dom σ) := Store.CFloat (f x)]> σ, inr (Store.Ref (fresh (dom σ)) [])).
Proof. intros Ha. now rewrite (sbind_ok _ _ _ _ _ (read_holds _ _ _ Ha)). Qed.

(** The masking step on the store does what [masked_fill] does. *)
Lemma mask_step_spec σ s ts mask tm :
  holds σ s ts -> Store.swaps s = [] -> holds_mask σ mask tm ->
  match (match tm with
         | Some m => masked_fill ts (eq_zero m) MultiAttentionBlock.fill
         | None => ok ts
         end) with
  | inl e =>
      exists σ', (match mask with
                  | Some m => Store.sbind (Store.eq_zero_ref m)
                                (fun z => Store.masked_fill_ s z MultiAttentionBlock.fill)
                  | None => Store.sret s
                  end) σ = (σ', inl e)
  | inr ts' =>
      exists σ', (match mask with
                  | Some m => Store.sbind (Store.eq_zero_ref m)
                                (fun z => Store.masked_fill_ s z MultiAttentionBlock.fill)
                  | None => Store.sret s
                  end) σ = (σ', inr s)
                 /\ holds σ' s ts'
                 /\ forall r t, Store.storage r <> Store.storage s -> holds σ r t -> holds σ' r t
  end.
Proof.
  intros Hs Hsw Hm. destruct mask as [m|], tm as [t|]; try contradiction.
  - destruct Hm as [Hm Hmsw].
    unfold Store.eq_zero_ref, Store.masked_fill_.
    assert (Hrm : Store.read_int m σ = (σ, inr t)).
    { unfold Store.read_int. rewrite Hm, Hmsw. reflexivity. }
    set (lz := fresh (dom σ)). set (σ1 := <[lz := Store.CBool (eq_zero t)]> σ).
    assert (Hez : Store.sbind (Store.read_int m)
                    (fun x => Store.alloc (Store.CBool (eq_zero x))) σ
                  = (σ1, inr (Store.Ref lz []))).
    { now rewrite (sbind_ok _ _ _ _ _ Hrm). }
    rewrite (sbind_ok _ _ _ _ _ Hez).
    assert (Hs1 : holds σ1 s ts) by (apply holds_alloc; exact Hs).
    rewrite (sbind_ok _ _ _ _ _ (read_holds _ _ _ Hs1)).
    assert (Hrz : Store.read_bool (Store.Ref lz []) σ1 = (σ1, inr (eq_zero t))).
    { unfold Store.read_bool. cbn [Store.storage Store.swaps]. unfold σ1.
      rewrite lookup_insert_eq. reflexivity. }
    rewrite (sbind_ok _ _ _ _ _ Hrz).
    unfold Store.sbind at 1, Store.slift at 1.
    destruct (masked_fill ts (eq_zero t) MultiAttentionBlock.fill) as [e|y]; [eauto|].
    unfold Store.sbind, Store.write, Store.sret. eexists. split; [reflexivity|].
    rewrite Hsw. split.
    + exists y. rewrite Hsw. split; [apply lookup_insert_eq | reflexivity].
    + intros r tr Hne Hr. apply holds_insert_ne; [assumption|]. now apply holds_alloc.
  - exists σ. unfold Store.sret. auto.
Qed.

Lemma dropout_step_spec σ w tw dropout :
  holds σ w tw ->
  exists σ' w',
    (match dropout with
     | Some d => Store.dropout_ref d w
     | None => Store.sret w
     end) σ = (σ', inr w')
    /\ holds σ' w' (match dropout with
                    | Some d => Dropout.forward d tw
                    | None => tw
                    end)
    /\ forall r t, holds σ r t -> holds σ' r t.
Proof.
  intros Hw. destruct dropout as [d|]; [|exists σ, w; unfold Store.sret; auto].
  unfold Store.dropout_ref. destruct (Dropout.training d) eqn:Ht.
  - rewrite (unary_ref_spec σ w tw (Dropout.forward d) Hw).
    eexists. eexists. split; [reflexivity|]. split.
    + apply holds_new.
    + intros r t Hr. now apply holds_alloc.
  - exists σ, w. unfold Store.sret, Dropout.forward. rewrite Ht. auto.
Qed.

(** [Store.attention] computes what [MultiAttentionBlock.attention]
    computes, on the tensors that its arguments hold. *)
Lemma store_attention_refines σ q k v mask dropout tq tk tv tm :
  holds σ q tq -> holds σ k tk -> holds σ v tv -> holds_mask σ mask tm ->
  exists σ' r,
    Store.attention q k v mask dropout σ = (σ', r)
    /\ matches σ' r (MultiAttentionBlock.attention tq tk tv tm dropout).
Proof.
  intros Hq Hk Hv Hm.
  unfold Store.attention, MultiAttentionBlock.attention, MultiAttentionBlock.scores.
  unfold ok.
  rewrite (sbind_ok _ _ _ _ _ (read_holds _ _ _ Hq)).
  rewrite sbind_slift.
  destruct (shape tq) as [|d0 sq] eqn:Eq; [do 2 eexists; split; reflexivity|].
  cbn [rbind].
  set (d_k := last_dim (d0 :: sq)).
  pose proof (transpose_ref_spec σ k tk (-2) (-1) Hk) as Ht.
  destruct (transpose (-2) (-1) tk) as [e|kt]; cbn [rbind].
  { rewrite (sbind_raise _ _ _ _ _ Ht). do 2 eexists; split; reflexivity. }
  destruct Ht as (rk & Ht & Hkt). rewrite (sbind_ok _ _ _ _ _ Ht).
  unfold Store.sbind at 1. rewrite (matmul_ref_spec σ q rk tq kt Hq Hkt).
  destruct (matmul tq kt) as [e|qk]; cbn [rbind]; [do 2 eexists; split; reflexivity|].
  set (l1 := fresh (dom σ)). set (σ1 := <[l1 := Store.CFloat qk]> σ).
  unfold Store.sbind at 1. unfold Store.div_ref.
  rewrite (unary_ref_spec σ1 (Store.Ref l1 []) qk (tmap (fun a => a / sqrt (INR d_k)))
             (holds_new σ qk)).
  set (ts := tmap (fun a => a / sqrt (INR d_k)) qk).
  set (l2 := fresh (dom σ1)). set (σ2 := <[l2 := Store.CFloat ts]> σ1).
  assert (Hs2 : holds σ2 (Store.Ref l2 []) ts) by apply holds_new.
  assert (Hv2 : holds σ2 v tv) by (do 2 apply holds_alloc; exact Hv).
  assert (Hm2 : holds_mask σ2 mask tm).
  { destruct mask as [m|], tm as [t|]; try contradiction; [|exact I].
    destruct Hm as [Hm Hsw]. split; [|exact Hsw].
    unfold σ2, σ1. rewrite !lookup_insert_ne; [exact Hm| |].
    - unfold l1. intros E. rewrite <- E, fresh_none in Hm. discriminate.
    - unfold l2. intros E.
      assert (Hm1 : σ1 !! Store.storage m = Some (Store.CInt t)).
      { unfold σ1. rewrite lookup_insert_ne; [exact Hm|].
        unfold l1. intros E'. rewrite <- E', fresh_none in Hm. discriminate. }
      rewrite <- E, fresh_none in Hm1. discriminate. }
  pose proof (mask_step_spec σ2 (Store.Ref l2 []) ts mask tm Hs2 eq_refl Hm2) as Hstep.
  unfold Store.sbind at 1. unfold ok in Hstep. revert Hstep.
  destruct (match tm with
            | Some m => masked_fill ts (eq_zero m) MultiAttentionBlock.fill
            | None => inr ts
            end) as [e|ts']; cbn [rbind]; intros Hstep; cbv beta iota in Hstep.
  { destruct Hstep as (σ3 & ->). do 2 eexists; split; reflexivity. }
  destruct Hstep as (σ3 & -> & Hs3 & Hkeep).
  assert (Hv3 : holds σ3 v tv).
  { apply Hkeep; [|exact Hv2]. cbn [Store.storage]. unfold l2.
    apply holds_fresh_ne with (t := tv). now apply holds_alloc. }
  unfold Store.sbind at 1. unfold Store.softmax_ref.
  rewrite (unary_ref_spec σ3 (Store.Ref l2 []) ts' softmax Hs3).
  set (l4 := fresh (dom σ3)). set (σ4 := <[l4 := Store.CFloat (softmax ts')]> σ3).
  destruct (dropout_step_spec σ4 (Store.Ref l4 []) (softmax ts') dropout (holds_new σ3 _))
    as (σ5 & rw & Hd & Hw & Hkeep5).
  unfold Store.sbind at 1. rewrite Hd.
  set (w := match dropout with
            | Some d => Dropout.forward d (softmax ts')
            | None => softmax ts'
            end) in *.
  assert (Hv5 : holds σ5 v tv) by (apply Hkeep5; now apply holds_alloc).
  unfold Store.sbind at 1. rewrite (matmul_ref_spec σ5 rw v w tv Hw Hv5).
  destruct (matmul w tv) as [e|x]; cbn [rbind]; [do 2 eexists; split; reflexivity|].
  do 2 eexists. split; [reflexivity|]. split.
  - apply holds_new.
  - now apply holds_alloc.
Qed.

(** ** MultiAttentionBlock.forward: the shape of the output *)

Lemma but_last_length (s : list nat) : length (but_last s) = (length s - 1)%nat.
Proof.
  unfold but_last. destruct (list_eq_nil_dec s) as [->|Hs]; [reflexivity|].
  rewrite (app_removelast_last 0%nat Hs) at 2. rewrite length_app. simpl. lia.
Qed.

Lemma broadcast_rev_length r1 : forall r2 r,
  broadcast_rev r1 r2 = Some r -> length r = Nat.max (length r1) (length r2).
Proof.
  induction r1 as [|a r1 IH]; intros r2 r H.
  - simpl in H. inversion H. reflexivity.
  - destruct r2 as [|b r2]; [simpl in H; inversion H; reflexivity|].
    simpl in H.
    destruct (broadcast_rev r1 r2) as [r'|] eqn:E.
    + assert (exists c, r = c :: r') as [c ->].
      { destruct (a =? b)%nat; [|destruct (a =? 1)%nat; [|destruct (b =? 1)%nat]];
          simpl in H; inversion H; eauto. }
      simpl. f_equal. now apply IH.
    + destruct (a =? b)%nat; [|destruct (a =? 1)%nat; [|destruct (b =? 1)%nat]];
        simpl in H; discriminate.
Qed.

Lemma broadcast_shapes_length s1 s2 s :
  broadcast_shapes s1 s2 = Some s -> length s = Nat.max (length s1) (length s2).
Proof.
  unfold broadcast_shapes. destruct (broadcast_rev _ _) as [r|] eqn:E; [|discriminate].
  intros H. inversion H; subst. rewrite length_rev.
  rewrite (broadcast_rev_length _ _ _ E), !length_rev. reflexivity.
Qed.

Lemma matmul_shape a b c :
  matmul a b = inr c ->
  (2 <= rank a)%nat /\ (2 <= rank b)%nat
  /\ rank c = (Nat.max (rank a) (rank b))
  /\ last_dim (shape c) = last_dim (shape b).
Proof.
  unfold matmul, rank.
  destruct (Nat.ltb_spec (length (shape a)) 2); [discriminate|].
  destruct (Nat.ltb_spec (length (shape b)) 2); [discriminate|].
  cbn [orb]. destruct (negb _); [discriminate|].
  destruct (broadcast_shapes _ _) as [bs|] eqn:E; [|discriminate].
  intros Hm. inversion Hm; subst. cbn [shape].
  apply broadcast_shapes_length in E. rewrite !but_last_length in E.
  repeat split; try assumption.
  - rewrite length_app. simpl. lia.
  - unfold last_dim at 1.
    replace (bs ++ [last_dim (but_last (shape a)); last_dim (shape b)])
      with ((bs ++ [last_dim (but_last (shape a))]) ++ [last_dim (shape b)])
      by now rewrite <- app_assoc.
    apply last_last.
Qed.

Lemma swap_at_length {X} i j (l : list X) : length (swap_at i j l) = length l.
Proof.
  unfold swap_at. destruct (l !! i), (l !! j); try reflexivity.
  now rewrite !length_insert.
Qed.

Lemma transpose_shape {A} d0 d1 (x y : tensor A) :
  transpose d0 d1 x = inr y ->
  exists i j, shape y = swap_at i j (shape x).
Proof.
  unfold transpose. intros H.
  apply rbind_ok in H as (i & _ & H). apply rbind_ok in H as (j & _ & H).
  inversion H; subst. eauto.
Qed.

Lemma transpose_rank {A} d0 d1 (x y : tensor A) :
  transpose d0 d1 x = inr y -> rank y = rank x.
Proof.
  intros H. apply transpose_shape in H as (i & j & E).
  unfold rank. rewrite E. apply swap_at_length.
Qed.

Lemma view_shape s x y : view s x = inr y -> shape y = s.
Proof. unfold view. destruct (_ =? _)%nat; [|discriminate]. now inversion 1. Qed.

(** After the split into heads a tensor has four dimensions, the last
    of which is [d_k]. *)
Lemma split_heads_shape self x y :
  MultiAttentionBlock.split_heads self x = inr y ->
  rank y = 4%nat /\ last_dim (shape y) = Z.to_nat (MultiAttentionBlock.d_k self).
Proof.
  unfold MultiAttentionBlock.split_heads. intros H.
  apply rbind_ok in H as (b & _ & H). apply rbind_ok in H as (s & _ & H).
  apply rbind_ok in H as (x' & Hv & H).
  destruct (_ && _)%bool; [|discriminate]. apply view_shape in Hv.
  unfold transpose, rank in H. rewrite Hv in H. cbn in H. inversion H; subst.
  unfold rank, swap_dims. cbn [shape]. rewrite Hv. split; reflexivity.
Qed.

Lemma Linear_forward_shape l x y :
  Linear.forward l x = inr y ->
  rank y = rank x /\ last_dim (shape x) = Linear.in_features l.
Proof.
  unfold Linear.forward, rank. destruct (shape x) as [|d s] eqn:E; [discriminate|].
  destruct (Nat.eqb_spec (last_dim (d :: s)) (Linear.in_features l)); [|discriminate].
  intros H.
  assert (Hy : shape y = but_last (d :: s) ++ [Linear.out_features l])
    by (inversion H; reflexivity).
  split; [|assumption].
  rewrite Hy, length_app, but_last_length. simpl. lia.
Qed.

Lemma Dropout_forward_shape d x : shape (Dropout.forward d x) = shape x.
Proof. unfold Dropout.forward. now destruct (Dropout.training d). Qed.

Lemma scores_rank q k s :
  MultiAttentionBlock.scores q k = inr s -> rank s = Nat.max (rank q) (rank k).
Proof.
  unfold MultiAttentionBlock.scores. intros H.
  apply rbind_ok in H as (d & _ & H). apply rbind_ok in H as (kt & Hk & H).
  apply rbind_ok in H as (qk & Hqk & H). inversion H; subst.
  apply transpose_rank in Hk. apply matmul_shape in Hqk as (_ & _ & Hr & _).
  unfold rank in *. cbn [tmap shape]. lia.
Qed.

Lemma attention_shape q k v mask dropout x w :
  MultiAttentionBlock.attention q k v mask dropout = inr (x, w) ->
  rank x = Nat.max (Nat.max (rank q) (rank k)) (rank v)
  /\ last_dim (shape x) = last_dim (shape v).
Proof.
  unfold MultiAttentionBlock.attention. intros H.
  apply rbind_ok in H as (s & Hs & H). apply rbind_ok in H as (s' & Hs' & H).
  apply rbind_ok in H as (x0 & Hx & H). inversion H; subst.
  apply scores_rank in Hs.
  assert (E : shape s' = shape s).
  { destruct mask; [now apply masked_fill_ok in Hs' | now inversion Hs']. }
  apply matmul_shape in Hx as (_ & _ & Hr & Hl). split; [|assumption].
  rewrite Hr. f_equal. rewrite <- Hs. unfold rank.
  destruct dropout; [rewrite Dropout_forward_shape|]; cbn [softmax shape]; now rewrite E.
Qed.

Lemma multi_head_output_rank self q k v mask out :
  MultiAttentionBlock.forward self q k v mask = inr out ->
  rank out = 4%nat
  /\ Linear.in_features (MultiAttentionBlock.w_o self)
     = Z.to_nat (MultiAttentionBlock.d_k self).
Proof.
  unfold MultiAttentionBlock.forward. intros H.
  apply rbind_ok in H as (query & _ & H). apply rbind_ok in H as (key & _ & H).
  apply rbind_ok in H as (value & _ & H).
  apply rbind_ok in H as (query' & Hq & H). apply rbind_ok in H as (key' & Hk & H).
  apply rbind_ok in H as (value' & Hv & H).
  apply rbind_ok in H as ([x w] & Ha & H).
  apply split_heads_shape in Hq as [Hq _]. apply split_heads_shape in Hk as [Hk _].
  apply split_heads_shape in Hv as [Hv Hdk].
  apply attention_shape in Ha as [Hr Hl]. rewrite Hq, Hk, Hv in Hr.
  apply Linear_forward_shape in H as [Ho Hin]. split; [now rewrite Ho, Hr|].
  now rewrite <- Hin, Hl.
Qed.

(** Claim C1.  The claim is that the output of
    [MultiAttentionBlock.forward] has the shape (B, S, d_model) of the
    query.  On the code it never has: [forward] applies [w_o] to the
    per-head result without transposing and reshaping it back, so an
    output, when there is one, has four dimensions and not the three of
    the query. *)
Theorem multi_head_output_not_query_shape self q k v mask out :
  rank q = 3%nat ->
  MultiAttentionBlock.forward self q k v mask = inr out ->
  shape out <> shape q.
Proof.
  intros Hq H E. apply multi_head_output_rank in H as [H _].
  unfold rank in *. rewrite E in H. lia.
Qed.

Lemma multi_head_one_head_example :
  exists out,
    MultiAttentionBlock.forward (zero_block 2 1) (input_ex 2) (input_ex 2) (input_ex 2) None
    = inr out
    /\ shape out = [1%nat; 1%nat; 3%nat; 2%nat].
Proof. eexists. split; reflexivity. Qed.

Lemma multi_head_two_heads_example :
  MultiAttentionBlock.forward (zero_block 4 2) (input_ex 4) (input_ex 4) (input_ex 4) None
  = inl RuntimeError.
Proof. reflexivity. Qed.

Lemma multi_head_default_heads_example :
  MultiAttentionBlock.forward (zero_block 512 8) (input_ex 512) (input_ex 512) (input_ex 512)
    None
  = inl RuntimeError.
Proof. reflexivity. Qed.

(** The theorem with one head, [d_model = 2] and a query of shape
    (1, 3, 2). *)
Lemma multi_head_output_not_query_shape_witness :
  rank (input_ex 2) = 3%nat
  /\ exists out,
       MultiAttentionBlock.forward (zero_block 2 1) (input_ex 2) (input_ex 2) (input_ex 2) None
       = inr out
       /\ shape out <> shape (input_ex 2).
Proof.
  split; [reflexivity|].
  destruct multi_head_one_head_example as (out & H & _).
  exists out. split; [exact H|].
  exact (multi_head_output_not_query_shape (zero_block 2 1) (input_ex 2) (input_ex 2)
           (input_ex 2) None out eq_refl H).
Defined.

(** With more than one head the output projection always raises. *)
Lemma multi_head_raises_with_several_heads self q k v mask :
  Linear.in_features (MultiAttentionBlock.w_o self)
  = Z.to_nat (MultiAttentionBlock.d_model self) ->
  MultiAttentionBlock.d_k self
  = (MultiAttentionBlock.d_model self / MultiAttentionBlock.h self)%Z ->
  (0 < MultiAttentionBlock.d_model self)%Z -> (1 < MultiAttentionBlock.h self)%Z ->
  exists e, MultiAttentionBlock.forward self q k v mask = inl e.
Proof.
  intros Hwo Hdk Hd Hh.
  destruct (MultiAttentionBlock.forward self q k v mask) as [e|out] eqn:E; [eauto|].
  apply multi_head_output_rank in E as [_ E]. exfalso.
  rewrite Hwo, Hdk in E.
  assert (MultiAttentionBlock.d_model self / MultiAttentionBlock.h self
          < MultiAttentionBlock.d_model self)%Z by (apply Z.div_lt; lia).
  assert (0 <= MultiAttentionBlock.d_model self / MultiAttentionBlock.h self)%Z
    by (apply Z.div_pos; lia).
  lia.
Qed.

(** ** DecoderBlock and Decoder: which tensor plays which role *)

(** Claim C2.  The claim is that [Decoder.forward] hands each block
    its arguments in the roles the block expects.  On the code, the call
    [layer(x, encoder_output, src_mask, tgt_mask)] binds them by position
    to [(encoder_output, x, tgt_mask, src_mask)]: in a decoder of one
    block the self-attention runs over the encoder output under the
    source mask, and the result differs from the one of the call by
    role. *)
Theorem decoder_passes_arguments_out_of_role :
  let tgt := Trace.Input "tgt" in
  let memory := Trace.Input "encoder_output" in
  let x1 := self_attention_sublayer memory "src_mask" in
  let x2 := cross_attention_sublayer x1 tgt tgt (Trace.LayerNormOf x1) "tgt_mask" in
  let x3 := feed_forward_sublayer x2 in
  Decoder.forward (B := Trace.backend) (Trace.decoder 1) tgt memory "src_mask" "tgt_mask"
  = inr (Trace.LayerNormOf x3)
  /\ Decoder.forward (B := Trace.backend) (Trace.decoder 1) tgt memory "src_mask" "tgt_mask"
     <> Decoder_forward_by_role (B := Trace.backend) (Trace.decoder 1) tgt memory
          "src_mask" "tgt_mask".
Proof.
  split; [reflexivity|]. cbv. discriminate.
Qed.

Lemma decoder_by_role_example :
  let tgt := Trace.Input "tgt" in
  let memory := Trace.Input "encoder_output" in
  let x1 := self_attention_sublayer tgt "tgt_mask" in
  let x2 := cross_attention_sublayer x1 memory memory (Trace.LayerNormOf x1)
              "src_mask" in
  let x3 := feed_forward_sublayer x2 in
  Decoder_forward_by_role (B := Trace.backend) (Trace.decoder 1) tgt memory
    "src_mask" "tgt_mask"
  = inr (Trace.LayerNormOf x3).
Proof. reflexivity. Qed.

(** Claim C3.  The claim is that in the cross-attention sublayer the
    query is the decoder's representation and key and value are the
    encoder output.  On the code the call is
    [cross_attention(encoder_output, encoder_output, x, src_mask)]: query
    and key are the encoder output and the value is the decoder's
    normalised representation. *)
Theorem cross_attention_query_is_encoder_output :
  let memory := Trace.Input "encoder_output" in
  let x := Trace.Input "x" in
  let x1 := self_attention_sublayer x "tgt_mask" in
  let x2 := cross_attention_sublayer x1 memory memory (Trace.LayerNormOf x1)
              "src_mask" in
  let x3 := feed_forward_sublayer x2 in
  DecoderBlock.forward (B := Trace.backend) Trace.block memory x "tgt_mask" "src_mask"
  = inr x3
  /\ DecoderBlock.forward (B := Trace.backend) Trace.block memory x "tgt_mask" "src_mask"
     <> DecoderBlock_forward_as_specified (B := Trace.backend) Trace.block memory x
          "tgt_mask" "src_mask".
Proof.
  split; [reflexivity|]. cbv. discriminate.
Qed.

(** ** build_transformer: which exception *)

Lemma setattr_parameters self name v self' :
  setattr self name v = inr self' -> parameters self' = parameters self.
Proof.
  unfold setattr. destruct (is_key name (parameters self)); [discriminate|].
  destruct v; try (destruct (is_key name (modules self)); [discriminate|]);
    try (destruct (is_key name (buffers self)); try discriminate);
    intros H; inversion H; reflexivity.
Qed.

Lemma setattr_modules self name v self' :
  setattr self name v = inr self' -> name <> "pe"%string \/ (exists x, v = VTensor x) ->
  modules self' !! "pe"%string = modules self !! "pe"%string.
Proof.
  unfold setattr. destruct (is_key name (parameters self)); [discriminate|].
  intros H Hn. destruct v.
  - destruct (is_key name (modules self)); [discriminate|].
    destruct (is_key name (buffers self)); [discriminate|]. now inversion H.
  - destruct (is_key name (modules self)); [discriminate|].
    destruct (is_key name (buffers self)); now inversion H.
  - inversion H; subst; simpl. destruct Hn as [Hn|[x Hx]]; [|discriminate].
    now rewrite lookup_insert_ne.
Qed.

Lemma update_tensor_frame self name f self' :
  update_tensor self name f = inr self' ->
  parameters self' = parameters self /\ modules self' = modules self.
Proof.
  unfold update_tensor. destruct (dict self !! name) as [[]|]; try discriminate.
  - intros H. apply rbind_ok in H as (y & _ & H). now inversion H.
  - destruct (buffers self !! name) as [[]|]; try discriminate.
    intros H. apply rbind_ok in H as (y & _ & H). now inversion H.
Qed.

(** After lines 17 to 31 the instance has no parameter and no submodule
    called [pe]. *)
Lemma init_table_frame d s p st st' self :
  PositionalEncoding.init_table d s p st = (st', inr self) ->
  parameters self = ∅ /\ modules self !! "pe"%string = None.
Proof.
  unfold PositionalEncoding.init_table. intros H. build_inv.
  apply update_tensor_frame in H11 as [P11 M11]. apply update_tensor_frame in H9 as [P9 M9].
  split.
  - rewrite P11, P9.
    rewrite (setattr_parameters _ _ _ _ H4), (setattr_parameters _ _ _ _ H2),
      (setattr_parameters _ _ _ _ H), (setattr_parameters _ _ _ _ H0). reflexivity.
  - rewrite M11, M9.
    rewrite (setattr_modules _ _ _ _ H4) by eauto.
    rewrite (setattr_modules _ _ _ _ H2) by (left; discriminate).
    rewrite (setattr_modules _ _ _ _ H) by (left; discriminate).
    rewrite (setattr_modules _ _ _ _ H0) by (left; discriminate). reflexivity.
Qed.

(** Whenever the table is built, the constructor ends with the
    [KeyError] of [register_buffer]. *)
Lemma PositionalEncoding_init_KeyError d s p st st' self :
  PositionalEncoding.init_table d s p st = (st', inr self) ->
  PositionalEncoding.init d s p st = (st', inl KeyError).
Proof.
  intros E. destruct (init_table_state _ _ _ _ _ _ E) as (Hb & pe & Hpe).
  destruct (init_table_frame _ _ _ _ _ _ E) as [Hp Hm].
  unfold PositionalEncoding.init. unfold bbind at 1. rewrite E.
  unfold bbind, blift, get_tensor, getattr. rewrite Hpe. cbn [rbind ok].
  unfold setattr, is_key. rewrite Hp, Hb, Hm, !lookup_empty.
  unfold ok. cbv beta iota. cbn [dict].
  rewrite lookup_insert_eq. cbv beta iota.
  rewrite register_buffer_pe_raises; [reflexivity | | reflexivity].
  cbn [dict]. rewrite lookup_insert_eq. eauto.
Qed.

(** With sizes that are not negative, an even positive [d_model] and a
    dropout rate between 0 and 1, that is how [build_transformer] ends. *)
Lemma build_transformer_raises_KeyError sv tv ssl tsl d N h p dff st :
  (0 <= sv)%Z -> (0 <= tv)%Z -> (0 <= ssl)%Z -> (0 < d)%Z -> (d mod 2 = 0)%Z ->
  (Qle_bool 0 p && Qle_bool p 1)%bool = true ->
  exists st', build_transformer sv tv ssl tsl d N h p dff st = (st', inl KeyError).
Proof.
  intros Hsv Htv Hs Hd Heven Hp. unfold build_transformer.
  destruct (InputEmbedding_init_ok d sv st Hsv ltac:(lia)) as (st1 & e1 & E1 & _).
  unfold bbind at 1. rewrite E1.
  destruct (InputEmbedding_init_ok d tv st1 Htv ltac:(lia)) as (st2 & e2 & E2 & _).
  unfold bbind at 1. rewrite E2.
  destruct (init_table_returns d ssl p st2 Hd Heven Hs Hp) as (st3 & self & E3).
  unfold bbind at 1. rewrite (PositionalEncoding_init_KeyError _ _ _ _ _ _ E3). eauto.
Qed.

(** * Further properties of the code *)

(** ** LayerNorm.forward: the normalised rows *)


Lemma sum_n_const n c : sum_n n (fun _ => c) = INR n * c.
Proof.
  induction n as [|n IH]; [simpl; lra|].
  rewrite S_INR. cbn [sum_n]. rewrite IH. lra.
Qed.









(** ** MultiAttentionBlock.attention: the weights *)

Lemma with_last_app2 pre i j j' : with_last (pre ++ [i; j]) j' = pre ++ [i; j'].
Proof.
  unfold with_last, but_last.
  replace (pre ++ [i; j]) with ((pre ++ [i]) ++ [j]) by now rewrite <- app_assoc.
  now rewrite removelast_last, <- app_assoc.
Qed.

(** What [attention] computes when no dropout is applied. *)
Lemma attention_ok q k v mask dropout x w :
  MultiAttentionBlock.attention q k v mask dropout = inr (x, w) -> inactive dropout ->
  exists s s',
    MultiAttentionBlock.scores q k = inr s
    /\ match mask with
       | Some m => masked_fill s (eq_zero m) MultiAttentionBlock.fill = inr s'
       | None => s' = s
       end
    /\ shape s' = shape s
    /\ w = softmax s'
    /\ matmul w v = inr x.
Proof.
  unfold MultiAttentionBlock.attention. intros H Hd.
  apply rbind_ok in H as (s & Hs & H). apply rbind_ok in H as (s' & Hs' & H).
  apply rbind_ok in H as (x0 & Hx & H).
  assert (Hw : w = softmax s').
  { inversion H; subst. destruct dropout as [d|]; [|reflexivity].
    unfold Dropout.forward. simpl in Hd. now rewrite Hd. }
  assert (x0 = x) as -> by now inversion H.
  exists s, s'. split; [assumption|].
  assert (Hm : match mask with
               | Some m => masked_fill s (eq_zero m) MultiAttentionBlock.fill = inr s'
               | None => s' = s
               end)
    by (destruct mask; [assumption | now inversion Hs']).
  split; [assumption|]. split.
  - destruct mask; [now apply masked_fill_ok in Hm | now subst].
  - split; [assumption|].
    rewrite Hw. destruct dropout as [d|]; [|assumption].
    unfold Dropout.forward in Hx. simpl in Hd. now rewrite Hd in Hx.
Qed.

Lemma softmax_row_sum t idx :
  (0 < last_dim (shape t))%nat ->
  sum_n (last_dim (shape t)) (fun j => data (softmax t) (with_last idx j)) = 1.
Proof.
  intros Hn. cbn [softmax data].
  set (n := last_dim (shape t)) in *.
  set (Z := sum_n n (fun j => exp (data t (with_last idx j)))).
  assert (HZ : 0 < Z) by (apply sum_n_pos; [assumption | intros; apply exp_pos]).
  rewrite (sum_n_ext _ _ (fun j => / Z * exp (data t (with_last idx j)))).
  - rewrite <- sum_n_scal. fold Z. field. lra.
  - intros j _. unfold Rdiv. rewrite Rmult_comm. f_equal. f_equal.
    apply sum_n_ext. intros j' _. now rewrite with_last_with_last.
Qed.

Lemma softmax_le_1 t idx j :
  (j < last_dim (shape t))%nat -> data (softmax t) (with_last idx j) <= 1.
Proof.
  intros Hj.
  assert (Hn : (0 < last_dim (shape t))%nat) by lia.
  rewrite <- (softmax_row_sum t idx Hn).
  apply (sum_n_ge_term _ (fun j0 => data (softmax t) (with_last idx j0)) j); [|assumption].
  intros j0 _. left. now apply softmax_pos.
Qed.

(** Property X3.  When no dropout is applied, the attention weights that
    [attention] returns are a distribution over the keys: with or without
    a mask, every row adds up to 1 and every weight lies in (0, 1]. *)
Theorem attention_weights_sum_to_one q k v mask dropout x w idx :
  MultiAttentionBlock.attention q k v mask dropout = inr (x, w) ->
  inactive dropout ->
  (0 < last_dim (shape w))%nat ->
  sum_n (last_dim (shape w)) (fun j => data w (with_last idx j)) = 1
  /\ forall j, (j < last_dim (shape w))%nat -> 0 < data w (with_last idx j) <= 1.
Proof.
  intros H Hd Hn. apply attention_ok in H as (s & s' & _ & _ & _ & -> & _); [|assumption].
  cbn [softmax shape] in Hn |- *. split.
  - now apply (softmax_row_sum s' idx).
  - intros j Hj. split; [now apply softmax_pos | now apply softmax_le_1].
Qed.

(** The theorem on the example tensors under the causal mask, at query 0. *)
Lemma attention_weights_sum_to_one_witness :
  exists x w,
    MultiAttentionBlock.attention query_ex key_ex value_ex' (Some causal_mask) None = inr (x, w)
    /\ inactive None
    /\ (0 < last_dim (shape w))%nat
    /\ sum_n (last_dim (shape w)) (fun j => data w (with_last [0%nat; 0%nat] j)) = 1
    /\ forall j, (j < last_dim (shape w))%nat ->
         0 < data w (with_last [0%nat; 0%nat] j) <= 1.
Proof.
  destruct (attention_ex_returns_masked value_ex' eq_refl)
    as (x & w & s & s' & Hx & _ & _ & _ & Hs' & Hw & _).
  assert (Hn : (0 < last_dim (shape w))%nat)
    by (rewrite Hw; cbn [softmax shape]; rewrite Hs'; cbn; lia).
  exists x, w. split; [exact Hx|]. split; [exact I|]. split; [exact Hn|].
  exact (attention_weights_sum_to_one query_ex key_ex value_ex' (Some causal_mask) None
           x w [0%nat; 0%nat] Hx I Hn).
Defined.

(** Property X4.  A query whose row of the mask is zero at every key is
    not left without attention: every score of the row is replaced by
    the same finite fill, so the row attends to all the keys alike, with
    weight [1 / n] each. *)
Theorem attention_hidden_row_is_uniform q k v mask dropout x w idx :
  MultiAttentionBlock.attention q k v (Some mask) dropout = inr (x, w) ->
  inactive dropout ->
  (0 < last_dim (shape w))%nat ->
  (forall j, (j < last_dim (shape w))%nat ->
     data mask (bindex (shape mask) (with_last idx j)) = 0%Z) ->
  forall j, (j < last_dim (shape w))%nat ->
    data w (with_last idx j) = 1 / INR (last_dim (shape w)).
Proof.
  intros H Hd Hn Hmask j Hj.
  apply attention_ok in H as (s & s' & _ & Hm & _ & -> & _); [|assumption].
  apply masked_fill_ok in Hm as [_ Hfill].
  cbn [softmax shape data] in *. set (n := last_dim (shape s')) in *.
  assert (Hrow : forall j0, (j0 < n)%nat -> data s' (with_last idx j0) = MultiAttentionBlock.fill).
  { intros j0 Hj0. rewrite Hfill. unfold eq_zero, tmap. cbn [shape data].
    now rewrite (Hmask j0 Hj0). }
  rewrite (Hrow j Hj).
  rewrite (sum_n_ext _ _ (fun _ => exp MultiAttentionBlock.fill)).
  2:{ intros j0 Hj0. now rewrite with_last_with_last, (Hrow j0 Hj0). }
  rewrite sum_n_const.
  assert (0 < exp MultiAttentionBlock.fill) by apply exp_pos.
  assert (0 < INR n) by (apply lt_0_INR; exact Hn).
  field. lra.
Qed.

Lemma attention_ex_returns_hidden :
  exists x w s',
    MultiAttentionBlock.attention query_ex key_ex value_ex' (Some hidden_row_mask) None
    = inr (x, w)
    /\ shape s' = [2%nat; 2%nat] /\ w = softmax s'.
Proof.
  destruct (MultiAttentionBlock.scores query_ex key_ex) as [e|s] eqn:Hs;
    [discriminate Hs|].
  assert (Hshape := scores_ex_shape s Hs).
  destruct (masked_fill s (eq_zero hidden_row_mask) MultiAttentionBlock.fill) as [e|s'] eqn:Hm.
  { revert Hm. unfold masked_fill. rewrite Hshape. cbn. discriminate. }
  destruct (masked_fill_ok _ _ _ _ Hm) as [Hs' _]. rewrite Hshape in Hs'.
  destruct (matmul (softmax s') value_ex') as [e|x] eqn:Hx.
  { revert Hx. unfold matmul, rank. cbn [softmax shape]. rewrite Hs'. cbn. discriminate. }
  exists x, (softmax s'), s'.
  split; [|split; [assumption | reflexivity]].
  unfold MultiAttentionBlock.attention. rewrite Hs. cbn [rbind]. rewrite Hm.
  cbn [rbind]. rewrite Hx. reflexivity.
Qed.

(** The theorem on the example tensors, at query 0, which the mask hides
    from every key. *)
Lemma attention_hidden_row_is_uniform_witness :
  exists x w,
    MultiAttentionBlock.attention query_ex key_ex value_ex' (Some hidden_row_mask) None
    = inr (x, w)
    /\ inactive None
    /\ (0 < last_dim (shape w))%nat
    /\ (forall j, (j < last_dim (shape w))%nat ->
          data hidden_row_mask (bindex (shape hidden_row_mask) (with_last [0%nat; 0%nat] j))
          = 0%Z)
    /\ forall j, (j < last_dim (shape w))%nat ->
         data w (with_last [0%nat; 0%nat] j) = 1 / INR (last_dim (shape w)).
Proof.
  destruct attention_ex_returns_hidden as (x & w & s' & Hx & Hs' & Hw).
  assert (Hn : (0 < last_dim (shape w))%nat)
    by (rewrite Hw; cbn [softmax shape]; rewrite Hs'; cbn; lia).
  assert (Hm : forall j, (j < last_dim (shape w))%nat ->
            data hidden_row_mask (bindex (shape hidden_row_mask) (with_last [0%nat; 0%nat] j))
            = 0%Z).
  { intros j _. change (with_last [0%nat; 0%nat] j) with ([] ++ [0%nat; j]).
    cbn [hidden_row_mask shape]. rewrite bindex_2_2. reflexivity. }
  exists x, w. split; [exact Hx|]. split; [exact I|]. split; [exact Hn|].
  split; [exact Hm|].
  exact (attention_hidden_row_is_uniform query_ex key_ex value_ex' hidden_row_mask None
           x w [0%nat; 0%nat] Hx I Hn Hm).
Defined.

(** Property X5.  When no dropout is applied, every entry of the output of
    [attention] is a weighted mean of the entries of the value tensor in
    the same column: it lies between any two bounds that hold for those
    entries. *)
Theorem attention_output_within_values q k v mask dropout x w pre i c lo hi :
  MultiAttentionBlock.attention q k v mask dropout = inr (x, w) ->
  inactive dropout ->
  in_range (batch w) pre -> in_range (batch v) pre ->
  (0 < last_dim (shape w))%nat ->
  (forall j, (j < last_dim (shape w))%nat -> lo <= data v (pre ++ [j; c]) <= hi) ->
  lo <= data x (pre ++ [i; c]) <= hi.
Proof.
  intros H Hd Hpw Hpv Hn Hv.
  destruct (attention_ok _ _ _ _ _ _ _ H Hd) as (s & s' & _ & _ & _ & Hw & Hx).
  apply matmul_ok in Hx as [_ Hx]. rewrite Hx.
  rewrite !(bindex_id _ pre) by assumption.
  set (n := last_dim (shape w)) in *.
  assert (Hsum : sum_n n (fun j => data w (pre ++ [i; j])) = 1).
  { rewrite <- (sum_n_ext n (fun j => data w (with_last (pre ++ [i; 0%nat]) j)))
      by (intros j _; now rewrite with_last_app2).
    subst w. cbn [softmax shape] in n. now apply (softmax_row_sum s'). }
  assert (Hpos : forall j, 0 <= data w (pre ++ [i; j])).
  { intros j. subst w. left. apply softmax_pos. exact Hn. }
  split.
  - replace lo with (sum_n n (fun j => data w (pre ++ [i; j]) * lo))
      by (rewrite (sum_n_ext _ _ (fun j => lo * data w (pre ++ [i; j])))
            by (intros; ring); rewrite <- sum_n_scal, Hsum; ring).
    apply sum_n_le. intros j Hj. apply Rmult_le_compat_l; [apply Hpos | apply Hv, Hj].
  - replace hi with (sum_n n (fun j => data w (pre ++ [i; j]) * hi))
      by (rewrite (sum_n_ext _ _ (fun j => hi * data w (pre ++ [i; j])))
            by (intros; ring); rewrite <- sum_n_scal, Hsum; ring).
    apply sum_n_le. intros j Hj. apply Rmult_le_compat_l; [apply Hpos | apply Hv, Hj].
Qed.

(** The theorem on the example tensors, whose values lie between 0 and 1. *)
Lemma attention_output_within_values_witness :
  exists x w,
    MultiAttentionBlock.attention query_ex key_ex value_ex' (Some causal_mask) None = inr (x, w)
    /\ inactive None
    /\ in_range (batch w) [] /\ in_range (batch value_ex') []
    /\ (0 < last_dim (shape w))%nat
    /\ (forall j, (j < last_dim (shape w))%nat -> 0 <= data value_ex' ([] ++ [j; 0%nat]) <= 1)
    /\ 0 <= data x ([] ++ [0%nat; 0%nat]) <= 1.
Proof.
  destruct (attention_ex_returns_masked value_ex' eq_refl)
    as (x & w & s & s' & Hx & _ & _ & _ & Hs' & Hw & _).
  assert (Hshape : shape w = [2%nat; 2%nat]) by (rewrite Hw; exact Hs').
  assert (H1 : in_range (batch w) []) by (unfold batch; rewrite Hshape; constructor).
  assert (H2 : in_range (batch value_ex') []) by constructor.
  assert (Hn : (0 < last_dim (shape w))%nat) by (rewrite Hshape; cbn; lia).
  assert (Hv : forall j, (j < last_dim (shape w))%nat ->
            0 <= data value_ex' ([] ++ [j; 0%nat]) <= 1).
  { intros [|j] _; cbn [app value_ex' data]; lra. }
  exists x, w. repeat (split; [first [assumption | exact I]|]).
  exact (attention_output_within_values query_ex key_ex value_ex' (Some causal_mask) None
           x w [] 0%nat 0%nat 0 1 Hx I H1 H2 Hn Hv).
Defined.

Lemma swap_at_cons {X} i j (a : X) l : swap_at (S i) (S j) (a :: l) = a :: swap_at i j l.
Proof.
  unfold swap_at. cbn [lookup list_lookup]. simpl.
  destruct (l !! i), (l !! j); reflexivity.
Qed.

Lemma swap_at_last_two {X} (pre : list X) a b :
  swap_at (length pre) (S (length pre)) (pre ++ [a; b]) = pre ++ [b; a].
Proof.
  induction pre as [|c pre IH]; [reflexivity|].
  cbn [length app]. now rewrite swap_at_cons, IH.
Qed.

(** [t.transpose(-2, -1)] exchanges the last two dimensions of a tensor
    of rank at least two. *)
Lemma transpose_last_two {A} (t : tensor A) :
  (2 <= rank t)%nat ->
  exists t', transpose (-2) (-1) t = inr t'
             /\ shape t' = batch t ++ [last_dim (shape t); last_dim (but_last (shape t))].
Proof.
  intros Hr. unfold transpose, resolve_dim. cbn [Z.ltb Z.compare].
  set (n := rank t) in *.
  destruct (Z.leb_spec 0 (-2 + Z.of_nat n)); [|lia].
  destruct (Z.ltb_spec (-2 + Z.of_nat n) (Z.of_nat n)); [|lia].
  destruct (Z.leb_spec 0 (-1 + Z.of_nat n)); [|lia].
  destruct (Z.ltb_spec (-1 + Z.of_nat n) (Z.of_nat n)); [|lia].
  cbn [andb rbind ok]. eexists. split; [reflexivity|].
  cbn [swap_dims shape]. unfold batch.
  pose proof (shape_last_two (shape t) Hr) as E.
  set (pre := but_last (but_last (shape t))) in *.
  assert (Hlen : length pre = (n - 2)%nat).
  { unfold pre. rewrite !but_last_length. unfold n, rank. lia. }
  replace (Z.to_nat (-2 + Z.of_nat n)) with (length pre) by lia.
  replace (Z.to_nat (-1 + Z.of_nat n)) with (S (length pre)) by lia.
  rewrite E at 1. apply swap_at_last_two.
Qed.

Lemma last_dim_app2 (pre : list nat) a b :
  last_dim (pre ++ [a; b]) = b /\ last_dim (but_last (pre ++ [a; b])) = a.
Proof. destruct (last_two pre a b) as (_ & H1 & H2). auto. Qed.

(** Property X6.  A query and a key (both of rank at least two) whose last
    dimensions differ are rejected with a [RuntimeError], raised by the
    product [query @ key.transpose(-2, -1)], whatever the value, the mask
    and the dropout are. *)
Theorem attention_rejects_mismatched_widths q k v mask dropout :
  (2 <= rank q)%nat -> (2 <= rank k)%nat ->
  last_dim (shape q) <> last_dim (shape k) ->
  MultiAttentionBlock.attention q k v mask dropout = inl RuntimeError.
Proof.
  intros Hq Hk Hne. unfold MultiAttentionBlock.attention, MultiAttentionBlock.scores.
  destruct (shape q) as [|d0 s0] eqn:Eq; [unfold rank in Hq; rewrite Eq in Hq; simpl in Hq; lia|].
  cbn [rbind ok].
  destruct (transpose_last_two k Hk) as (kt & -> & Hkt). cbn [rbind].
  unfold matmul. unfold rank in *. rewrite Eq.
  assert (Hrk : length (shape kt) = length (shape k)).
  { rewrite Hkt, length_app. unfold batch. rewrite !but_last_length. simpl. lia. }
  rewrite Hrk. rewrite Eq in Hq.
  destruct (Nat.ltb_spec (length (d0 :: s0)) 2); [lia|].
  destruct (Nat.ltb_spec (length (shape k)) 2); [lia|]. cbn [orb].
  rewrite Hkt. destruct (last_dim_app2 (batch k) (last_dim (shape k))
                           (last_dim (but_last (shape k)))) as [_ ->].
  destruct (Nat.eqb_spec (last_dim (d0 :: s0)) (last_dim (shape k))); [contradiction|].
  reflexivity.
Qed.

(** The theorem on the example query and a key of another width. *)
Lemma attention_rejects_mismatched_widths_witness :
  (2 <= rank query_ex)%nat /\ (2 <= rank wide_key_ex)%nat
  /\ last_dim (shape query_ex) <> last_dim (shape wide_key_ex)
  /\ MultiAttentionBlock.attention query_ex wide_key_ex value_ex None None = inl RuntimeError.
Proof.
  assert (H1 : (2 <= rank query_ex)%nat) by (cbv; lia).
  assert (H2 : (2 <= rank wide_key_ex)%nat) by (cbv; lia).
  assert (H3 : last_dim (shape query_ex) <> last_dim (shape wide_key_ex)) by (cbv; lia).
  repeat (split; [assumption|]).
  exact (attention_rejects_mismatched_widths query_ex wide_key_ex value_ex None None H1 H2 H3).
Defined.

(** Property X7.  A key of rank less than two is rejected with an
    [IndexError]: it has no dimension [-2] to transpose (and a query
    without dimensions has no [shape[-1]]). *)
Theorem attention_rejects_flat_key q k v mask dropout :
  (rank k < 2)%nat ->
  MultiAttentionBlock.attention q k v mask dropout = inl IndexError.
Proof.
  intros Hk. unfold MultiAttentionBlock.attention, MultiAttentionBlock.scores.
  destruct (shape q) as [|d0 s0]; [reflexivity|]. cbn [rbind ok].
  unfold transpose, resolve_dim. cbn [Z.ltb Z.compare].
  destruct (Z.leb_spec 0 (-2 + Z.of_nat (rank k))); [lia|]. reflexivity.
Qed.

(** The theorem on the example query and a vector as key. *)
Lemma attention_rejects_flat_key_witness :
  (rank flat_key_ex < 2)%nat
  /\ MultiAttentionBlock.attention query_ex flat_key_ex value_ex None None = inl IndexError.
Proof.
  assert (H1 : (rank flat_key_ex < 2)%nat) by (cbv; lia).
  split; [assumption|].
  exact (attention_rejects_flat_key query_ex flat_key_ex value_ex None None H1).
Defined.

(** ** InputEmbedding.forward and ProjectionLayer.forward *)

Lemma all_indices_spec s : forall idx, In idx (all_indices s) <-> in_range s idx.
Proof.
  unfold in_range. induction s as [|d s IH]; intros idx; cbn [all_indices].
  - split.
    + intros [<-|[]]. constructor.
    + intros H. inversion H. now left.
  - rewrite in_flat_map. split.
    + intros (i & Hi & Hin). apply in_map_iff in Hin as (idx' & <- & Hin').
      apply in_seq in Hi. constructor; [lia | now apply IH].
    + intros H. inversion H as [|i d' idx' s' Hi Hrest]; subst.
      exists i. split; [apply in_seq; lia|].
      apply in_map_iff. exists idx'. split; [reflexivity | now apply IH].
Qed.

Lemma but_last_app1 (l : list nat) j : but_last (l ++ [j]) = l /\ last_dim (l ++ [j]) = j.
Proof. unfold but_last, last_dim. now rewrite removelast_last, last_last. Qed.

(** Property X8.  On token ids that all are rows of the embedding table,
    [InputEmbedding.forward] returns a tensor with one more dimension,
    of size [embedding_dim], whose vector at a position is the row of
    the token there multiplied by [sqrt d_model]. *)
Theorem embedding_forward_in_vocabulary self x V D :
  shape (InputEmbedding.embedding self) = [V; D] ->
  (0 <= InputEmbedding.d_model self)%Z ->
  (forall idx, in_range (shape x) idx -> (0 <= data x idx < Z.of_nat V)%Z) ->
  exists out,
    InputEmbedding.forward self x = inr out
    /\ shape out = shape x ++ [D]
    /\ forall idx j,
         data out (idx ++ [j])
         = data (InputEmbedding.embedding self) [Z.to_nat (data x idx); j]
           * sqrt (IZR (InputEmbedding.d_model self)).
Proof.
  intros Hw Hd Hx. unfold InputEmbedding.forward, F_embedding. rewrite Hw.
  assert (Hall : forallb (fun idx => (0 <=? data x idx)%Z && (data x idx <? Z.of_nat V)%Z)
                   (all_indices (shape x)) = true).
  { apply forallb_forall. intros idx Hin. apply all_indices_spec in Hin.
    specialize (Hx idx Hin).
    destruct (Z.leb_spec 0 (data x idx)); [|lia].
    destruct (Z.ltb_spec (data x idx) (Z.of_nat V)); [reflexivity | lia]. }
  rewrite Hall. cbn [rbind ok].
  destruct (Z.ltb_spec (InputEmbedding.d_model self) 0); [lia|]. cbn [rbind ok].
  eexists. split; [reflexivity|]. split; [reflexivity|].
  intros idx j. cbn [tmap data].
  destruct (but_last_app1 idx j) as [-> ->]. reflexivity.
Qed.

(** Property X9.  A token id that is negative or not less than the number
    of rows of the embedding table makes [InputEmbedding.forward] raise
    an [IndexError], wherever in the input it stands. *)
Theorem embedding_forward_out_of_vocabulary self x V D idx :
  shape (InputEmbedding.embedding self) = [V; D] ->
  in_range (shape x) idx ->
  ~ (0 <= data x idx < Z.of_nat V)%Z ->
  InputEmbedding.forward self x = inl IndexError.
Proof.
  intros Hw Hi Hx. unfold InputEmbedding.forward, F_embedding. rewrite Hw.
  destruct (forallb _ (all_indices (shape x))) eqn:Hall; [|reflexivity].
  exfalso. rewrite forallb_forall in Hall.
  specialize (Hall idx (proj2 (all_indices_spec _ _) Hi)).
  apply andb_prop in Hall as [H1 H2].
  apply Z.leb_le in H1. apply Z.ltb_lt in H2. lia.
Qed.

Lemma tokens_ex_in_vocabulary idx :
  in_range (shape tokens_ex) idx -> (0 <= data tokens_ex idx < Z.of_nat 3)%Z.
Proof.
  intros H. inversion H as [|i a l1 l2 Hi H1]; subst.
  inversion H1 as [|j b l3 l4 Hj H2]; subst. inversion H2; subst.
  destruct j as [|j]; cbn; lia.
Qed.

(** The theorem on the sentence [[0, 2]] and a vocabulary of three tokens. *)
Lemma embedding_forward_in_vocabulary_witness :
  shape (InputEmbedding.embedding embedding_ex) = [3%nat; 2%nat]
  /\ (0 <= InputEmbedding.d_model embedding_ex)%Z
  /\ (forall idx, in_range (shape tokens_ex) idx -> (0 <= data tokens_ex idx < Z.of_nat 3)%Z)
  /\ exists out,
       InputEmbedding.forward embedding_ex tokens_ex = inr out
       /\ shape out = shape tokens_ex ++ [2%nat]
       /\ forall idx j,
            data out (idx ++ [j])
            = data (InputEmbedding.embedding embedding_ex) [Z.to_nat (data tokens_ex idx); j]
              * sqrt (IZR (InputEmbedding.d_model embedding_ex)).
Proof.
  assert (H2 : (0 <= InputEmbedding.d_model embedding_ex)%Z) by (cbn; lia).
  split; [reflexivity|]. split; [exact H2|]. split; [exact tokens_ex_in_vocabulary|].
  exact (embedding_forward_in_vocabulary embedding_ex tokens_ex 3 2 eq_refl H2
           tokens_ex_in_vocabulary).
Defined.

(** The theorem on the sentence [[0, 3]] and a vocabulary of three tokens. *)
Lemma embedding_forward_out_of_vocabulary_witness :
  shape (InputEmbedding.embedding embedding_ex) = [3%nat; 2%nat]
  /\ in_range (shape tokens_ex') [0%nat; 1%nat]
  /\ ~ (0 <= data tokens_ex' [0%nat; 1%nat] < Z.of_nat 3)%Z
  /\ InputEmbedding.forward embedding_ex tokens_ex' = inl IndexError.
Proof.
  assert (H2 : in_range (shape tokens_ex') [0%nat; 1%nat])
    by (repeat constructor).
  assert (H3 : ~ (0 <= data tokens_ex' [0%nat; 1%nat] < Z.of_nat 3)%Z) by (cbn; lia).
  split; [reflexivity|]. split; [exact H2|]. split; [exact H3|].
  exact (embedding_forward_out_of_vocabulary embedding_ex tokens_ex' 3 2 [0%nat; 1%nat]
           eq_refl H2 H3).
Defined.

Lemma Linear_forward_returns l x :
  shape x <> [] -> last_dim (shape x) = Linear.in_features l ->
  exists y, Linear.forward l x = inr y
            /\ shape y = but_last (shape x) ++ [Linear.out_features l].
Proof.
  intros Hs Hl. unfold Linear.forward.
  destruct (shape x) as [|d s] eqn:E; [contradiction|].
  rewrite Hl, Nat.eqb_refl. eexists. split; reflexivity.
Qed.

Lemma Linear_forward_rejects l x :
  last_dim (shape x) <> Linear.in_features l -> Linear.forward l x = inl RuntimeError.
Proof.
  intros Hl. unfold Linear.forward.
  destruct (shape x) as [|d s] eqn:E; [reflexivity|].
  destruct (Nat.eqb_spec (last_dim (d :: s)) (Linear.in_features l)); [contradiction|].
  reflexivity.
Qed.

Lemma log_softmax_normalised t idx :
  (0 < last_dim (shape t))%nat ->
  sum_n (last_dim (shape t)) (fun j => exp (data (log_softmax t) (with_last idx j))) = 1
  /\ forall j, (j < last_dim (shape t))%nat -> data (log_softmax t) (with_last idx j) <= 0.
Proof.
  intros Hn. cbn [log_softmax data]. set (n := last_dim (shape t)) in *.
  set (Z := sum_n n (fun j => exp (data t (with_last idx j)))).
  assert (HZ : 0 < Z) by (apply sum_n_pos; [assumption | intros; apply exp_pos]).
  assert (E : forall j, sum_n n (fun j' => exp (data t (with_last (with_last idx j) j'))) = Z).
  { intros j. apply sum_n_ext. intros j' _. now rewrite with_last_with_last. }
  split.
  - rewrite (sum_n_ext _ _ (fun j => / Z * exp (data t (with_last idx j)))).
    + rewrite <- sum_n_scal. fold Z. field. lra.
    + intros j _. rewrite E. unfold Rminus. rewrite exp_plus, exp_Ropp, exp_ln by assumption.
      ring.
  - intros j Hj. rewrite E.
    assert (Hle : exp (data t (with_last idx j)) <= Z).
    { apply (sum_n_ge_term n (fun j0 => exp (data t (with_last idx j0))) j); [|assumption].
      intros j0 _. left. apply exp_pos. }
    assert (data t (with_last idx j) <= ln Z); [|lra].
    rewrite <- (ln_exp (data t (with_last idx j))).
    destruct Hle as [Hlt|Heq]; [left; apply ln_increasing; [apply exp_pos | assumption]|].
    rewrite Heq. lra.
Qed.

(** Property X10.  On an input whose last dimension is the input width of
    the projection, [ProjectionLayer.forward] returns a tensor whose last
    dimension is the vocabulary; along it the entries are logarithms of a
    distribution: none is positive and their exponentials add up to 1. *)
Theorem projection_is_log_distribution self x idx :
  shape x <> [] ->
  last_dim (shape x) = Linear.in_features (ProjectionLayer.proj self) ->
  (0 < Linear.out_features (ProjectionLayer.proj self))%nat ->
  exists out,
    ProjectionLayer.forward self x = inr out
    /\ shape out = but_last (shape x) ++ [Linear.out_features (ProjectionLayer.proj self)]
    /\ sum_n (Linear.out_features (ProjectionLayer.proj self))
         (fun j => exp (data out (with_last idx j))) = 1
    /\ forall j, (j < Linear.out_features (ProjectionLayer.proj self))%nat ->
         data out (with_last idx j) <= 0.
Proof.
  intros Hs Hl Hv. unfold ProjectionLayer.forward.
  destruct (Linear_forward_returns _ x Hs Hl) as (y & -> & Hy). cbn [rbind ok].
  eexists. split; [reflexivity|]. split; [exact Hy|].
  assert (Hn : last_dim (shape y) = Linear.out_features (ProjectionLayer.proj self)).
  { rewrite Hy. apply but_last_app1. }
  rewrite <- Hn in *. now apply log_softmax_normalised.
Qed.

(** The theorem on an input of shape (1, 3, 2). *)
Lemma projection_is_log_distribution_witness :
  shape (input_ex 2) <> []
  /\ last_dim (shape (input_ex 2)) = Linear.in_features (ProjectionLayer.proj projection_ex)
  /\ (0 < Linear.out_features (ProjectionLayer.proj projection_ex))%nat
  /\ exists out,
       ProjectionLayer.forward projection_ex (input_ex 2) = inr out
       /\ shape out
          = but_last (shape (input_ex 2))
            ++ [Linear.out_features (ProjectionLayer.proj projection_ex)]
       /\ sum_n (Linear.out_features (ProjectionLayer.proj projection_ex))
            (fun j => exp (data out (with_last [0%nat; 0%nat; 0%nat] j))) = 1
       /\ forall j, (j < Linear.out_features (ProjectionLayer.proj projection_ex))%nat ->
            data out (with_last [0%nat; 0%nat; 0%nat] j) <= 0.
Proof.
  assert (H1 : shape (input_ex 2) <> []) by discriminate.
  assert (H3 : (0 < Linear.out_features (ProjectionLayer.proj projection_ex))%nat)
    by (cbn; lia).
  split; [exact H1|]. split; [reflexivity|]. split; [exact H3|].
  exact (projection_is_log_distribution projection_ex (input_ex 2) [0%nat; 0%nat; 0%nat]
           H1 eq_refl H3).
Defined.

(** ** FeedForwardBlock: shapes *)

Lemma random_tensor_ok what dims st st' a :
  random_tensor what dims st = (st', inr a) ->
  shape a = map Z.to_nat dims /\ Forall (fun d => (0 <= d)%Z) dims.
Proof.
  unfold random_tensor. destruct (forallb _ dims) eqn:F; intros H; inversion H; subst.
  split; [reflexivity|]. apply List.Forall_forall. intros d Hd.
  rewrite forallb_forall in F. specialize (F d Hd). now apply Z.leb_le in F.
Qed.

Lemma Linear_init_ok i o st st' l :
  Linear.init i o st = (st', inr l) ->
  Linear.in_features l = Z.to_nat i /\ Linear.out_features l = Z.to_nat o
  /\ (0 <= i)%Z /\ (0 <= o)%Z
  /\ shape (Linear.weight l) = [Z.to_nat o; Z.to_nat i]
  /\ shape (Linear.bias l) = [Z.to_nat o].
Proof.
  unfold Linear.init. intros H. build_inv.
  apply random_tensor_ok in H0 as [Hw Fw]. apply random_tensor_ok in H as [Hb Fb].
  inversion Fw as [|? ? Ho Fw']; subst. inversion Fw' as [|? ? Hi _]; subst.
  cbn [Linear.in_features Linear.out_features Linear.weight Linear.bias].
  auto 10.
Qed.

Lemma FeedForwardBlock_init_ok d dff p st st' self :
  FeedForwardBlock.init d dff p st = (st', inr self) ->
  Linear.in_features (FeedForwardBlock.Linear_1 self) = Z.to_nat d
  /\ Linear.out_features (FeedForwardBlock.Linear_1 self) = Z.to_nat dff
  /\ Linear.in_features (FeedForwardBlock.Linear_2 self) = Z.to_nat dff
  /\ Linear.out_features (FeedForwardBlock.Linear_2 self) = Z.to_nat d.
Proof.
  unfold FeedForwardBlock.init. intros H. build_inv.
  apply Linear_init_ok in H0 as (? & ? & _). apply Linear_init_ok in H1 as (? & ? & _).
  cbn [FeedForwardBlock.Linear_1 FeedForwardBlock.Linear_2]. auto.
Qed.

Lemma but_last_with_width (s : list nat) d : s <> [] -> last_dim s = d -> but_last s ++ [d] = s.
Proof.
  intros Hs <-. unfold but_last, last_dim. symmetry. now apply app_removelast_last.
Qed.

(** Property X11.  A [FeedForwardBlock] built for [d_model] and [d_ff] maps
    a tensor whose last dimension is [d_model] to a tensor of the same
    shape. *)
Theorem feed_forward_keeps_shape d dff p st st' self x :
  FeedForwardBlock.init d dff p st = (st', inr self) ->
  shape x <> [] -> last_dim (shape x) = Z.to_nat d ->
  exists out, FeedForwardBlock.forward self x = inr out /\ shape out = shape x.
Proof.
  intros Hinit Hs Hl. apply FeedForwardBlock_init_ok in Hinit as (I1 & O1 & I2 & O2).
  unfold FeedForwardBlock.forward.
  destruct (Linear_forward_returns (FeedForwardBlock.Linear_1 self) x Hs) as (a & -> & Ha);
    [congruence|].
  cbn [rbind].
  set (b := Dropout.forward (FeedForwardBlock.dropout self) (FeedForwardBlock.relu a)).
  assert (Hb : shape b = but_last (shape x) ++ [Z.to_nat dff]).
  { unfold b. rewrite Dropout_forward_shape. cbn [FeedForwardBlock.relu tmap shape].
    now rewrite Ha, O1. }
  destruct (Linear_forward_returns (FeedForwardBlock.Linear_2 self) b) as (out & -> & Hout).
  - rewrite Hb. now destruct (but_last (shape x)).
  - rewrite Hb, I2. apply but_last_app1.
  - exists out. split; [reflexivity|].
    rewrite Hout, Hb, O2. destruct (but_last_app1 (but_last (shape x)) (Z.to_nat dff)) as [-> _].
    now apply but_last_with_width.
Qed.

(** The theorem on a block with [d_model = 2] and [d_ff = 4] and an input
    of shape (1, 3, 2). *)
Lemma feed_forward_keeps_shape_witness :
  exists st' self,
    FeedForwardBlock.init 2 4 (1 # 10) st0 = (st', inr self)
    /\ shape (input_ex 2) <> [] /\ last_dim (shape (input_ex 2)) = Z.to_nat 2
    /\ exists out, FeedForwardBlock.forward self (input_ex 2) = inr out
                   /\ shape out = shape (input_ex 2).
Proof.
  assert (H2 : shape (input_ex 2) <> []) by discriminate.
  eexists. eexists. split; [reflexivity|]. split; [exact H2|]. split; [reflexivity|].
  exact (feed_forward_keeps_shape 2 4 (1 # 10) st0 _ _ (input_ex 2) eq_refl H2 eq_refl).
Defined.

(** Property X12.  A [FeedForwardBlock] built for [d_model] rejects every
    input whose last dimension is not [d_model] with a [RuntimeError]. *)
Theorem feed_forward_rejects_other_width d dff p st st' self x :
  FeedForwardBlock.init d dff p st = (st', inr self) ->
  last_dim (shape x) <> Z.to_nat d ->
  FeedForwardBlock.forward self x = inl RuntimeError.
Proof.
  intros Hinit Hl. apply FeedForwardBlock_init_ok in Hinit as (I1 & _).
  unfold FeedForwardBlock.forward. rewrite Linear_forward_rejects; [reflexivity|congruence].
Qed.

(** The theorem on a block with [d_model = 2] and an input of shape (1, 3,
    3). *)
Lemma feed_forward_rejects_other_width_witness :
  exists st' self,
    FeedForwardBlock.init 2 4 (1 # 10) st0 = (st', inr self)
    /\ last_dim (shape (input_ex 3)) <> Z.to_nat 2
    /\ FeedForwardBlock.forward self (input_ex 3) = inl RuntimeError.
Proof.
  assert (H2 : last_dim (shape (input_ex 3)) <> Z.to_nat 2) by (cbv; lia).
  eexists. eexists. split; [reflexivity|]. split; [exact H2|].
  exact (feed_forward_rejects_other_width 2 4 (1 # 10) st0 _ _ (input_ex 3) eq_refl H2).
Defined.

(** ** MultiAttentionBlock: the heads and the constructor *)

Lemma unravel_ravel_heads B S H K b s hd j :
  (s < S)%nat -> (hd < H)%nat -> (j < K)%nat ->
  unravel [B; S; (H * K)%nat] (ravel [B; S; H; K] [b; s; hd; j]) = [b; s; (hd * K + j)%nat].
Proof.
  intros Hs Hhd Hj.
  set (D := (H * K)%nat). set (r := (hd * K + j)%nat).
  assert (Hr : (r < D)%nat).
  { unfold r, D. assert ((hd + 1) * K <= H * K)%nat by (apply Nat.mul_le_mono_r; lia). lia. }
  assert (Hsr : (s * D + r < S * D)%nat).
  { assert ((s + 1) * D <= S * D)%nat by (apply Nat.mul_le_mono_r; lia). lia. }
  assert (E : ravel [B; S; H; K] [b; s; hd; j] = (b * (S * D) + (s * D + r))%nat).
  { cbn [ravel numel fold_right]. unfold D, r. lia. }
  rewrite E. cbn [unravel numel fold_right].
  replace (S * (D * 1))%nat with (S * D)%nat by lia.
  replace (D * 1)%nat with D by lia.
  assert (Q1 : ((b * (S * D) + (s * D + r)) / (S * D) = b)%nat)
    by (symmetry; apply Nat.div_unique with (s * D + r)%nat; lia).
  assert (M1 : ((b * (S * D) + (s * D + r)) mod (S * D) = s * D + r)%nat)
    by (symmetry; apply Nat.mod_unique with b; lia).
  rewrite Q1, M1.
  assert (Q2 : ((s * D + r) / D = s)%nat)
    by (symmetry; apply Nat.div_unique with r; lia).
  assert (M2 : ((s * D + r) mod D = r)%nat)
    by (symmetry; apply Nat.mod_unique with s; lia).
  rewrite Q2, M2. now rewrite Nat.div_1_r.
Qed.

(** Property X13.  The split into heads of [MultiAttentionBlock.forward]
    (lines 94 to 96: [view] then [transpose(1, 2)]) turns a tensor of
    shape (B, S, h * d_k) into one of shape (B, h, S, d_k) in which head
    [hd] holds, for every position, the features [hd * d_k] to
    [hd * d_k + d_k - 1] of that position. *)
Theorem split_heads_entry self x B S b s hd j :
  (0 <= MultiAttentionBlock.h self)%Z -> (0 <= MultiAttentionBlock.d_k self)%Z ->
  shape x = [B; S; (Z.to_nat (MultiAttentionBlock.h self)
                    * Z.to_nat (MultiAttentionBlock.d_k self))%nat] ->
  (s < S)%nat -> (hd < Z.to_nat (MultiAttentionBlock.h self))%nat ->
  (j < Z.to_nat (MultiAttentionBlock.d_k self))%nat ->
  exists y,
    MultiAttentionBlock.split_heads self x = inr y
    /\ shape y = [B; Z.to_nat (MultiAttentionBlock.h self); S;
                  Z.to_nat (MultiAttentionBlock.d_k self)]
    /\ data y [b; hd; s; j]
       = data x [b; s; (hd * Z.to_nat (MultiAttentionBlock.d_k self) + j)%nat].
Proof.
  intros Hh Hk Hx Hs Hhd Hj.
  set (H := Z.to_nat (MultiAttentionBlock.h self)) in *.
  set (K := Z.to_nat (MultiAttentionBlock.d_k self)) in *.
  unfold MultiAttentionBlock.split_heads, shape_at. rewrite Hx.
  cbn [lookup list_lookup rbind ok].
  destruct (Z.leb_spec 0 (MultiAttentionBlock.h self)); [|lia].
  destruct (Z.leb_spec 0 (MultiAttentionBlock.d_k self)); [|lia].
  cbn [andb]. fold H K. unfold view. rewrite Hx.
  assert (En : numel [B; S; H; K] = numel [B; S; (H * K)%nat])
    by (cbn [numel fold_right]; lia).
  rewrite En, Nat.eqb_refl. cbn [rbind ok].
  eexists. split; [reflexivity|]. split; [reflexivity|].
  cbn [swap_dims data shape].
  match goal with
  | |- data x (unravel _ (ravel _ ?l)) = _ => change l with [b; s; hd; j]
  end.
  now rewrite unravel_ravel_heads.
Qed.

(** The theorem on two heads of width 2: feature 3 of position 2 is entry
    1 of head 1. *)
Lemma split_heads_entry_witness :
  (0 <= MultiAttentionBlock.h (zero_block 4 2))%Z
  /\ (0 <= MultiAttentionBlock.d_k (zero_block 4 2))%Z
  /\ shape features_ex
     = [1%nat; 3%nat; (Z.to_nat (MultiAttentionBlock.h (zero_block 4 2))
                       * Z.to_nat (MultiAttentionBlock.d_k (zero_block 4 2)))%nat]
  /\ (2 < 3)%nat /\ (1 < Z.to_nat (MultiAttentionBlock.h (zero_block 4 2)))%nat
  /\ (1 < Z.to_nat (MultiAttentionBlock.d_k (zero_block 4 2)))%nat
  /\ exists y,
       MultiAttentionBlock.split_heads (zero_block 4 2) features_ex = inr y
       /\ shape y = [1%nat; Z.to_nat (MultiAttentionBlock.h (zero_block 4 2)); 3%nat;
                     Z.to_nat (MultiAttentionBlock.d_k (zero_block 4 2))]
       /\ data y [0%nat; 1%nat; 2%nat; 1%nat]
          = data features_ex
              [0%nat; 2%nat;
               (1 * Z.to_nat (MultiAttentionBlock.d_k (zero_block 4 2)) + 1)%nat].
Proof.
  assert (H1 : (0 <= MultiAttentionBlock.h (zero_block 4 2))%Z) by (vm_compute; discriminate).
  assert (H2 : (0 <= MultiAttentionBlock.d_k (zero_block 4 2))%Z)
    by (vm_compute; discriminate).
  assert (H4 : (2 < 3)%nat) by lia.
  assert (H5 : (1 < Z.to_nat (MultiAttentionBlock.h (zero_block 4 2)))%nat)
    by (vm_compute; lia).
  assert (H6 : (1 < Z.to_nat (MultiAttentionBlock.d_k (zero_block 4 2)))%nat)
    by (vm_compute; lia).
  split; [exact H1|]. split; [exact H2|]. split; [reflexivity|]. split; [exact H4|].
  split; [exact H5|]. split; [exact H6|].
  exact (split_heads_entry (zero_block 4 2) features_ex 1 3 0 2 1 1 H1 H2 eq_refl H4 H5 H6).
Defined.

Lemma forallb_nonneg_2 a b :
  (0 <= a)%Z -> (0 <= b)%Z -> forallb (fun d => (0 <=? d)%Z) [a; b] = true.
Proof.
  intros Ha Hb. cbn. destruct (Z.leb_spec 0 a); [|lia]. destruct (Z.leb_spec 0 b); [|lia].
  reflexivity.
Qed.

Lemma forallb_nonneg_1 a : (0 <= a)%Z -> forallb (fun d => (0 <=? d)%Z) [a] = true.
Proof. intros Ha. cbn. destruct (Z.leb_spec 0 a); [reflexivity | lia]. Qed.

Lemma Linear_init_returns i o st :
  (0 <= i)%Z -> (0 <= o)%Z ->
  exists st' l, Linear.init i o st = (st', inr l)
                /\ log st' = log st ++ [TensorCreated "Linear.weight" [o; i];
                                        TensorCreated "Linear.bias" [o]].
Proof.
  intros Hi Ho. unfold Linear.init, bbind, random_tensor, bret.
  rewrite (forallb_nonneg_2 o i Ho Hi). cbn [log]. rewrite (forallb_nonneg_1 o Ho).
  eexists. eexists. split; [reflexivity|]. cbn [log]. now rewrite <- app_assoc.
Qed.

Lemma Linear_init_rejects i o st :
  (i < 0)%Z \/ (o < 0)%Z -> Linear.init i o st = (st, inl RuntimeError).
Proof.
  intros H. unfold Linear.init, bbind, random_tensor.
  assert (F : forallb (fun d => (0 <=? d)%Z) [o; i] = false).
  { cbn. destruct (Z.leb_spec 0 o); [|reflexivity]. destruct (Z.leb_spec 0 i); [lia|].
    reflexivity. }
  now rewrite F.
Qed.

Lemma Dropout_init_returns p st :
  (Qle_bool 0 p && Qle_bool p 1)%bool = true ->
  exists st' d, Dropout.init p st = (st', inr d) /\ log st' = log st.
Proof. intros Hp. unfold Dropout.init. rewrite Hp. eexists. eexists. split; reflexivity. Qed.

Lemma Dropout_init_rejects p st :
  (Qle_bool 0 p && Qle_bool p 1)%bool = false -> Dropout.init p st = (st, inl ValueError).
Proof. intros Hp. unfold Dropout.init. now rewrite Hp. Qed.

Lemma Dropout_init_ok p st st' d :
  Dropout.init p st = (st', inr d) -> (Qle_bool 0 p && Qle_bool p 1)%bool = true.
Proof.
  unfold Dropout.init. destruct (_ && _)%bool; [reflexivity|]. discriminate.
Qed.

Lemma MultiAttentionBlock_init_ok d h p st st' self :
  MultiAttentionBlock.init d h p st = (st', inr self) ->
  h <> 0%Z
  /\ MultiAttentionBlock.d_model self = d /\ MultiAttentionBlock.h self = h
  /\ (MultiAttentionBlock.d_k self * MultiAttentionBlock.h self
      = MultiAttentionBlock.d_model self)%Z
  /\ Forall (fun l => Linear.in_features l = Z.to_nat d
                      /\ Linear.out_features l = Z.to_nat d)
       [MultiAttentionBlock.w_q self; MultiAttentionBlock.w_k self;
        MultiAttentionBlock.w_v self; MultiAttentionBlock.w_o self].
Proof.
  unfold MultiAttentionBlock.init.
  destruct (Z.eqb_spec h 0) as [|Hh]; [discriminate|].
  destruct (Z.eqb_spec (d mod h) 0) as [Hm|]; [|discriminate].
  cbn [negb]. intros H. build_inv.
  apply Linear_init_ok in H0 as (? & ? & _). apply Linear_init_ok in H as (? & ? & _).
  apply Linear_init_ok in H1 as (? & ? & _). apply Linear_init_ok in H2 as (? & ? & _).
  cbn [MultiAttentionBlock.d_model MultiAttentionBlock.h MultiAttentionBlock.d_k
       MultiAttentionBlock.w_q MultiAttentionBlock.w_k MultiAttentionBlock.w_v
       MultiAttentionBlock.w_o].
  split; [assumption|]. split; [reflexivity|]. split; [reflexivity|]. split.
  - pose proof (Z.div_mod d h Hh). lia.
  - repeat constructor; assumption.
Qed.

(** Property X14.  A [MultiAttentionBlock] that its constructor returns
    has a number of heads other than zero, [d_k * h = d_model], and four
    linear layers from [d_model] to [d_model]. *)
Theorem multi_head_init_invariant d h p st st' self :
  MultiAttentionBlock.init d h p st = (st', inr self) ->
  h <> 0%Z
  /\ MultiAttentionBlock.d_model self = d /\ MultiAttentionBlock.h self = h
  /\ (MultiAttentionBlock.d_k self * MultiAttentionBlock.h self
      = MultiAttentionBlock.d_model self)%Z
  /\ Forall (fun l => Linear.in_features l = Z.to_nat d
                      /\ Linear.out_features l = Z.to_nat d)
       [MultiAttentionBlock.w_q self; MultiAttentionBlock.w_k self;
        MultiAttentionBlock.w_v self; MultiAttentionBlock.w_o self].
Proof. apply MultiAttentionBlock_init_ok. Qed.

Lemma multi_head_init_returns d h p st :
  h <> 0%Z -> (d mod h = 0)%Z -> (0 <= d)%Z ->
  (Qle_bool 0 p && Qle_bool p 1)%bool = true ->
  exists st' self, MultiAttentionBlock.init d h p st = (st', inr self).
Proof.
  intros Hh Hm Hd Hp. unfold MultiAttentionBlock.init.
  destruct (Z.eqb_spec h 0); [contradiction|].
  destruct (Z.eqb_spec (d mod h) 0); [|contradiction]. cbn [negb].
  destruct (Linear_init_returns d d st Hd Hd) as (st1 & l1 & E1 & _).
  destruct (Linear_init_returns d d st1 Hd Hd) as (st2 & l2 & E2 & _).
  destruct (Linear_init_returns d d st2 Hd Hd) as (st3 & l3 & E3 & _).
  destruct (Linear_init_returns d d st3 Hd Hd) as (st4 & l4 & E4 & _).
  destruct (Dropout_init_returns p st4 Hp) as (st5 & dr & E5 & _).
  unfold bbind at 1. rewrite E1. unfold bbind at 1. rewrite E2.
  unfold bbind at 1. rewrite E3. unfold bbind at 1. rewrite E4.
  unfold bbind at 1. rewrite E5. unfold bret. eauto.
Qed.

(** The theorem on the default configuration, [d_model = 512] and [h = 8]. *)
Lemma multi_head_init_invariant_witness :
  exists st' self,
    MultiAttentionBlock.init 512 8 (1 # 10) st0 = (st', inr self)
    /\ 8%Z <> 0%Z
    /\ MultiAttentionBlock.d_model self = 512%Z /\ MultiAttentionBlock.h self = 8%Z
    /\ (MultiAttentionBlock.d_k self * MultiAttentionBlock.h self
        = MultiAttentionBlock.d_model self)%Z
    /\ Forall (fun l => Linear.in_features l = Z.to_nat 512
                        /\ Linear.out_features l = Z.to_nat 512)
         [MultiAttentionBlock.w_q self; MultiAttentionBlock.w_k self;
          MultiAttentionBlock.w_v self; MultiAttentionBlock.w_o self].
Proof.
  destruct (multi_head_init_returns 512 8 (1 # 10) st0) as (st' & self & E);
    [discriminate | reflexivity | discriminate | reflexivity |].
  exists st', self. split; [exact E|].
  exact (multi_head_init_invariant 512 8 (1 # 10) st0 st' self E).
Defined.

(** Property X15.  The exceptions of [MultiAttentionBlock.__init__], in the
    order in which the constructor meets them: [ZeroDivisionError] for
    [h = 0] (from [d_model % h]), [AssertionError] when [h] does not
    divide [d_model], [RuntimeError] from [nn.Linear] for a negative
    [d_model], [ValueError] from [nn.Dropout] for a rate outside [0, 1]. *)
Theorem multi_head_init_rejects d h p st :
  h = 0%Z \/ (d mod h)%Z <> 0%Z \/ (d < 0)%Z \/ (Qle_bool 0 p && Qle_bool p 1)%bool = false ->
  snd (MultiAttentionBlock.init d h p st)
  = inl (if (h =? 0)%Z then ZeroDivisionError
         else if negb (d mod h =? 0)%Z then AssertionError
         else if (d <? 0)%Z then RuntimeError
         else ValueError).
Proof.
  intros Hbad. unfold MultiAttentionBlock.init.
  destruct (Z.eqb_spec h 0) as [|Hh]; [reflexivity|].
  destruct (Z.eqb_spec (d mod h) 0) as [Hm|]; [|reflexivity].
  cbn [negb].
  destruct (Z.ltb_spec d 0) as [Hd|Hd].
  - unfold bbind at 1. rewrite Linear_init_rejects by auto. reflexivity.
  - assert (Hp : (Qle_bool 0 p && Qle_bool p 1)%bool = false)
      by (destruct Hbad as [?|[?|[?|?]]]; [contradiction | contradiction | lia | assumption]).
    destruct (Linear_init_returns d d st Hd Hd) as (st1 & l1 & E1 & _).
    destruct (Linear_init_returns d d st1 Hd Hd) as (st2 & l2 & E2 & _).
    destruct (Linear_init_returns d d st2 Hd Hd) as (st3 & l3 & E3 & _).
    destruct (Linear_init_returns d d st3 Hd Hd) as (st4 & l4 & E4 & _).
    unfold bbind at 1. rewrite E1. unfold bbind at 1. rewrite E2.
    unfold bbind at 1. rewrite E3. unfold bbind at 1. rewrite E4.
    unfold bbind at 1. rewrite Dropout_init_rejects by assumption. reflexivity.
Qed.

(** The theorem on a dropout rate of 1.5. *)
Lemma multi_head_init_rejects_witness :
  ((8 = 0)%Z \/ (512 mod 8 <> 0)%Z \/ (512 < 0)%Z
   \/ (Qle_bool 0 (3 # 2) && Qle_bool (3 # 2) 1)%bool = false)
  /\ snd (MultiAttentionBlock.init 512 8 (3 # 2) st0)
     = inl (if (8 =? 0)%Z then ZeroDivisionError
            else if negb (512 mod 8 =? 0)%Z then AssertionError
            else if (512 <? 0)%Z then RuntimeError
            else ValueError).
Proof.
  assert (H : (8 = 0)%Z \/ (512 mod 8 <> 0)%Z \/ (512 < 0)%Z
              \/ (Qle_bool 0 (3 # 2) && Qle_bool (3 # 2) 1)%bool = false)
    by (right; right; right; reflexivity).
  split; [exact H|].
  exact (multi_head_init_rejects 512 8 (3 # 2) st0 H).
Defined.

(** ** PositionalEncoding.forward: the table and the input *)

Lemma broadcast_batch B n D :
  broadcast_shapes [B; n; D] [1%nat; n; D] = Some [B; n; D].
Proof.
  unfold broadcast_shapes. cbn [rev app broadcast_rev].
  rewrite !Nat.eqb_refl. cbn [fmap option_fmap option_map].
  destruct (Nat.eqb_spec B 1) as [->|]; [reflexivity|].
  reflexivity.
Qed.

Lemma bindex_batch n D b pos i :
  (pos < n)%nat -> (i < D)%nat -> bindex [1%nat; n; D] [b; pos; i] = [0%nat; pos; i].
Proof.
  intros Hp Hi. unfold bindex. cbn [rev app bindex_rev Nat.eqb].
  destruct (Nat.eqb_spec D 1); destruct (Nat.eqb_spec n 1); cbn [rev app];
    repeat f_equal; lia.
Qed.

(** Property X16.  In evaluation mode, on an input of shape (B, n, D) that
    is not longer than the table ([n <= S]), [PositionalEncoding.forward]
    returns a tensor of the same shape: the input plus row [pos] of the
    table at every position [pos], the same for every element of the
    batch. *)
Theorem positional_forward_adds_table self x pe d B n S D :
  get_tensor self "pe" = inr pe ->
  getattr self "dropout" = inr (VDropout d) ->
  Dropout.training d = false ->
  shape pe = [1%nat; S; D] -> shape x = [B; n; D] -> (n <= S)%nat ->
  exists out,
    PositionalEncoding.forward self x = inr out
    /\ shape out = [B; n; D]
    /\ forall b pos i, (b < B)%nat -> (pos < n)%nat -> (i < D)%nat ->
         data out [b; pos; i] = data x [b; pos; i] + data pe [0%nat; pos; i].
Proof.
  intros Hpe Hdr Heval Hs Hx Hn. unfold PositionalEncoding.forward.
  rewrite Hpe. cbn [rbind]. unfold shape_at. rewrite Hx. cbn [lookup list_lookup rbind ok].
  unfold slice_1. rewrite Hs. cbn [rbind ok]. rewrite Nat.min_l by assumption.
  unfold binop. cbn [shape]. rewrite Hx, broadcast_batch. cbn [rbind ok].
  rewrite Hdr. cbn [rbind ok]. unfold Dropout.forward. rewrite Heval.
  eexists. split; [reflexivity|]. split; [reflexivity|].
  intros b pos i Hb Hpos Hi. cbn [data].
  rewrite bindex_id by (repeat constructor; assumption).
  now rewrite bindex_batch.
Qed.

(** The theorem on a table of three rows and an input of three positions. *)
Lemma positional_forward_adds_table_witness :
  get_tensor (positional_ex table_ex) "pe" = inr table_ex
  /\ getattr (positional_ex table_ex) "dropout"
     = inr (VDropout (Dropout.Make (1 # 10) false (fun _ => true)))
  /\ Dropout.training (Dropout.Make (1 # 10) false (fun _ => true)) = false
  /\ shape table_ex = [1%nat; 3%nat; 2%nat] /\ shape (input_ex 2) = [1%nat; 3%nat; 2%nat]
  /\ (3 <= 3)%nat
  /\ exists out,
       PositionalEncoding.forward (positional_ex table_ex) (input_ex 2) = inr out
       /\ shape out = [1%nat; 3%nat; 2%nat]
       /\ forall b pos i, (b < 1)%nat -> (pos < 3)%nat -> (i < 2)%nat ->
            data out [b; pos; i] = data (input_ex 2) [b; pos; i] + data table_ex [0%nat; pos; i].
Proof.
  assert (H6 : (3 <= 3)%nat) by lia.
  do 5 (split; [reflexivity|]). split; [exact H6|].
  exact (positional_forward_adds_table (positional_ex table_ex) (input_ex 2) table_ex
           (Dropout.Make (1 # 10) false (fun _ => true)) 1 3 3 2
           eq_refl eq_refl eq_refl eq_refl eq_refl H6).
Defined.

Lemma broadcast_rev_mismatch a b r1 r2 :
  a <> b -> a <> 1%nat -> b <> 1%nat -> broadcast_rev (a :: r1) (b :: r2) = None.
Proof.
  intros H1 H2 H3. cbn [broadcast_rev].
  destruct (Nat.eqb_spec a b); [contradiction|].
  destruct (Nat.eqb_spec a 1); [contradiction|].
  destruct (Nat.eqb_spec b 1); [contradiction|]. reflexivity.
Qed.

Lemma broadcast_rev_tail_none a b r1 r2 :
  broadcast_rev r1 r2 = None -> broadcast_rev (a :: r1) (b :: r2) = None.
Proof.
  intros H. cbn [broadcast_rev]. rewrite H.
  destruct (a =? b)%nat; [reflexivity|]. destruct (a =? 1)%nat; [reflexivity|].
  destruct (b =? 1)%nat; reflexivity.
Qed.

(** Property X17.  An input with more positions than the table has rows is
    rejected with a [RuntimeError] (the slice of the table stops at its
    last row and cannot be broadcast), unless the table has exactly one
    row or the input one position. *)
Theorem positional_forward_rejects_long_input self x pe B n S D D' :
  get_tensor self "pe" = inr pe ->
  shape pe = [1%nat; S; D] -> shape x = [B; n; D'] ->
  (S < n)%nat -> S <> 1%nat -> n <> 1%nat ->
  PositionalEncoding.forward self x = inl RuntimeError.
Proof.
  intros Hpe Hs Hx Hn HS Hn1. unfold PositionalEncoding.forward.
  rewrite Hpe. cbn [rbind]. unfold shape_at. rewrite Hx. cbn [lookup list_lookup rbind ok].
  unfold slice_1. rewrite Hs. cbn [rbind ok]. rewrite Nat.min_r by lia.
  unfold binop. cbn [shape]. rewrite Hx. unfold broadcast_shapes. cbn [rev app].
  rewrite broadcast_rev_tail_none; [reflexivity|].
  apply broadcast_rev_mismatch; lia.
Qed.

(** The theorem on a table of three rows and an input of four positions. *)
Lemma positional_forward_rejects_long_input_witness :
  get_tensor (positional_ex table_ex) "pe" = inr table_ex
  /\ shape table_ex = [1%nat; 3%nat; 2%nat] /\ shape long_input_ex = [1%nat; 4%nat; 2%nat]
  /\ (3 < 4)%nat /\ 3%nat <> 1%nat /\ 4%nat <> 1%nat
  /\ PositionalEncoding.forward (positional_ex table_ex) long_input_ex = inl RuntimeError.
Proof.
  assert (H4 : (3 < 4)%nat) by lia.
  assert (H5 : 3%nat <> 1%nat) by lia.
  assert (H6 : 4%nat <> 1%nat) by lia.
  do 3 (split; [reflexivity|]). split; [exact H4|]. split; [exact H5|]. split; [exact H6|].
  exact (positional_forward_rejects_long_input (positional_ex table_ex) long_input_ex table_ex
           1 4 3 2 2 eq_refl eq_refl eq_refl H4 H5 H6).
Defined.

Lemma broadcast_one_row B n D :
  broadcast_shapes [B; n; D] [1%nat; Nat.min n 1; D] = Some [B; n; D].
Proof.
  unfold broadcast_shapes. cbn [rev app broadcast_rev].
  rewrite !Nat.eqb_refl. cbn [fmap option_fmap option_map].
  destruct n as [|n].
  - cbn [Nat.min Nat.eqb]. cbn [fmap option_fmap option_map].
    destruct (Nat.eqb_spec B 1) as [->|]; reflexivity.
  - rewrite Nat.min_r by lia.
    destruct (Nat.eqb_spec (S n) 1) as [->|].
    + cbn [fmap option_fmap option_map]. destruct (Nat.eqb_spec B 1) as [->|]; reflexivity.
    + cbn [Nat.eqb]. cbn [fmap option_fmap option_map].
      destruct (Nat.eqb_spec B 1) as [->|]; reflexivity.
Qed.

Lemma bindex_one_row n D b pos i :
  (i < D)%nat -> (0 < n)%nat -> bindex [1%nat; Nat.min n 1; D] [b; pos; i] = [0%nat; 0%nat; i].
Proof.
  intros Hi Hn. rewrite Nat.min_r by lia.
  unfold bindex. cbn [rev app bindex_rev Nat.eqb].
  destruct (Nat.eqb_spec D 1); cbn [rev app]; repeat f_equal; lia.
Qed.

(** Property X18.  With a table of a single row no input is too long: the
    row is broadcast, and every position of the input gets the encoding
    of position 0. *)
Theorem positional_forward_one_row_table self x pe d B n D :
  get_tensor self "pe" = inr pe ->
  getattr self "dropout" = inr (VDropout d) ->
  Dropout.training d = false ->
  shape pe = [1%nat; 1%nat; D] -> shape x = [B; n; D] ->
  exists out,
    PositionalEncoding.forward self x = inr out
    /\ shape out = [B; n; D]
    /\ forall b pos i, (b < B)%nat -> (pos < n)%nat -> (i < D)%nat ->
         data out [b; pos; i] = data x [b; pos; i] + data pe [0%nat; 0%nat; i].
Proof.
  intros Hpe Hdr Heval Hs Hx. unfold PositionalEncoding.forward.
  rewrite Hpe. cbn [rbind]. unfold shape_at. rewrite Hx. cbn [lookup list_lookup rbind ok].
  unfold slice_1. rewrite Hs. cbn [rbind ok].
  unfold binop. cbn [shape]. rewrite Hx, broadcast_one_row. cbn [rbind ok].
  rewrite Hdr. cbn [rbind ok]. unfold Dropout.forward. rewrite Heval.
  eexists. split; [reflexivity|]. split; [reflexivity|].
  intros b pos i Hb Hpos Hi. cbn [data].
  rewrite bindex_id by (repeat constructor; assumption).
  rewrite bindex_one_row by lia. reflexivity.
Qed.

(** The theorem on a table of one row and an input of four positions. *)
Lemma positional_forward_one_row_table_witness :
  get_tensor (positional_ex one_row_table_ex) "pe" = inr one_row_table_ex
  /\ getattr (positional_ex one_row_table_ex) "dropout"
     = inr (VDropout (Dropout.Make (1 # 10) false (fun _ => true)))
  /\ Dropout.training (Dropout.Make (1 # 10) false (fun _ => true)) = false
  /\ shape one_row_table_ex = [1%nat; 1%nat; 2%nat]
  /\ shape long_input_ex = [1%nat; 4%nat; 2%nat]
  /\ exists out,
       PositionalEncoding.forward (positional_ex one_row_table_ex) long_input_ex = inr out
       /\ shape out = [1%nat; 4%nat; 2%nat]
       /\ forall b pos i, (b < 1)%nat -> (pos < 4)%nat -> (i < 2)%nat ->
            data out [b; pos; i]
            = data long_input_ex [b; pos; i] + data one_row_table_ex [0%nat; 0%nat; i].
Proof.
  do 5 (split; [reflexivity|]).
  exact (positional_forward_one_row_table (positional_ex one_row_table_ex) long_input_ex
           one_row_table_ex (Dropout.Make (1 # 10) false (fun _ => true)) 1 4 2
           eq_refl eq_refl eq_refl eq_refl eq_refl).
Defined.

(** ** The constructors: which exception *)

Lemma bbind_raise {A B} (m : build A) (f : A -> build B) st e :
  snd (m st) = inl e -> snd (bbind m f st) = inl e.
Proof.
  unfold bbind. destruct (m st) as [st' [e'|a]]; cbn [snd]; intros H; [now inversion H | discriminate H].
Qed.

Lemma bbind_created_rejects {B} what dims t (f : tensor R -> build B) st :
  forallb (fun d => (0 <=? d)%Z) dims = false ->
  bbind (created what dims t) f st = (st, inl RuntimeError).
Proof. intros H. unfold bbind, created. now rewrite H. Qed.

Lemma update_tensor_raises self name x f e :
  dict self !! name = Some (VTensor x) -> f x = inl e ->
  update_tensor self name f = inl e.
Proof. intros Hd Hf. unfold update_tensor. now rewrite Hd, Hf. Qed.

(** A dropout rate outside [0, 1] stops the constructor at line 20. *)
Lemma init_table_rejects_rate d s p st :
  (Qle_bool 0 p && Qle_bool p 1)%bool = false ->
  snd (PositionalEncoding.init_table d s p st) = inl ValueError.
Proof.
  intros Hp. unfold PositionalEncoding.init_table. cbv zeta.
  do 2 lift_step. unfold bbind at 1. now rewrite Dropout_init_rejects.
Qed.

(** A negative size stops it at line 23. *)
Lemma init_table_rejects_negative d s p st :
  (Qle_bool 0 p && Qle_bool p 1)%bool = true -> (s < 0)%Z \/ (d < 0)%Z ->
  snd (PositionalEncoding.init_table d s p st) = inl RuntimeError.
Proof.
  intros Hp Hneg. unfold PositionalEncoding.init_table. cbv zeta.
  do 2 lift_step.
  unfold bbind at 1. unfold Dropout.init. rewrite Hp. unfold ok at 1. cbv beta iota.
  lift_step. rewrite bbind_created_rejects; [reflexivity|].
  cbn. destruct (Z.leb_spec 0 s); [|reflexivity]. destruct (Z.leb_spec 0 d); [lia|].
  reflexivity.
Qed.

(** [d_model = 0] stops it at line 27, at the division. *)
Lemma init_table_rejects_zero s p st :
  (Qle_bool 0 p && Qle_bool p 1)%bool = true -> (0 <= s)%Z ->
  snd (PositionalEncoding.init_table 0 s p st) = inl ZeroDivisionError.
Proof.
  intros Hp Hs. unfold PositionalEncoding.init_table. cbv zeta.
  do 2 lift_step.
  unfold bbind at 1. unfold Dropout.init. rewrite Hp. unfold ok at 1. cbv beta iota.
  lift_step.
  created_step (forallb_nonneg_2 s 0 Hs ltac:(lia)). lift_step.
  created_step (forallb_nonneg_1 s Hs).
  created_step (forallb_nonneg_1 ((0 + 1) / 2) ltac:(discriminate)).
  reflexivity.
Qed.

(** For a positive [d_model] the constructor reaches line 31 with the
    sines in place. *)
Lemma init_table_line_31 d s p st :
  (0 < d)%Z -> (0 <= s)%Z -> (Qle_bool 0 p && Qle_bool p 1)%bool = true ->
  exists st1 self1 y1 angles,
    PositionalEncoding.init_table d s p st
    = bbind (blift (update_tensor self1 "pe"
                      (fun pe => setitem_cols 1 pe (tmap cos angles))))
        (fun self => bret self) st1
    /\ dict self1 !! "pe" = Some (VTensor y1)
    /\ shape y1 = [Z.to_nat s; Z.to_nat d]
    /\ shape angles = [Z.to_nat s; ((Z.to_nat d + 2 - 1) / 2)%nat].
Proof.
  intros Hd Hs Hp. unfold PositionalEncoding.init_table. cbv zeta.
  do 2 lift_step.
  unfold bbind at 1. unfold Dropout.init. rewrite Hp. unfold ok at 1. cbv beta iota.
  lift_step.
  assert (F3 : forallb (fun d => (0 <=? d)%Z) [((d + 1) / 2)%Z] = true).
  { apply forallb_nonneg_1. apply Z.div_pos; lia. }
  created_step (forallb_nonneg_2 s d Hs ltac:(lia)). lift_step.
  created_step (forallb_nonneg_1 s Hs). created_step F3.
  destruct (Z.eqb_spec d 0) as [|_]; [lia|].
  match goal with
  | |- context [bbind (bret ?a) ?f ?st] => change (bbind (bret a) f st) with (f a st)
  end. cbv beta.
  set (S := Z.to_nat s). set (D := Z.to_nat d).
  set (position := unsqueeze_1 (arange S 1)).
  set (div_term := tmap exp (tmap (fun a => a * (- ln 10000 / IZR d)) (arange D 2))).
  assert (HP : shape position = [S; 1%nat])
    by (unfold position, unsqueeze_1; cbn [shape]; now rewrite arange_shape).
  assert (HD : shape div_term = [((D + 2 - 1) / 2)%nat]) by reflexivity.
  remember ((D + 2 - 1) / 2)%nat as C eqn:HC.
  assert (Ha : exists angles, binop Rmult position div_term = inr angles
                              /\ shape angles = [S; C]).
  { unfold binop. rewrite HP, HD. unfold broadcast_shapes.
    destruct C as [|[|c]]; cbn; eauto. }
  destruct Ha as (angles & Ea & Hshape). rewrite Ea.
  lift_step.
  destruct (setitem_cols_returns 0 S D (PositionalEncoding.zeros [S; D]) (tmap sin angles)
              eq_refl) as [y1 Hy1].
  { cbn [tmap shape]. rewrite Hshape, HC.
    now replace (D + 1 - 0)%nat with (D + 2 - 1)%nat by lia. }
  match goal with
  | |- context [update_tensor ?self "pe" ?f] =>
      assert (U1 : update_tensor self "pe" f
                   = inr (Make (<["pe" := VTensor y1]> (dict self)) (parameters self)
                            (buffers self) (modules self)))
        by (unfold update_tensor; cbn [dict]; rewrite lookup_insert_eq; fold S D;
            rewrite Hy1; reflexivity)
  end.
  lift_step_with U1. lift_step.
  assert (Hy1s : shape y1 = [S; D]) by (apply setitem_cols_ok in Hy1 as [-> _]; reflexivity).
  eexists. eexists. exists y1, angles. split; [reflexivity|].
  split; [cbn [dict]; apply lookup_insert_eq|]. split; assumption.
Qed.

(** There an odd [d_model] other than 1 does not fit: the cosines have
    one column more than the odd columns of the table. *)
Lemma init_table_positive d s p st :
  (0 < d)%Z -> (0 <= s)%Z -> (Qle_bool 0 p && Qle_bool p 1)%bool = true ->
  if (Z.odd d && (1 <? d)%Z)%bool
  then snd (PositionalEncoding.init_table d s p st) = inl RuntimeError
  else exists st' self, PositionalEncoding.init_table d s p st = (st', inr self).
Proof.
  intros Hd Hs Hp.
  destruct (init_table_line_31 d s p st Hd Hs Hp)
    as (st1 & self1 & y1 & angles & -> & Hpe & Hy1s & Hshape).
  set (S := Z.to_nat s) in *. set (D := Z.to_nat d) in *. set (q := (D / 2)%nat).
  assert (Hpar : (D = 2 * q /\ Z.odd d = false)%nat \/ (D = 2 * q + 1 /\ Z.odd d = true)%nat).
  { pose proof (Nat.div_mod_eq D 2) as E. fold q in E.
    pose proof (Zmod_odd d) as Ho.
    assert (Hm : Z.of_nat (D mod 2) = (d mod 2)%Z).
    { unfold D. rewrite Nat2Z.inj_mod, Z2Nat.id by lia. reflexivity. }
    destruct (Z.odd d); [right | left]; split; try reflexivity; lia. }
  assert (HC1 : ((D + 2 - 1) / 2 = if Z.odd d then q + 1 else q)%nat).
  { destruct Hpar as [[E ->]|[E ->]]; symmetry.
    - apply Nat.div_unique with 1%nat; lia.
    - apply Nat.div_unique with 0%nat; lia. }
  assert (HC2 : ((D + 1 - 1) / 2 = q)%nat) by (unfold q; f_equal; lia).
  destruct (Z.odd d && (1 <? d)%Z)%bool eqn:Hodd.
  - (* an odd d_model, at least 3 *)
    apply andb_prop in Hodd as [Ho Hgt]. apply Z.ltb_lt in Hgt.
    destruct Hpar as [[_ E]|[E _]]; [congruence|]. rewrite Ho in HC1.
    assert (Hq : (1 <= q)%nat) by (unfold D in E; lia).
    assert (Hfail : setitem_cols 1 y1 (tmap cos angles) = inl RuntimeError).
    { unfold setitem_cols. rewrite Hy1s. cbn [tmap shape]. rewrite Hshape, HC2, HC1.
      unfold broadcast_shapes. cbn [rev app broadcast_rev].
      destruct (Nat.eqb_spec (q + 1) q); [lia|].
      destruct (Nat.eqb_spec (q + 1) 1); [lia|].
      destruct (Nat.eqb_spec q 1) as [->|]; [|reflexivity].
      rewrite Nat.eqb_refl. cbn [fmap option_fmap option_map rev app].
      destruct (decide _) as [Heq|]; [|reflexivity]. inversion Heq. }
    apply bbind_raise. unfold blift. cbn [snd].
    now apply update_tensor_raises with y1.
  - (* an even d_model, or d_model = 1 *)
    assert (Hy2 : exists y2, setitem_cols 1 y1 (tmap cos angles) = inr y2).
    { unfold setitem_cols. rewrite Hy1s. cbn [tmap shape]. rewrite Hshape, HC2, HC1.
      destruct Hpar as [[E ->]|[E Ho]].
      - rewrite broadcast_shapes_refl. destruct (decide _); [eauto | contradiction].
      - rewrite Ho in *. cbn [andb] in Hodd. apply Z.ltb_ge in Hodd.
        assert (q = 0)%nat as -> by (unfold D in E; lia).
        unfold broadcast_shapes. cbn [rev app broadcast_rev Nat.add Nat.eqb].
        rewrite Nat.eqb_refl. cbn [fmap option_fmap option_map rev app].
        destruct (decide _); [eauto | contradiction]. }
    destruct Hy2 as [y2 Hy2].
    unfold bbind, blift, update_tensor. rewrite Hpe, Hy2. cbn [rbind ok]. unfold bret. eauto.
Qed.

(** The exception of [PositionalEncoding.__init__], case by case. *)
Lemma PositionalEncoding_init_outcome d s p st :
  snd (PositionalEncoding.init d s p st)
  = inl (if negb (Qle_bool 0 p && Qle_bool p 1) then ValueError
         else if ((s <? 0) || (d <? 0))%Z then RuntimeError
         else if (d =? 0)%Z then ZeroDivisionError
         else if (Z.odd d && (1 <? d)%Z)%bool then RuntimeError
         else KeyError).
Proof.
  unfold PositionalEncoding.init.
  destruct (Qle_bool 0 p && Qle_bool p 1)%bool eqn:Hp; cbn [negb].
  2:{ apply bbind_raise. now apply init_table_rejects_rate. }
  destruct (Z.ltb_spec s 0) as [Hs|Hs]; cbn [orb].
  { apply bbind_raise. apply init_table_rejects_negative; auto. }
  destruct (Z.ltb_spec d 0) as [Hd|Hd].
  { apply bbind_raise. apply init_table_rejects_negative; auto. }
  destruct (Z.eqb_spec d 0) as [->|Hd0].
  { apply bbind_raise. now apply init_table_rejects_zero. }
  pose proof (init_table_positive d s p st ltac:(lia) Hs Hp) as H.
  destruct (Z.odd d && (1 <? d)%Z)%bool.
  - now apply bbind_raise.
  - destruct H as (st' & self & E).
    fold (PositionalEncoding.init d s p).
    now rewrite (PositionalEncoding_init_KeyError _ _ _ _ _ _ E).
Qed.

(** Property X19.  [PositionalEncoding.__init__] never returns, and its
    exception is determined by its arguments: [ValueError] for a dropout
    rate outside [0, 1]; else [RuntimeError] for a negative size; else
    [ZeroDivisionError] for [d_model = 0] (line 27); else [RuntimeError]
    for an odd [d_model] other than 1 (line 31: the cosines have one
    column more than the odd columns of the table); else the [KeyError]
    of [register_buffer]. *)
Theorem positional_init_exception d s p st :
  snd (PositionalEncoding.init d s p st)
  = inl (if negb (Qle_bool 0 p && Qle_bool p 1) then ValueError
         else if ((s <? 0) || (d <? 0))%Z then RuntimeError
         else if (d =? 0)%Z then ZeroDivisionError
         else if (Z.odd d && (1 <? d)%Z)%bool then RuntimeError
         else KeyError).
Proof. apply PositionalEncoding_init_outcome. Qed.

Lemma InputEmbedding_init_rejects d v st :
  (v < 0)%Z \/ (d < 0)%Z -> InputEmbedding.init d v st = (st, inl RuntimeError).
Proof.
  intros H. unfold InputEmbedding.init, bbind, random_tensor.
  assert (F : forallb (fun d => (0 <=? d)%Z) [v; d] = false).
  { cbn. destruct (Z.leb_spec 0 v); [|reflexivity]. destruct (Z.leb_spec 0 d); [lia|].
    reflexivity. }
  now rewrite F.
Qed.

(** The exception of [build_transformer], case by case. *)
Lemma build_transformer_outcome sv tv ssl tsl d N h p dff st :
  snd (build_transformer sv tv ssl tsl d N h p dff st)
  = inl (if ((sv <? 0) || (tv <? 0) || (d <? 0))%Z then RuntimeError
         else if negb (Qle_bool 0 p && Qle_bool p 1) then ValueError
         else if (ssl <? 0)%Z then RuntimeError
         else if (d =? 0)%Z then ZeroDivisionError
         else if (Z.odd d && (1 <? d)%Z)%bool then RuntimeError
         else KeyError).
Proof.
  unfold build_transformer.
  destruct (Z.ltb_spec sv 0) as [Hsv|Hsv]; cbn [orb].
  { apply bbind_raise. rewrite InputEmbedding_init_rejects by auto. reflexivity. }
  destruct (Z.ltb_spec d 0) as [Hd|Hd].
  { rewrite Bool.orb_true_r. apply bbind_raise.
    rewrite InputEmbedding_init_rejects by auto. reflexivity. }
  destruct (InputEmbedding_init_ok d sv st Hsv Hd) as (st1 & e1 & E1 & _).
  unfold bbind at 1. rewrite E1.
  destruct (Z.ltb_spec tv 0) as [Htv|Htv]; cbn [orb].
  { apply bbind_raise. rewrite InputEmbedding_init_rejects by auto. reflexivity. }
  destruct (InputEmbedding_init_ok d tv st1 Htv Hd) as (st2 & e2 & E2 & _).
  unfold bbind at 1. rewrite E2.
  apply bbind_raise. rewrite PositionalEncoding_init_outcome.
  destruct (Z.ltb_spec d 0); [lia|]. now rewrite Bool.orb_false_r.
Qed.

(** Property X20.  The exception that ends [build_transformer], for every
    configuration: [RuntimeError] for a negative vocabulary size or
    [d_model] (the embeddings); else the exception of the first
    [PositionalEncoding].  [N], [h], [d_ff] and the target sequence
    length have no influence on it. *)
Theorem build_transformer_exception sv tv ssl tsl d N h p dff st :
  snd (build_transformer sv tv ssl tsl d N h p dff st)
  = inl (if ((sv <? 0) || (tv <? 0) || (d <? 0))%Z then RuntimeError
         else if negb (Qle_bool 0 p && Qle_bool p 1) then ValueError
         else if (ssl <? 0)%Z then RuntimeError
         else if (d =? 0)%Z then ZeroDivisionError
         else if (Z.odd d && (1 <? d)%Z)%bool then RuntimeError
         else KeyError).
Proof. apply build_transformer_outcome. Qed.

(** ** build_transformer: where the divisibility check is made *)



(** ** The blocks on tensors: an extra dimension *)

Lemma binop_rank f a b c :
  binop f a b = inr c -> rank c = Nat.max (rank a) (rank b).
Proof.
  unfold binop. destruct (broadcast_shapes _ _) as [s|] eqn:E; [|discriminate].
  intros H. inversion H; subst. unfold rank. cbn [shape].
  now apply broadcast_shapes_length.
Qed.

Lemma LayerNorm_forward_shape n x : shape (LayerNorm.forward n x) = shape x.
Proof. reflexivity. Qed.

Lemma FeedForwardBlock_forward_rank self x y :
  FeedForwardBlock.forward self x = inr y -> rank y = rank x.
Proof.
  unfold FeedForwardBlock.forward. intros H. apply rbind_ok in H as (a & Ha & H).
  apply Linear_forward_shape in Ha as [Ha _]. apply Linear_forward_shape in H as [H _].
  rewrite H. unfold rank in *. rewrite Dropout_forward_shape. cbn [FeedForwardBlock.relu tmap shape].
  exact Ha.
Qed.

(** What [ResidualConnection.forward] returns on tensors. *)
Lemma ResidualConnection_forward_ok
    (self : ResidualConnection.t LayerNorm.t Dropout.t) x sublayer out :
  ResidualConnection.forward (B := torch_backend) self x sublayer = inr out ->
  exists y,
    sublayer (LayerNorm.forward (ResidualConnection.norm self) x) = inr y
    /\ binop Rplus x (Dropout.forward (ResidualConnection.dropout self) y) = inr out.
Proof.
  unfold ResidualConnection.forward. cbn [norm_forward dropout_forward add torch_backend].
  cbn [rbind ok]. intros H. apply rbind_ok in H as (y & Hy & H). eauto.
Qed.

Lemma ResidualConnection_forward_rank
    (self : ResidualConnection.t LayerNorm.t Dropout.t) x sublayer out :
  ResidualConnection.forward (B := torch_backend) self x sublayer = inr out ->
  exists y,
    sublayer (LayerNorm.forward (ResidualConnection.norm self) x) = inr y
    /\ rank out = Nat.max (rank x) (rank y).
Proof.
  intros H. apply ResidualConnection_forward_ok in H as (y & Hy & H).
  exists y. split; [assumption|]. apply binop_rank in H. rewrite H.
  unfold rank. now rewrite Dropout_forward_shape.
Qed.

(** Property X21.  When the sublayer returns a tensor of the shape of its
    input, [ResidualConnection.forward] returns a tensor of the shape of
    [x]; in evaluation mode it is [x] plus the sublayer applied to the
    normalised [x]. *)
Theorem residual_keeps_shape (self : ResidualConnection.t LayerNorm.t Dropout.t) x sublayer y :
  sublayer (LayerNorm.forward (ResidualConnection.norm self) x) = inr y ->
  shape y = shape x ->
  Dropout.training (ResidualConnection.dropout self) = false ->
  exists out,
    ResidualConnection.forward (B := torch_backend) self x sublayer = inr out
    /\ shape out = shape x
    /\ forall idx, in_range (shape x) idx -> data out idx = data x idx + data y idx.
Proof.
  intros Hy Hs Heval. unfold ResidualConnection.forward.
  cbn [norm_forward dropout_forward add torch_backend]. cbn [rbind ok].
  rewrite Hy. cbn [rbind ok]. unfold Dropout.forward. rewrite Heval.
  unfold binop. rewrite Hs, broadcast_shapes_refl.
  eexists. split; [reflexivity|]. split; [reflexivity|].
  intros idx Hi. cbn [data]. now rewrite bindex_id.
Qed.

(** The theorem on a sublayer that doubles its input. *)
Lemma residual_keeps_shape_witness :
  (fun t : tensor R => ok (tmap (fun a => 2 * a) t))
    (LayerNorm.forward (ResidualConnection.norm residual_ex) features_ex)
  = inr (tmap (fun a => 2 * a) (LayerNorm.forward default_LayerNorm features_ex))
  /\ shape (tmap (fun a => 2 * a) (LayerNorm.forward default_LayerNorm features_ex))
     = shape features_ex
  /\ Dropout.training (ResidualConnection.dropout residual_ex) = false
  /\ exists out,
       ResidualConnection.forward (B := torch_backend) residual_ex features_ex
         (fun t => ok (tmap (fun a => 2 * a) t)) = inr out
       /\ shape out = shape features_ex
       /\ forall idx, in_range (shape features_ex) idx ->
            data out idx
            = data features_ex idx
              + data (tmap (fun a => 2 * a) (LayerNorm.forward default_LayerNorm features_ex))
                  idx.
Proof.
  do 3 (split; [reflexivity|]).
  exact (residual_keeps_shape residual_ex features_ex
           (fun t => ok (tmap (fun a => 2 * a) t)) _ eq_refl eq_refl eq_refl).
Defined.

Lemma item_ok {X} (l : list X) i x : item l i = inr x -> l !! i = Some x.
Proof. unfold item. destruct (l !! i); [now inversion 1 | discriminate]. Qed.

Lemma EncoderBlock_forward_rank
    (self : EncoderBlock.t LayerNorm.t Dropout.t MultiAttentionBlock.t FeedForwardBlock.t)
    x mask out :
  EncoderBlock.forward (B := torch_backend) self x mask = inr out ->
  rank out = Nat.max (rank x) 4.
Proof.
  unfold EncoderBlock.forward. intros H.
  apply rbind_ok in H as (r0 & _ & H). apply rbind_ok in H as (x1 & H1 & H).
  apply rbind_ok in H as (r1 & _ & H). apply rbind_ok in H as (x2 & H2 & H).
  inversion H; subst x2. clear H.
  apply ResidualConnection_forward_rank in H1 as (y1 & Hy1 & R1).
  apply ResidualConnection_forward_rank in H2 as (y2 & Hy2 & R2).
  cbn [attention_forward ffn_forward torch_backend] in Hy1, Hy2.
  apply multi_head_output_rank in Hy1 as [Hy1 _].
  apply FeedForwardBlock_forward_rank in Hy2.
  unfold rank in *. rewrite LayerNorm_forward_shape in Hy2. lia.
Qed.

(** Property X22.  [EncoderBlock.forward] does not keep the shape of a
    three-dimensional input: the attention sublayer returns four
    dimensions, the residual sum broadcasts [x] against them, and the
    output, when there is one, has four dimensions. *)
Theorem encoder_block_adds_a_dimension
    (self : EncoderBlock.t LayerNorm.t Dropout.t MultiAttentionBlock.t FeedForwardBlock.t)
    x mask out :
  rank x = 3%nat ->
  EncoderBlock.forward (B := torch_backend) self x mask = inr out ->
  rank out = 4%nat.
Proof.
  intros Hx H. apply EncoderBlock_forward_rank in H. rewrite H, Hx. reflexivity.
Qed.

Lemma Encoder_loop_rank
    (layers : list (EncoderBlock.t LayerNorm.t Dropout.t MultiAttentionBlock.t
                      FeedForwardBlock.t)) :
  forall x mask out,
    layers <> [] ->
    Encoder.loop (B := torch_backend) layers x mask = inr out ->
    rank out = Nat.max (rank x) 4.
Proof.
  induction layers as [|layer rest IH]; intros x mask out Hne H; [contradiction|].
  cbn [Encoder.loop] in H. apply rbind_ok in H as (x1 & H1 & H).
  apply EncoderBlock_forward_rank in H1.
  destruct rest as [|layer' rest'].
  - cbn [Encoder.loop] in H. inversion H; subst. exact H1.
  - apply IH in H; [|discriminate]. lia.
Qed.

Lemma Encoder_forward_rank (self : encoder_stack) x mask out :
  Encoder.layers self <> [] ->
  Encoder.forward (B := torch_backend) self x mask = inr out ->
  rank out = Nat.max (rank x) 4.
Proof.
  intros Hne H. unfold Encoder.forward in H. apply rbind_ok in H as (x1 & H1 & H).
  cbn [norm_forward torch_backend] in H. inversion H; subst.
  unfold rank. rewrite LayerNorm_forward_shape.
  exact (Encoder_loop_rank _ _ _ _ Hne H1).
Qed.

(** Property X23.  With at least one encoder block, [Transformer.encode]
    never returns a tensor of shape (batch, seq_len, d_model): what it
    returns has at least four dimensions. *)
Theorem encode_never_returns_three_dimensions (self : Transformer.t) src src_mask out :
  Encoder.layers (Transformer.encoder self) <> [] ->
  Transformer.encode self src src_mask = inr out ->
  (4 <= rank out)%nat.
Proof.
  intros Hne H. unfold Transformer.encode in H.
  apply rbind_ok in H as (e & _ & H). apply rbind_ok in H as (x & _ & H).
  apply Encoder_forward_rank in H; [lia | assumption].
Qed.

Lemma DecoderBlock_forward_rank
    (self : DecoderBlock.t LayerNorm.t Dropout.t MultiAttentionBlock.t FeedForwardBlock.t)
    encoder_output x tgt_mask src_mask out :
  DecoderBlock.forward (B := torch_backend) self encoder_output x tgt_mask src_mask = inr out ->
  rank out = Nat.max (rank x) 4.
Proof.
  unfold DecoderBlock.forward. intros H.
  apply rbind_ok in H as (r0 & _ & H). apply rbind_ok in H as (x1 & H1 & H).
  apply rbind_ok in H as (r1 & _ & H). apply rbind_ok in H as (x2 & H2 & H).
  apply rbind_ok in H as (r2 & _ & H). apply rbind_ok in H as (x3 & H3 & H).
  inversion H; subst x3. clear H.
  apply ResidualConnection_forward_rank in H1 as (y1 & Hy1 & R1).
  apply ResidualConnection_forward_rank in H2 as (y2 & Hy2 & R2).
  apply ResidualConnection_forward_rank in H3 as (y3 & Hy3 & R3).
  cbn [attention_forward ffn_forward torch_backend] in Hy1, Hy2, Hy3.
  apply multi_head_output_rank in Hy1 as [Hy1 _].
  apply multi_head_output_rank in Hy2 as [Hy2 _].
  apply FeedForwardBlock_forward_rank in Hy3.
  unfold rank in *. rewrite LayerNorm_forward_shape in Hy3. lia.
Qed.

Lemma Decoder_loop_rank
    (layers : list (DecoderBlock.t LayerNorm.t Dropout.t MultiAttentionBlock.t
                      FeedForwardBlock.t)) :
  forall x encoder_output src_mask tgt_mask out,
    layers <> [] ->
    Decoder.loop (B := torch_backend) layers x encoder_output src_mask tgt_mask = inr out ->
    (4 <= rank out)%nat.
Proof.
  induction layers as [|layer rest IH]; intros x eo sm tm out Hne H; [contradiction|].
  cbn [Decoder.loop] in H. apply rbind_ok in H as (x1 & H1 & H).
  apply DecoderBlock_forward_rank in H1.
  destruct rest as [|layer' rest'].
  - cbn [Decoder.loop] in H. inversion H; subst. lia.
  - apply IH in H; [assumption | discriminate].
Qed.

(** Property X24.  With at least one decoder block, [Transformer.decode]
    never returns a tensor of shape (batch, seq_len, d_model): what it
    returns has at least four dimensions. *)
Theorem decode_never_returns_three_dimensions (self : Transformer.t)
    encoder_output src_mask tgt tgt_mask out :
  Decoder.layers (Transformer.decoder self) <> [] ->
  Transformer.decode self encoder_output src_mask tgt tgt_mask = inr out ->
  (4 <= rank out)%nat.
Proof.
  intros Hne H. unfold Transformer.decode in H.
  apply rbind_ok in H as (e & _ & H). apply rbind_ok in H as (x & _ & H).
  unfold Decoder.forward in H. apply rbind_ok in H as (x1 & H1 & H).
  cbn [norm_forward torch_backend] in H. inversion H; subst.
  unfold rank. rewrite LayerNorm_forward_shape.
  now apply Decoder_loop_rank in H1.
Qed.

(** The forward pass of the example model, one sublayer at a time. *)
Lemma attention_ex_returns_1 f g h :
  exists y,
    MultiAttentionBlock.forward (zero_block 2 1)
      (Tensor [1%nat; 1%nat; 2%nat] f) (Tensor [1%nat; 1%nat; 2%nat] g)
      (Tensor [1%nat; 1%nat; 2%nat] h) None = inr y
    /\ shape y = [1%nat; 1%nat; 1%nat; 2%nat].
Proof. eexists. split; reflexivity. Qed.

Lemma attention_ex_returns_2 f g h :
  exists y,
    MultiAttentionBlock.forward (zero_block 2 1)
      (Tensor [1%nat; 1%nat; 2%nat] f) (Tensor [1%nat; 1%nat; 2%nat] g)
      (Tensor [1%nat; 1%nat; 1%nat; 2%nat] h) None = inr y
    /\ shape y = [1%nat; 1%nat; 1%nat; 2%nat].
Proof. eexists. split; reflexivity. Qed.

Lemma feed_forward_ex_returns s f :
  s <> [] -> last_dim s = 2%nat ->
  exists y, FeedForwardBlock.forward (zero_feed_forward 2) (Tensor s f) = inr y
            /\ shape y = s.
Proof.
  intros Hs Hl. unfold FeedForwardBlock.forward.
  destruct (Linear_forward_returns (zero_linear 2) (Tensor s f) Hs Hl) as (a & Ea & Ha).
  change (FeedForwardBlock.Linear_1 (zero_feed_forward 2)) with (zero_linear 2).
  change (FeedForwardBlock.Linear_2 (zero_feed_forward 2)) with (zero_linear 2).
  rewrite Ea. cbn [rbind].
  set (b := Dropout.forward _ _).
  assert (Hb : shape b = but_last s ++ [2%nat]).
  { unfold b. rewrite Dropout_forward_shape. cbn [FeedForwardBlock.relu tmap shape].
    exact Ha. }
  destruct (Linear_forward_returns (zero_linear 2) b) as (y & -> & Hy).
  - rewrite Hb. now destruct (but_last s).
  - rewrite Hb. apply but_last_app1.
  - exists y. split; [reflexivity|]. rewrite Hy, Hb.
    destruct (but_last_app1 (but_last s) 2%nat) as [-> _].
    now apply but_last_with_width.
Qed.

Lemma residual_ex_returns x sublayer y s :
  sublayer (LayerNorm.forward default_LayerNorm x) = inr y ->
  broadcast_shapes (shape x) (shape y) = Some s ->
  exists out,
    ResidualConnection.forward (B := torch_backend) residual_ex x sublayer = inr out
    /\ shape out = s.
Proof.
  intros Hy Hs. unfold ResidualConnection.forward.
  cbn [norm_forward dropout_forward add torch_backend ResidualConnection.norm
       ResidualConnection.dropout residual_ex].
  cbn [rbind ok]. rewrite Hy. cbn [rbind ok].
  unfold binop. rewrite Dropout_forward_shape, Hs. eexists. split; reflexivity.
Qed.

Lemma encoder_block_ex_returns f :
  exists out,
    EncoderBlock.forward (B := torch_backend) encoder_block_ex
      (Tensor [1%nat; 1%nat; 2%nat] f) None = inr out
    /\ shape out = [1%nat; 1%nat; 1%nat; 2%nat].
Proof.
  unfold EncoderBlock.forward.
  change (item (EncoderBlock.residual encoder_block_ex) 0) with (ok residual_ex).
  change (item (EncoderBlock.residual encoder_block_ex) 1) with (ok residual_ex).
  cbn [rbind ok attention_forward ffn_forward torch_backend].
  set (x := Tensor [1%nat; 1%nat; 2%nat] f).
  set (g := data (LayerNorm.forward default_LayerNorm x)).
  destruct (attention_ex_returns_1 g g g) as (y & Ey & Hy).
  destruct (residual_ex_returns x
              (fun x => MultiAttentionBlock.forward (zero_block 2 1) x x x None)
              y [1%nat; 1%nat; 1%nat; 2%nat] Ey) as ([s1 f1] & E1 & S1).
  { rewrite Hy. reflexivity. }
  change (EncoderBlock.multi_head_attention encoder_block_ex) with (zero_block 2 1).
  rewrite E1. cbn [rbind]. cbn [shape] in S1. subst s1.
  set (x1 := Tensor [1%nat; 1%nat; 1%nat; 2%nat] f1).
  destruct (feed_forward_ex_returns [1%nat; 1%nat; 1%nat; 2%nat]
              (data (LayerNorm.forward default_LayerNorm x1)))
    as (y2 & Ey2 & Hy2); [discriminate | reflexivity |].
  destruct (residual_ex_returns x1 (FeedForwardBlock.forward (zero_feed_forward 2))
              y2 [1%nat; 1%nat; 1%nat; 2%nat] Ey2) as (x2 & E2 & S2).
  { rewrite Hy2. reflexivity. }
  change (EncoderBlock.feedforward encoder_block_ex) with (zero_feed_forward 2).
  rewrite E2. cbn [rbind]. eauto.
Qed.

(** The theorem on the example block and an input of shape (1, 1, 2). *)
Lemma encoder_block_adds_a_dimension_witness :
  rank memory_ex = 3%nat
  /\ exists out,
       EncoderBlock.forward (B := torch_backend) encoder_block_ex memory_ex None = inr out
       /\ rank out = 4%nat.
Proof.
  split; [reflexivity|].
  destruct (encoder_block_ex_returns (data memory_ex)) as (out & H & _).
  exists out. split; [exact H|].
  exact (encoder_block_adds_a_dimension encoder_block_ex memory_ex None out eq_refl H).
Defined.

Lemma embedding_ex_returns :
  exists t, InputEmbedding.forward embedding_ex token_ex = inr t
            /\ shape t = [1%nat; 1%nat; 2%nat].
Proof. eexists. split; reflexivity. Qed.

Lemma positional_ex_returns f :
  exists t,
    PositionalEncoding.forward (positional_ex table_ex) (Tensor [1%nat; 1%nat; 2%nat] f)
    = inr t
    /\ shape t = [1%nat; 1%nat; 2%nat].
Proof. eexists. split; reflexivity. Qed.

Lemma encode_example :
  exists out,
    Transformer.encode transformer_ex token_ex None = inr out
    /\ shape out = [1%nat; 1%nat; 1%nat; 2%nat].
Proof.
  unfold Transformer.encode.
  change (Transformer.src_emb transformer_ex) with embedding_ex.
  change (Transformer.src_pos transformer_ex) with (positional_ex table_ex).
  change (Transformer.encoder transformer_ex)
    with (Encoder.Make [encoder_block_ex] default_LayerNorm).
  destruct embedding_ex_returns as ([s1 f1] & -> & S1). cbn [shape] in S1. subst s1.
  cbn [rbind].
  destruct (positional_ex_returns f1) as ([s2 f2] & -> & S2). cbn [shape] in S2. subst s2.
  cbn [rbind].
  unfold Encoder.forward. cbn [Encoder.layers Encoder.norm Encoder.loop].
  destruct (encoder_block_ex_returns f2) as (x & -> & Hx).
  cbn [rbind ok norm_forward torch_backend].
  eexists. split; [reflexivity|]. exact Hx.
Qed.

(** The theorem on the example model and a sentence of one token. *)
Lemma encode_never_returns_three_dimensions_witness :
  Encoder.layers (Transformer.encoder transformer_ex) <> []
  /\ exists out,
       Transformer.encode transformer_ex token_ex None = inr out
       /\ (4 <= rank out)%nat.
Proof.
  assert (H1 : Encoder.layers (Transformer.encoder transformer_ex) <> []) by discriminate.
  split; [exact H1|].
  destruct encode_example as (out & H & _).
  exists out. split; [exact H|].
  exact (encode_never_returns_three_dimensions transformer_ex token_ex None out H1 H).
Defined.

Lemma decoder_block_ex_returns f g :
  exists out,
    DecoderBlock.forward (B := torch_backend) decoder_block_ex
      (Tensor [1%nat; 1%nat; 2%nat] f) (Tensor [1%nat; 1%nat; 2%nat] g) None None = inr out
    /\ shape out = [1%nat; 1%nat; 1%nat; 2%nat].
Proof.
  unfold DecoderBlock.forward.
  change (item (DecoderBlock.residual decoder_block_ex) 0) with (ok residual_ex).
  change (item (DecoderBlock.residual decoder_block_ex) 1) with (ok residual_ex).
  change (item (DecoderBlock.residual decoder_block_ex) 2) with (ok residual_ex).
  change (DecoderBlock.self_attention decoder_block_ex) with (zero_block 2 1).
  change (DecoderBlock.cross_attention decoder_block_ex) with (zero_block 2 1).
  change (DecoderBlock.feed_forward decoder_block_ex) with (zero_feed_forward 2).
  cbn [rbind ok attention_forward ffn_forward torch_backend].
  set (eo := Tensor [1%nat; 1%nat; 2%nat] f).
  set (x := Tensor [1%nat; 1%nat; 2%nat] g).
  set (n := data (LayerNorm.forward default_LayerNorm x)).
  destruct (attention_ex_returns_1 n n n) as (y & Ey & Hy).
  destruct (residual_ex_returns x
              (fun x => MultiAttentionBlock.forward (zero_block 2 1) x x x None)
              y [1%nat; 1%nat; 1%nat; 2%nat] Ey) as ([s1 f1] & E1 & S1).
  { rewrite Hy. reflexivity. }
  rewrite E1. cbn [rbind]. cbn [shape] in S1. subst s1.
  set (x1 := Tensor [1%nat; 1%nat; 1%nat; 2%nat] f1).
  destruct (attention_ex_returns_2 f f (data (LayerNorm.forward default_LayerNorm x1)))
    as (y2 & Ey2 & Hy2).
  destruct (residual_ex_returns x1
              (fun x => MultiAttentionBlock.forward (zero_block 2 1) eo eo x None)
              y2 [1%nat; 1%nat; 1%nat; 2%nat] Ey2) as ([s2 f2] & E2 & S2).
  { rewrite Hy2. reflexivity. }
  rewrite E2. cbn [rbind]. cbn [shape] in S2. subst s2.
  set (x2 := Tensor [1%nat; 1%nat; 1%nat; 2%nat] f2).
  destruct (feed_forward_ex_returns [1%nat; 1%nat; 1%nat; 2%nat]
              (data (LayerNorm.forward default_LayerNorm x2)))
    as (y3 & Ey3 & Hy3); [discriminate | reflexivity |].
  destruct (residual_ex_returns x2 (FeedForwardBlock.forward (zero_feed_forward 2))
              y3 [1%nat; 1%nat; 1%nat; 2%nat] Ey3) as (x3 & E3 & S3).
  { rewrite Hy3. reflexivity. }
  rewrite E3. cbn [rbind]. eauto.
Qed.

Lemma decode_example :
  exists out,
    Transformer.decode transformer_ex memory_ex None token_ex None = inr out
    /\ shape out = [1%nat; 1%nat; 1%nat; 2%nat].
Proof.
  unfold Transformer.decode.
  change (Transformer.tgt_emb transformer_ex) with embedding_ex.
  change (Transformer.tgt_pos transformer_ex) with (positional_ex table_ex).
  change (Transformer.decoder transformer_ex)
    with (Decoder.Make [decoder_block_ex] default_LayerNorm).
  destruct embedding_ex_returns as ([s1 f1] & -> & S1). cbn [shape] in S1. subst s1.
  cbn [rbind].
  destruct (positional_ex_returns f1) as ([s2 f2] & -> & S2). cbn [shape] in S2. subst s2.
  cbn [rbind].
  unfold Decoder.forward. cbn [Decoder.layers Decoder.norm Decoder.loop].
  destruct (decoder_block_ex_returns f2 (data memory_ex)) as (x & Ex & Hx).
  change (Tensor [1%nat; 1%nat; 2%nat] (data memory_ex)) with memory_ex in Ex.
  rewrite Ex. cbn [rbind ok norm_forward torch_backend].
  eexists. split; [reflexivity|]. exact Hx.
Qed.

(** The theorem on the example model, a sentence of one token and an
    encoder output of one position. *)
Lemma decode_never_returns_three_dimensions_witness :
  Decoder.layers (Transformer.decoder transformer_ex) <> []
  /\ exists out,
       Transformer.decode transformer_ex memory_ex None token_ex None = inr out
       /\ (4 <= rank out)%nat.
Proof.
  assert (H1 : Decoder.layers (Transformer.decoder transformer_ex) <> []) by discriminate.
  split; [exact H1|].
  destruct decode_example as (out & H & _).
  exists out. split; [exact H|].
  exact (decode_never_returns_three_dimensions transformer_ex memory_ex None token_ex None
           out H1 H).
Defined.

(** ** build_transformer: the loops that build the blocks *)

Lemma repeatM_returns {A} (body : build A) (P : A -> Prop) :
  (forall st, exists st' a, body st = (st', inr a) /\ P a) ->
  forall n st, exists st' l,
    repeatM n body st = (st', inr l) /\ length l = n /\ Forall P l.
Proof.
  intros Hbody. induction n as [|n IH]; intros st.
  - exists st, []. repeat split. constructor.
  - destruct (Hbody st) as (st1 & a & Ea & Pa).
    destruct (IH st1) as (st2 & l & El & Hlen & HP).
    exists st2, (a :: l). cbn [repeatM]. unfold bbind at 1. rewrite Ea.
    unfold bbind at 1. rewrite El. unfold bret.
    split; [reflexivity|]. split; [simpl; lia | now constructor].
Qed.

Lemma LayerNorm_init_returns eps st :
  exists st' n, LayerNorm.init eps st = (st', inr n)
                /\ LayerNorm.eps n = eps
                /\ (forall idx, data (LayerNorm.alpha n) idx = 1)
                /\ (forall idx, data (LayerNorm.gamma n) idx = 0).
Proof.
  unfold LayerNorm.init, bbind, created, bret. cbn [forallb Z.leb Z.compare andb].
  eexists. eexists. split; [reflexivity|]. cbn. auto.
Qed.

Lemma ResidualConnection_init_returns p st :
  (Qle_bool 0 p && Qle_bool p 1)%bool = true ->
  exists st' r, ResidualConnection.init p st = (st', inr r)
                /\ LayerNorm.eps (ResidualConnection.norm r) = LayerNorm.default_eps.
Proof.
  intros Hp. unfold ResidualConnection.init.
  destruct (LayerNorm_init_returns LayerNorm.default_eps st) as (st1 & n & E1 & He & _).
  destruct (Dropout_init_returns p st1 Hp) as (st2 & d & E2 & _).
  unfold bbind at 1. rewrite E1. unfold bbind at 1. rewrite E2. unfold bret.
  eexists. eexists. split; [reflexivity|]. exact He.
Qed.

Lemma FeedForwardBlock_init_returns d dff p st :
  (0 <= d)%Z -> (0 <= dff)%Z -> (Qle_bool 0 p && Qle_bool p 1)%bool = true ->
  exists st' f, FeedForwardBlock.init d dff p st = (st', inr f).
Proof.
  intros Hd Hf Hp. unfold FeedForwardBlock.init.
  destruct (Linear_init_returns d dff st Hd Hf) as (st1 & l1 & E1 & _).
  destruct (Dropout_init_returns p st1 Hp) as (st2 & dr & E2 & _).
  destruct (Linear_init_returns dff d st2 Hf Hd) as (st3 & l2 & E3 & _).
  unfold bbind at 1. rewrite E1. unfold bbind at 1. rewrite E2.
  unfold bbind at 1. rewrite E3. unfold bret. eauto.
Qed.

Lemma residuals_return p n st :
  (Qle_bool 0 p && Qle_bool p 1)%bool = true ->
  exists st' l, repeatM n (ResidualConnection.init p) st = (st', inr l) /\ length l = n.
Proof.
  intros Hp.
  destruct (repeatM_returns (ResidualConnection.init p) (fun _ => True)) with (n := n) (st := st)
    as (st' & l & E & Hl & _).
  - intros st1. destruct (ResidualConnection_init_returns p st1 Hp) as (st2 & r & E & _).
    eauto.
  - eauto.
Qed.

(** One round of each loop of [build_transformer]. *)
Lemma encoder_block_round d h p dff st :
  h <> 0%Z -> (d mod h = 0)%Z -> (0 <= d)%Z -> (0 <= dff)%Z ->
  (Qle_bool 0 p && Qle_bool p 1)%bool = true ->
  exists st' b,
    (run a <- MultiAttentionBlock.init d h p;
     run f <- FeedForwardBlock.init d dff p;
     EncoderBlock.init a f p) st = (st', inr b)
    /\ (length (EncoderBlock.residual b) = 2%nat
        /\ MultiAttentionBlock.h (EncoderBlock.multi_head_attention b) = h
        /\ (MultiAttentionBlock.d_k (EncoderBlock.multi_head_attention b) * h = d)%Z).
Proof.
  intros Hh Hm Hd Hf Hp.
  destruct (multi_head_init_returns d h p st Hh Hm Hd Hp) as (st1 & a & E1).
  destruct (MultiAttentionBlock_init_ok _ _ _ _ _ _ E1) as (_ & _ & Ha & Hk & _).
  destruct (FeedForwardBlock_init_returns d dff p st1 Hd Hf Hp) as (st2 & f & E2).
  destruct (residuals_return p 2 st2 Hp) as (st3 & l & E3 & Hl).
  unfold bbind at 1. rewrite E1. unfold bbind at 1. rewrite E2.
  unfold EncoderBlock.init. unfold bbind at 1. rewrite E3. unfold bret.
  eexists. eexists. split; [reflexivity|].
  cbn [EncoderBlock.residual EncoderBlock.multi_head_attention].
  destruct (MultiAttentionBlock_init_ok _ _ _ _ _ _ E1) as (_ & Hdm & _).
  repeat split; [assumption | assumption | congruence].
Qed.

Lemma decoder_block_round d h p dff st :
  h <> 0%Z -> (d mod h = 0)%Z -> (0 <= d)%Z -> (0 <= dff)%Z ->
  (Qle_bool 0 p && Qle_bool p 1)%bool = true ->
  exists st' b,
    (run a <- MultiAttentionBlock.init d h p;
     run c <- MultiAttentionBlock.init d h p;
     run f <- FeedForwardBlock.init d dff p;
     DecoderBlock.init a c f p) st = (st', inr b)
    /\ (length (DecoderBlock.residual b) = 3%nat
        /\ MultiAttentionBlock.h (DecoderBlock.self_attention b) = h
        /\ MultiAttentionBlock.h (DecoderBlock.cross_attention b) = h).
Proof.
  intros Hh Hm Hd Hf Hp.
  destruct (multi_head_init_returns d h p st Hh Hm Hd Hp) as (st1 & a & E1).
  destruct (multi_head_init_returns d h p st1 Hh Hm Hd Hp) as (st1' & c & E1').
  destruct (MultiAttentionBlock_init_ok _ _ _ _ _ _ E1) as (_ & _ & Ha & _).
  destruct (MultiAttentionBlock_init_ok _ _ _ _ _ _ E1') as (_ & _ & Hc & _).
  destruct (FeedForwardBlock_init_returns d dff p st1' Hd Hf Hp) as (st2 & f & E2).
  destruct (residuals_return p 3 st2 Hp) as (st3 & l & E3 & Hl).
  unfold bbind at 1. rewrite E1. unfold bbind at 1. rewrite E1'.
  unfold bbind at 1. rewrite E2.
  unfold DecoderBlock.init. unfold bbind at 1. rewrite E3. unfold bret.
  eexists. eexists. split; [reflexivity|].
  cbn [DecoderBlock.residual DecoderBlock.self_attention DecoderBlock.cross_attention].
  auto.
Qed.

(** Property X25.  For a configuration with [h] dividing [d_model], sizes
    that are not negative and a dropout rate in [0, 1], the two loops of
    [build_transformer] return [N] blocks each (none for [N <= 0]); every
    encoder block has two residual connections and an attention block
    with [d_k * h = d_model], every decoder block has three residual
    connections. *)
Theorem block_loops_return d N h p dff st :
  h <> 0%Z -> (d mod h = 0)%Z -> (0 <= d)%Z -> (0 <= dff)%Z ->
  (Qle_bool 0 p && Qle_bool p 1)%bool = true ->
  (exists st' blocks,
     encoder_blocks d N h p dff st = (st', inr blocks)
     /\ length blocks = Z.to_nat N
     /\ Forall (fun b => length (EncoderBlock.residual b) = 2%nat
                         /\ MultiAttentionBlock.h (EncoderBlock.multi_head_attention b) = h
                         /\ (MultiAttentionBlock.d_k (EncoderBlock.multi_head_attention b) * h
                             = d)%Z) blocks)
  /\ (exists st' blocks,
        decoder_blocks d N h p dff st = (st', inr blocks)
        /\ length blocks = Z.to_nat N
        /\ Forall (fun b => length (DecoderBlock.residual b) = 3%nat
                            /\ MultiAttentionBlock.h (DecoderBlock.self_attention b) = h
                            /\ MultiAttentionBlock.h (DecoderBlock.cross_attention b) = h)
             blocks).
Proof.
  intros Hh Hm Hd Hf Hp. split.
  - unfold encoder_blocks. apply repeatM_returns. intros st1.
    now apply encoder_block_round.
  - unfold decoder_blocks. apply repeatM_returns. intros st1.
    now apply decoder_block_round.
Qed.

(** The theorem on the default configuration. *)
Lemma block_loops_return_witness :
  8%Z <> 0%Z /\ (512 mod 8 = 0)%Z /\ (0 <= 512)%Z /\ (0 <= 2048)%Z
  /\ (Qle_bool 0 (1 # 10) && Qle_bool (1 # 10) 1)%bool = true
  /\ (exists st' blocks,
        encoder_blocks 512 6 8 (1 # 10) 2048 st0 = (st', inr blocks)
        /\ length blocks = Z.to_nat 6
        /\ Forall (fun b => length (EncoderBlock.residual b) = 2%nat
                            /\ MultiAttentionBlock.h (EncoderBlock.multi_head_attention b) = 8%Z
                            /\ (MultiAttentionBlock.d_k (EncoderBlock.multi_head_attention b) * 8
                                = 512)%Z) blocks)
  /\ (exists st' blocks,
        decoder_blocks 512 6 8 (1 # 10) 2048 st0 = (st', inr blocks)
        /\ length blocks = Z.to_nat 6
        /\ Forall (fun b => length (DecoderBlock.residual b) = 3%nat
                            /\ MultiAttentionBlock.h (DecoderBlock.self_attention b) = 8%Z
                            /\ MultiAttentionBlock.h (DecoderBlock.cross_attention b) = 8%Z)
             blocks).
Proof.
  assert (H1 : 8%Z <> 0%Z) by discriminate.
  assert (H2 : (512 mod 8 = 0)%Z) by reflexivity.
  assert (H3 : (0 <= 512)%Z) by discriminate.
  assert (H4 : (0 <= 2048)%Z) by discriminate.
  assert (H5 : (Qle_bool 0 (1 # 10) && Qle_bool (1 # 10) 1)%bool = true) by reflexivity.
  do 5 (split; [assumption|]).
  exact (block_loops_return 512 6 8 (1 # 10) 2048 st0 H1 H2 H3 H4 H5).
Defined.
